(** * gensim: FastText keyed vectors, the legacy bucket-matrix migration
      and the streaming token survey

    A shallow embedding of

      - [gensim/models/utils_any2vec.py] and the tail of
        [gensim/models/fasttext.py]: [ft_ngram_hashes] and
        [_is_utf8_continue];
      - [gensim/models/fasttext.py]: [FastTextKeyedVectors]
        ([__contains__], [get_vector], [init_ngrams_weights],
        [update_ngrams_weights], [init_post_load], [adjust_vectors]),
        [_process_fasttext_vocab], [_pad_random], [_pad_ones],
        [_unpack_copy], [_unpack], [_rollback_optimization] and
        [_try_upgrade]; of the model class [FastText], [prepare_weights],
        [init_post_load] and [estimate_memory], and [_check_model];
      - [gensim/models/tokensurvey.py]: [TokenSurvey] and
        [trim_rule_callback].

    Python values are modelled as the code has them: unbounded [int]s are
    [Z], a [dict] (and a [collections.Counter]) is an association list in
    insertion order whose keys are pairwise distinct, exceptions are an
    error result, and methods that mutate [self] thread the object through
    a state-and-exception monad.  float32 arithmetic, the numpy random
    generator, the compiled ngram extension and the [KeyedVectors] base
    class are interfaces (type classes): the code is verified for every
    implementation of them. *)

From Stdlib Require Import ZArith QArith Lia Sorted.
From stdpp Require Import numbers strings base tactics option list.

Open Scope Z_scope.

(** ** Python run-time notions *)

Module Py.

(** The exceptions the modelled code can raise. *)
Inductive exn :=
| KeyError | IndexError | ZeroDivisionError | ValueError
| AssertionError | AttributeError.

(** The outcome of evaluating an expression: a value, or a raised exception. *)
Inductive res (A : Type) :=
| Ok (a : A)
| Raise (e : exn).
Arguments Ok {A} a.
Arguments Raise {A} e.

#[global] Instance res_ret : MRet res := λ A a, Ok a.
#[global] Instance res_bind : MBind res := λ A B f m,
  match m with Ok a => f a | Raise e => Raise e end.

(** A method of an object of class [S]: it may mutate the object, and the
    mutations made before an exception is raised persist. *)
Definition meth (S A : Type) : Type := S → res A * S.

#[global] Instance meth_ret S : MRet (meth S) := λ A a s, (Ok a, s).
#[global] Instance meth_bind S : MBind (meth S) := λ A B f m s,
  match m s with
  | (Ok a, s') => f a s'
  | (Raise e, s') => (Raise e, s')
  end.

Definition get {S} : meth S S := λ s, (Ok s, s).
Definition modify {S} (f : S → S) : meth S unit := λ s, (Ok tt, f s).
Definition lift {S A} (r : res A) : meth S A := λ s, (r, s).

(** [for x in l: body(x)] over an object. *)
Fixpoint for_each {S A} (l : list A) (body : A → meth S unit) : meth S unit :=
  match l with
  | [] => mret tt
  | x :: l' => body x ;; for_each l' body
  end.

(** A loop that carries an accumulator and can raise. *)
Fixpoint foldM {A B} (f : B → A → res B) (b : B) (l : list A) : res B :=
  match l with
  | [] => Ok b
  | x :: l' => b' ← f b x; foldM f b' l'
  end.

(** [x % n] on Python ints: the result has the sign of [n]. *)
Definition py_mod (x n : Z) : res Z :=
  if n =? 0 then Raise ZeroDivisionError else Ok (x mod n).

(** [l[z]] on a list or on the rows of a numpy array: a negative index
    counts from the end. *)
Definition getitem {A} (l : list A) (z : Z) : res A :=
  let n := Z.of_nat (length l) in
  let z' := if z <? 0 then z + n else z in
  if (z' <? 0) || (n <=? z') then Raise IndexError
  else match l !! Z.to_nat z' with
       | Some x => Ok x
       | None => Raise IndexError
       end.

(** [enumerate(l)]. *)
Definition enumerate {A} (l : list A) : list (nat * A) :=
  zip (seq 0 (length l)) l.

(** [l[z] = x] on a list: a negative index counts from the end. *)
Definition setitem_z {A} (l : list A) (z : Z) (x : A) : res (list A) :=
  let n := Z.of_nat (length l) in
  let z' := if z <? 0 then z + n else z in
  if (z' <? 0) || (n <=? z') then Raise IndexError
  else Ok (<[Z.to_nat z' := x]> l).

(** [range(n)]. *)
Definition range (n : Z) : list Z := Z.of_nat <$> seq 0 (Z.to_nat n).

(** [s.update(xs)] on a set, kept as a list without duplicates. *)
Definition set_update {A} `{EqDecision A} (s xs : list A) : list A :=
  fold_left (λ s x, if decide (x ∈ s) then s else s ++ [x]) xs s.

(** *** [dict]: an association list in insertion order *)

Section dict.
Context {K V : Type} `{EqDecision K}.

Fixpoint dict_get (k : K) (d : list (K * V)) : option V :=
  match d with
  | [] => None
  | (k', v) :: d' => if decide (k = k') then Some v else dict_get k d'
  end.

Definition dict_mem (k : K) (d : list (K * V)) : bool :=
  bool_decide (is_Some (dict_get k d)).

(** [d[k] = v]: an existing key keeps its place. *)
Fixpoint dict_set (k : K) (v : V) (d : list (K * V)) : list (K * V) :=
  match d with
  | [] => [(k, v)]
  | (k', v') :: d' =>
      if decide (k = k') then (k', v) :: d' else (k', v') :: dict_set k v d'
  end.

(** [d.pop(k)]: [None] stands for the [KeyError]. *)
Fixpoint dict_pop (k : K) (d : list (K * V)) : option (V * list (K * V)) :=
  match d with
  | [] => None
  | (k', v) :: d' =>
      if decide (k = k') then Some (v, d')
      else '(x, d'') ← dict_pop k d'; Some (x, (k', v) :: d'')
  end.

(** [d.update(items)], also the way a dict comprehension fills a dict. *)
Definition dict_update (d items : list (K * V)) : list (K * V) :=
  fold_left (λ d kv, dict_set kv.1 kv.2 d) items d.

Definition dict_of_items (items : list (K * V)) : list (K * V) :=
  dict_update [] items.

(** The invariant of a [dict]: no key occurs twice. *)
Definition dict_wf (d : list (K * V)) : Prop := NoDup d.*1.

End dict.

(** *** [logging.Logger] *)

(** The methods of [logging.Logger] that emit a message. The modelled code
    calls [info], [warning] and [severe]; a [Logger] has no attribute
    [severe], and looking it up raises [AttributeError]. *)
Definition Logger_methods : list string :=
  ["debug"; "info"; "warning"; "warn"; "error"; "exception";
   "critical"; "fatal"; "log"]%string.

(** [logger.<method>(...)]: the message goes to the log, which is not part
    of the modelled state. *)
Definition logger (method : string) : res unit :=
  if decide (method ∈ Logger_methods) then Ok tt else Raise AttributeError.

(** [sys.maxsize] on a 64-bit build. *)
Definition sys_maxsize : Z := 2 ^ 63 - 1.

End Py.

Import Py.

(** ** [gensim/models/tokensurvey.py] *)

Module tokensurvey.

(** Tokens are hashable Python values: strings, or plain ints (tags). *)
Inductive token :=
| Str (s : string)
| Int (z : Z).

#[global] Instance token_eq_dec : EqDecision token.
Proof. solve_decision. Defined.

(** Python floats enter the survey only through
    [int(self.prune_until * self.prune_at_size)]. *)
Class PyFloat := {
  float : Type;
  (** [int(x * n)] for a float [x] and an int [n] *)
  int_of_float_mul : float → Z → Z;
}.

(** *** [collections.Counter] *)

(** [Counter.update(iterable)] on an iterable of elements
    ([_count_elements]): [mapping[elem] = mapping.get(elem, 0) + 1]. *)
Definition count_elements (c : list (token * Z)) (elems : list token)
  : list (token * Z) :=
  fold_left (λ c elem, dict_set elem (default 0 (dict_get elem c) + 1) c) elems c.

(** [self[elem] = count + self_get(elem, 0)]. *)
Definition add_count (c : list (token * Z)) (kv : token * Z) : list (token * Z) :=
  dict_set kv.1 (kv.2 + default 0 (dict_get kv.1 c)) c.

(** [Counter.update(mapping)]: counts are added; an empty counter takes
    the fast path through [dict.update]. *)
Definition counter_update (c other : list (token * Z)) : list (token * Z) :=
  match c with
  | [] => dict_update c other
  | _ :: _ => fold_left add_count other c
  end.

(** [sorted(items, key=itemgetter(1), reverse=True)]: a stable sort, so
    items of equal count stay in insertion order. *)
Fixpoint insert_by_count (x : token * Z) (l : list (token * Z))
  : list (token * Z) :=
  match l with
  | [] => [x]
  | y :: l' => if y.2 <=? x.2 then x :: y :: l' else y :: insert_by_count x l'
  end.

Definition most_common (c : list (token * Z)) : list (token * Z) :=
  foldr insert_by_count [] c.

(** *** [class TokenSurvey] *)

Section survey.
Context `{PyFloat}.

Record TokenSurvey := {
  prune_at_size : Z;
  prune_until : float;
  tenured_tokens : list token;
  raw_tally : list (token * Z);
  corpus_count : Z;
  total_tokens : Z;
  max_raw_int : Z;
  prune_count : Z;
  prune_floor : Z;
  prune_total : Z;
  items : string;
}.

Definition set_raw_tally (c : list (token * Z)) (s : TokenSurvey) : TokenSurvey :=
  {| prune_at_size := prune_at_size s; prune_until := prune_until s;
     tenured_tokens := tenured_tokens s; raw_tally := c;
     corpus_count := corpus_count s; total_tokens := total_tokens s;
     max_raw_int := max_raw_int s; prune_count := prune_count s;
     prune_floor := prune_floor s; prune_total := prune_total s;
     items := items s |}.

Definition set_tenured_tokens (tenured : list token) (s : TokenSurvey)
  : TokenSurvey :=
  {| prune_at_size := prune_at_size s; prune_until := prune_until s;
     tenured_tokens := tenured; raw_tally := raw_tally s;
     corpus_count := corpus_count s; total_tokens := total_tokens s;
     max_raw_int := max_raw_int s; prune_count := prune_count s;
     prune_floor := prune_floor s; prune_total := prune_total s;
     items := items s |}.

(** [self.tenured_tokens.add(token)] on a set. *)
Definition tenure_token (tok : token) : meth TokenSurvey unit :=
  modify (λ s,
    set_tenured_tokens
      (if decide (tok ∈ tenured_tokens s) then tenured_tokens s
       else tenured_tokens s ++ [tok]) s).

Definition prune_token (tok : token) : meth TokenSurvey unit := λ s,
  match dict_pop tok (raw_tally s) with
  | None => (Raise KeyError, s)
  | Some (count, tally) =>
      (Ok tt,
       {| prune_at_size := prune_at_size s; prune_until := prune_until s;
          tenured_tokens := tenured_tokens s; raw_tally := tally;
          corpus_count := corpus_count s; total_tokens := total_tokens s;
          max_raw_int := max_raw_int s; prune_count := prune_count s + 1;
          prune_floor := Z.max (prune_floor s) count;
          prune_total := prune_total s + count;
          items := items s |})
  end.

(** [sum(self.raw_tally.values())]. *)
Definition sum_values (c : list (token * Z)) : Z :=
  foldr Z.add 0 c.*2.

Definition combine_survey (other_survey : TokenSurvey) : meth TokenSurvey unit :=
  modify (λ s,
    let tally := counter_update (raw_tally s) (raw_tally other_survey) in
    {| prune_at_size := prune_at_size s; prune_until := prune_until s;
       tenured_tokens := tenured_tokens s; raw_tally := tally;
       corpus_count := corpus_count s + corpus_count other_survey;
       total_tokens := sum_values tally;
       max_raw_int := max_raw_int s;
       prune_count := prune_count s + prune_count other_survey;
       prune_floor := Z.max (prune_floor s) (prune_floor other_survey);
       prune_total := prune_total s + prune_total other_survey;
       items := items s |}).

Definition __len__ (s : TokenSurvey) : Z := Z.of_nat (length (raw_tally s)).

(** A prune callback receives the survey and may mutate it or raise. *)
Definition callback : Type := meth TokenSurvey unit.

(** [trim_rule_callback(trim_rule)]; [keep token count] stands for
    [keep_vocab_item(token, count, 0, trim_rule)] of [gensim.utils]. *)
Definition trim_rule_callback (keep : token → Z → bool) : callback :=
  s ← get;
  for_each (most_common (raw_tally s))
    (λ tc, if keep tc.1 tc.2 then mret tt else prune_token tc.1).

(** The locals of [update_with] that survive an iteration. The timer
    ([interval_start]) and [interval_count] only feed the progress message;
    wall-clock time is not modelled and they are left out. *)
Record locals := {
  l_total_tokens : Z;
  effective_prune_at_size : Z;
  item_count : Z;
}.

(** Lines 123-131: [for key, count in infrequent_candidates]. The boolean
    tells whether the loop left through [break]; [false] selects the
    [else] clause of the [for]. *)
Fixpoint prune_candidates (target_size : Z) (cands : list (token * Z))
    (highest_pruned_count infrequent_pruned : Z)
  : meth TokenSurvey (bool * Z * Z) :=
  match cands with
  | [] => mret (false, highest_pruned_count, infrequent_pruned)
  | (key, count) :: cands' =>
      s ← get;
      if __len__ s <=? target_size
      then mret (true, highest_pruned_count, infrequent_pruned)
      else prune_token key ;;
           prune_candidates target_size cands' count (infrequent_pruned + 1)
  end.

(** Lines 117-144: the low-frequency pruning step. *)
Definition infrequent_pruning (lv : locals) : meth TokenSurvey locals :=
  s ← get;
  let target_size := int_of_float_mul (prune_until s) (prune_at_size s) in
  let infrequent_candidates := reverse (most_common (raw_tally s)) in
  '(broke, _, _) ← prune_candidates target_size infrequent_candidates 0 0;
  lv' ← (if broke : bool then mret lv
         else lift (logger "severe") ;;
              mret {| l_total_tokens := l_total_tokens lv;
                      effective_prune_at_size := effective_prune_at_size lv * 2;
                      item_count := item_count lv |});
  lift (logger "info") ;;
  mret lv'.

(** Lines 95-144: the body of [for tokens in corpus_iterable]. [tokens] is
    a list, so the warning about a plain string does not arise. *)
Definition survey_item (prune_callbacks : list callback) (progress_per : Z)
    (lv : locals) (tokens : list token) : meth TokenSurvey locals :=
  modify (λ s, set_raw_tally (count_elements (raw_tally s) tokens) s) ;;
  let lv := {| l_total_tokens := l_total_tokens lv + Z.of_nat (length tokens);
               effective_prune_at_size := effective_prune_at_size lv;
               item_count := item_count lv + 1 |} in
  s ← get;
  let reached_size := __len__ s in
  r ← lift (py_mod (item_count lv) progress_per);
  (if r =? 0 then lift (logger "info") else mret tt) ;;
  if effective_prune_at_size lv <=? reached_size then
    lift (logger "info") ;;
    (match prune_callbacks with
     | [] => mret tt
     | _ :: _ => for_each prune_callbacks (λ cb, cb) ;; lift (logger "info")
     end) ;;
    infrequent_pruning lv
  else mret lv.

Fixpoint survey_items (prune_callbacks : list callback) (progress_per : Z)
    (lv : locals) (corpus_iterable : list (list token))
  : meth TokenSurvey locals :=
  match corpus_iterable with
  | [] => mret lv
  | tokens :: rest =>
      lv' ← survey_item prune_callbacks progress_per lv tokens;
      survey_items prune_callbacks progress_per lv' rest
  end.

Definition is_int (t : token) : option Z :=
  match t with Int z => Some z | Str _ => None end.

Definition update_with (corpus_iterable : list (list token))
    (prune_callbacks : list callback) (progress_per : Z)
    (trim_rule : option (token → Z → bool)) : meth TokenSurvey unit :=
  let prune_callbacks :=
    match trim_rule with
    | Some keep => prune_callbacks ++ [trim_rule_callback keep]
    | None => prune_callbacks
    end in
  s0 ← get;
  lv ← survey_items prune_callbacks progress_per
         {| l_total_tokens := 0;
            effective_prune_at_size := prune_at_size s0;
            item_count := 0 |} corpus_iterable;
  s1 ← get;
  (if prune_at_size s1 <? effective_prune_at_size lv
   then lift (logger "severe") else mret tt) ;;
  (match prune_callbacks with
   | [] => mret tt
   | _ :: _ => for_each prune_callbacks (λ cb, cb) ;; lift (logger "info")
   end) ;;
  modify (λ s,
    {| prune_at_size := prune_at_size s; prune_until := prune_until s;
       tenured_tokens := tenured_tokens s; raw_tally := raw_tally s;
       corpus_count := corpus_count s + item_count lv;
       total_tokens := total_tokens s + l_total_tokens lv;
       max_raw_int := foldr Z.max (-1) (omap is_int (raw_tally s).*1);
       prune_count := prune_count s; prune_floor := prune_floor s;
       prune_total := prune_total s; items := items s |}).

(** An absent or falsy argument is [None]. *)
Definition __init__ (corpus_iterable : option (list (list token)))
    (raw_tally0 : option (list (token * Z))) (corpus_count0 : Z)
    (progress_per : Z) (prune_at_size0 : option Z) (prune_until0 : float)
    (prune_callbacks : list callback) (items0 : string)
  : res unit * TokenSurvey :=
  let tally := default [] raw_tally0 in
  let s :=
    {| prune_at_size :=
         match prune_at_size0 with
         | Some n => if n =? 0 then sys_maxsize else n
         | None => sys_maxsize
         end;
       prune_until := prune_until0;
       tenured_tokens := [];
       raw_tally := tally;
       corpus_count := corpus_count0;
       total_tokens := sum_values tally;
       max_raw_int := -1;
       prune_count := 0; prune_floor := 0; prune_total := 0;
       items := items0 |} in
  match corpus_iterable with
  | Some ((_ :: _) as corpus) =>
      update_with corpus prune_callbacks progress_per None s
  | _ => (Ok tt, s)
  end.

End survey.

(** The count-bearing fields of two surveys agree. *)
Definition same_counts `{PyFloat} (s1 s2 : TokenSurvey) : Prop :=
  (∀ t, dict_get t (raw_tally s1) = dict_get t (raw_tally s2)) ∧
  corpus_count s1 = corpus_count s2 ∧
  total_tokens s1 = total_tokens s2 ∧
  prune_count s1 = prune_count s2 ∧
  prune_floor s1 = prune_floor s2 ∧
  prune_total s1 = prune_total s2.

(** The count of a token in the sum of two tallies: absent when it is
    absent from both. *)
Definition count_sum (x y : option Z) : option Z :=
  match y with
  | None => x
  | Some n => Some (n + default 0 x)
  end.

(** [a.combine_survey(b)], as the survey [a] has become. *)
Definition merge `{PyFloat} (a b : TokenSurvey) : TokenSurvey :=
  (combine_survey b a).2.

Section reports.
Context `{PyFloat}.

(** Lines 189-204. The list starts as [[None] * n] and is filled by two
    loops; [option] keeps the placeholder. *)
Definition int_centric_items (self : TokenSurvey)
  : res (list (option (token * Z))) :=
  let non_int_keys := filter (λ t, is_int t = None) (raw_tally self).*1 in
  let non_int_tokens := Z.of_nat (length non_int_keys) in
  (if __len__ self <? max_raw_int self then logger "warn" else Ok tt) ;;
  let return_list :=
    replicate (Z.to_nat ((max_raw_int self + 1) + non_int_tokens)) None in
  return_list ← foldM
    (λ l i, setitem_z l i
              (Some (Int i, default 0 (dict_get (Int i) (raw_tally self)))))
    return_list (range (max_raw_int self + 1));
  foldM
    (λ l (it : nat * token),
       setitem_z l (max_raw_int self + 1 + Z.of_nat it.1)
         (Some (it.2, default 0 (dict_get it.2 (raw_tally self)))))
    return_list (enumerate non_int_keys).

(** The token occurrences a survey accounts for: those it retains and
    those it has discarded by pruning. *)
Definition accounted (s : TokenSurvey) : Z :=
  sum_values (raw_tally s) + prune_total s.

(** The totals that pruning leaves alone: what the survey accounts for,
    and the two counters that [update_with] advances at its end. *)
Definition same_totals (s s' : TokenSurvey) : Prop :=
  accounted s' = accounted s ∧
  total_tokens s' = total_tokens s ∧
  corpus_count s' = corpus_count s ∧
  prune_at_size s' = prune_at_size s.

(** A method that leaves these totals alone, however it ends. *)
Definition keeps_totals {A} (m : meth TokenSurvey A) : Prop :=
  ∀ s r s', m s = (r, s') → same_totals s s'.

End reports.

(** Floats at concrete inputs: a rational [x], with [int(x * n)] the
    truncation of the exact product. This agrees with the float product
    wherever that product is exact, as for [0.5 * 2] and [0.5 * 1]. *)
#[local] Instance Q_float : PyFloat := {|
  float := Q;
  int_of_float_mul x n :=
    let p := (x * inject_Z n)%Q in Z.quot (Qnum p) (Z.pos (Qden p));
|}.

(** [TokenSurvey(prune_at_size=size, prune_until=prune_until)]. *)
Definition new_survey (size : option Z) (prune_until : Q) : TokenSurvey :=
  (__init__ None None 0 10000 size prune_until [] "tokens").2.

(** [TokenSurvey(raw_tally=tally, corpus_count=n)]. *)
Definition survey_of (tally : list (token * Z)) (n : Z) : TokenSurvey :=
  (__init__ None (Some tally) n 10000 None (1 # 2)%Q [] "tokens").2.

End tokensurvey.

(** ** [gensim/models/fasttext.py] *)

Module fasttext.

(** *** Interfaces to numpy and to the compiled extension *)

(** A row of float32 values (a 1-D [np.ndarray]) and the numpy operations
    the code applies to rows. *)
Class Float32 := {
  vec : Type;
  (** [np.zeros(n, dtype=np.float32)] *)
  np_zeros : nat → vec;
  (** [u + v], elementwise *)
  vec_add : vec → vec → vec;
  (** [v / n] for a Python int [n], elementwise *)
  vec_div : vec → Z → vec;
  (** [v / np.linalg.norm(v)] *)
  vec_unit : vec → vec;
}.

(** [np.random]: the generator state after [seed(s)], and the draw of one
    row of [columns] values from [uniform(-1.0 / columns, 1.0 / columns)]
    cast to float32, which advances the generator. A matrix is drawn row
    by row. *)
Class NumpyRandom `{Float32} := {
  rng : Type;
  np_random_seed : Z → rng;
  uniform_row : rng → nat → vec * rng;
}.

(** The functions imported from the compiled module
    [gensim.models.fasttext_inner] ([_utils_any2vec]). Python strings are
    modelled by their UTF-8 bytes. *)
Class FastTextInner := {
  compute_ngrams : string → Z → Z → list string;
  compute_ngrams_bytes : string → Z → Z → list string;
  ft_hash_broken : string → Z;
  ft_hash_bytes : string → Z;
}.

(** *** Matrices *)

Section numpy.
Context `{NumpyRandom}.

(** A 2-D [np.ndarray]: its rows, and [shape[1]] (which an array keeps
    even when it has no rows). *)
Record matrix := {
  rows : list vec;
  columns : nat;
}.

Definition shape (m : matrix) : nat * nat := (length (rows m), columns m).

(** [a[i] = x] for a non-negative [i]. *)
Definition setitem {A} (l : list A) (i : nat) (x : A) : res (list A) :=
  if decide (i < length l)%nat then Ok (<[i := x]> l) else Raise IndexError.

(** [n] rows drawn one after the other. *)
Fixpoint uniform_rows (g : rng) (columns : nat) (n : nat) : list vec :=
  match n with
  | O => []
  | S n' => let '(r, g') := uniform_row g columns in
            r :: uniform_rows g' columns n'
  end.

(** [rand.uniform(low, high, (new_rows, columns)).astype(REAL)]; a negative
    dimension is a [ValueError]. *)
Definition uniform (rand : rng) (new_rows : Z) (columns : nat) : res matrix :=
  if new_rows <? 0 then Raise ValueError
  else Ok {| rows := uniform_rows rand columns (Z.to_nat new_rows);
             columns := columns |}.

(** [vstack([m, suffix])] for arrays of equal width. *)
Definition vstack (m suffix : matrix) : matrix :=
  {| rows := rows m ++ rows suffix; columns := columns m |}.

(** [-1.0 / columns] raises [ZeroDivisionError] for a matrix without
    columns. *)
Definition _pad_random (m : matrix) (new_rows : Z) (rand : rng) : res matrix :=
  let '(_, columns) := shape m in
  if (columns =? 0)%nat then Raise ZeroDivisionError
  else suffix ← uniform rand new_rows columns;
       Ok (vstack m suffix).

(** *** Undoing the packed bucket layout *)

(** [hash2index] maps an ngram hash to a row of the packed matrix; hashes
    and row numbers are non-negative. *)
Definition _unpack_copy (m : matrix) (num_rows : Z)
    (hash2index : list (nat * nat)) (seed : Z) : res matrix :=
  let '(rows_, columns_) := shape m in
  if Z.of_nat rows_ =? num_rows then Ok m
  else if negb (Z.of_nat rows_ <? num_rows) then Raise AssertionError
  else
    let rand_obj := np_random_seed seed in
    let n := {| rows := []; columns := columns_ |} in
    n ← _pad_random n num_rows rand_obj;
    rows' ← foldM
      (λ n (sd : nat * nat),
         match rows m !! sd.2 with
         | Some r => setitem n sd.1 r
         | None => Raise IndexError
         end)
      (rows n) hash2index;
    Ok {| rows := rows'; columns := columns n |}.

(** [m[[h, i]] = m[[i, h]]]: the right-hand side is copied first. *)
Definition swap_rows (h i : nat) (m : list vec) : res (list vec) :=
  match m !! i, m !! h with
  | Some ri, Some rh => Ok (<[i := rh]> (<[h := ri]> m))
  | _, _ => Raise IndexError
  end.

(** The two dict comprehensions that build [swap]. *)
Definition internal_swaps (orig_rows : nat) (hash2index : list (nat * nat))
  : list (nat * nat) :=
  filter (λ hi, hi.1 < hi.2 < orig_rows)%nat hash2index.

Definition external_swaps (orig_rows : nat) (hash2index : list (nat * nat))
  : list (nat * nat) :=
  filter (λ hi, orig_rows ≤ hi.1)%nat hash2index.

(** [for h, i in swap.items(): assert h != i; m[[h, i]] = m[[i, h]]]. *)
Definition swap_all (swap : list (nat * nat)) (m : list vec) : res (list vec) :=
  foldM
    (λ m (hi : nat * nat),
       if decide (hi.1 = hi.2) then Raise AssertionError
       else swap_rows hi.1 hi.2 m)
    m swap.

Definition _unpack (m : matrix) (num_rows : Z)
    (hash2index : list (nat * nat)) (seed : Z) : res matrix :=
  let '(orig_rows, orig_columns) := shape m in
  if Z.of_nat orig_rows =? num_rows then Ok m
  else if negb (Z.of_nat orig_rows <? num_rows) then Raise AssertionError
  else
    let rand_obj := np_random_seed seed in
    m ← _pad_random m (num_rows - Z.of_nat orig_rows) rand_obj;
    let swap := dict_of_items (internal_swaps orig_rows hash2index) in
    let swap := dict_update swap (external_swaps orig_rows hash2index) in
    rows' ← swap_all swap (rows m);
    Ok {| rows := rows'; columns := columns m |}.

End numpy.

(** *** Hashing the ngrams of a word *)

Section hashing.
Context `{FastTextInner}.

(** The same function is defined in [utils_any2vec.py] and at the end of
    [fasttext.py]. *)
Definition ft_ngram_hashes (word : string) (minn maxn num_buckets : Z)
    (fb_compatible : bool) : res (list Z) :=
  if fb_compatible then
    let encoded_ngrams := compute_ngrams_bytes word minn maxn in
    mapM (λ n, py_mod (ft_hash_bytes n) num_buckets) encoded_ngrams
  else
    let text_ngrams := compute_ngrams word minn maxn in
    mapM (λ n, py_mod (ft_hash_broken n) num_buckets) text_ngrams.

(** The ngrams [ft_ngram_hashes] hashes in the given mode. *)
Definition ngrams_of (word : string) (minn maxn : Z) (fb_compatible : bool)
  : list string :=
  if fb_compatible then compute_ngrams_bytes word minn maxn
  else compute_ngrams word minn maxn.

(** A vocabulary entry ([Vocab]). *)
Record Vocab := {
  index : nat;
  count : Z;
}.

Definition _process_fasttext_vocab (iterable : list (string * Vocab))
    (min_n max_n num_buckets : Z) (compatible_hash : bool)
  : res (list (nat * list Z)) :=
  if num_buckets =? 0 then
    Ok (dict_of_items (map (λ wv : string * Vocab, (index wv.2, [])) iterable))
  else
    foldM
      (λ word_indices (wv : string * Vocab),
         wi ← ft_ngram_hashes wv.1 min_n max_n num_buckets compatible_hash;
         Ok (dict_set (index wv.2) wi word_indices))
      [] iterable.

End hashing.

(** *** [class FastTextKeyedVectors] *)

Section keyedvectors.
Context `{NumpyRandom} `{FastTextInner}.

(** The store after its matrices have been created. [vectors] is the
    inherited matrix of composite full-word vectors. *)
Record FastTextKeyedVectors := {
  vector_size : nat;
  vocab : list (string * Vocab);
  index2key : list string;
  vectors : matrix;
  vectors_vocab : matrix;
  vectors_ngrams : matrix;
  buckets_word : option (list (nat * list Z));
  min_n : Z;
  max_n : Z;
  bucket : Z;
  compatible_hash : bool;
}.

(** The base class [KeyedVectors] ([keyedvectors.py]), which serves the
    lookup of a word of the vocabulary. *)
Class KeyedVectors := {
  super_get_vector : FastTextKeyedVectors → string → bool → res vec;
}.
Context `{KeyedVectors}.

Definition set_vectors (m : matrix) (kv : FastTextKeyedVectors)
  : FastTextKeyedVectors :=
  {| vector_size := vector_size kv; vocab := vocab kv;
     index2key := index2key kv; vectors := m;
     vectors_vocab := vectors_vocab kv; vectors_ngrams := vectors_ngrams kv;
     buckets_word := buckets_word kv; min_n := min_n kv; max_n := max_n kv;
     bucket := bucket kv; compatible_hash := compatible_hash kv |}.

Definition set_vectors_vocab (m : matrix) (kv : FastTextKeyedVectors)
  : FastTextKeyedVectors :=
  {| vector_size := vector_size kv; vocab := vocab kv;
     index2key := index2key kv; vectors := vectors kv;
     vectors_vocab := m; vectors_ngrams := vectors_ngrams kv;
     buckets_word := buckets_word kv; min_n := min_n kv; max_n := max_n kv;
     bucket := bucket kv; compatible_hash := compatible_hash kv |}.

Definition set_buckets_word (b : option (list (nat * list Z)))
    (kv : FastTextKeyedVectors) : FastTextKeyedVectors :=
  {| vector_size := vector_size kv; vocab := vocab kv;
     index2key := index2key kv; vectors := vectors kv;
     vectors_vocab := vectors_vocab kv; vectors_ngrams := vectors_ngrams kv;
     buckets_word := b; min_n := min_n kv; max_n := max_n kv;
     bucket := bucket kv; compatible_hash := compatible_hash kv |}.

Definition __contains__ (self : FastTextKeyedVectors) (word : string) : bool :=
  true.

(** Lines 1334-1335: [for nh in ngram_hashes: word_vec += ngram_weights[nh]]. *)
Definition add_ngram_rows (ngram_weights : matrix) (word_vec : vec)
    (ngram_hashes : list Z) : res vec :=
  foldM
    (λ word_vec nh, row ← getitem (rows ngram_weights) nh;
                    Ok (vec_add word_vec row))
    word_vec ngram_hashes.

Definition get_vector (self : FastTextKeyedVectors) (word : string)
    (use_norm : bool) : res vec :=
  if dict_mem word (vocab self) then super_get_vector self word use_norm
  else if bucket self =? 0 then Raise KeyError
  else
    let word_vec := np_zeros (shape (vectors_ngrams self)).2 in
    let ngram_weights := vectors_ngrams self in
    ngram_hashes ← ft_ngram_hashes word (min_n self) (max_n self)
                      (bucket self) (compatible_hash self);
    if (length ngram_hashes =? 0)%nat then
      logger "warning" ;; Ok word_vec
    else
      word_vec ← add_ngram_rows ngram_weights word_vec ngram_hashes;
      let word_vec := vec_div word_vec (Z.of_nat (length ngram_hashes)) in
      if use_norm then Ok (vec_unit word_vec) else Ok word_vec.

Definition update_ngrams_weights (seed : Z) (old_vocab_len : Z)
  : meth FastTextKeyedVectors unit :=
  self ← get;
  bw ← lift (_process_fasttext_vocab (vocab self) (min_n self) (max_n self)
               (bucket self) (compatible_hash self));
  modify (set_buckets_word (Some bw)) ;;
  let rand_obj := np_random_seed seed in
  self ← get;
  let new_vocab := Z.of_nat (length (vocab self)) - old_vocab_len in
  m ← lift (_pad_random (vectors_vocab self) new_vocab rand_obj);
  modify (set_vectors_vocab m).

(** [self.vectors[i] = v], through the view [self.vectors[i]]. *)
Definition set_vectors_row (i : nat) (v : vec) : meth FastTextKeyedVectors unit :=
  self ← get;
  rows' ← lift (setitem (rows (vectors self)) i v);
  modify (set_vectors {| rows := rows'; columns := columns (vectors self) |}).

(** Lines 1456-1459: the body of [for i, w in enumerate(self.index2key)]. *)
Definition adjust_row (iw : nat * string) : meth FastTextKeyedVectors unit :=
  self ← get;
  ngram_hashes ← lift (ft_ngram_hashes iw.2 (min_n self) (max_n self)
                         (bucket self) (compatible_hash self));
  for_each ngram_hashes
    (λ nh, self ← get;
           v ← lift (getitem (rows (vectors self)) (Z.of_nat iw.1));
           row ← lift (getitem (rows (vectors_ngrams self)) nh);
           set_vectors_row iw.1 (vec_add v row)) ;;
  self ← get;
  v ← lift (getitem (rows (vectors self)) (Z.of_nat iw.1));
  set_vectors_row iw.1 (vec_div v (Z.of_nat (length ngram_hashes) + 1)).

Definition adjust_vectors : meth FastTextKeyedVectors unit :=
  self ← get;
  if bucket self =? 0 then mret tt
  else
    modify (set_vectors (vectors_vocab self)) ;;
    for_each (enumerate (index2key self)) adjust_row.

Definition set_vectors_ngrams (m : matrix) (kv : FastTextKeyedVectors)
  : FastTextKeyedVectors :=
  {| vector_size := vector_size kv; vocab := vocab kv;
     index2key := index2key kv; vectors := vectors kv;
     vectors_vocab := vectors_vocab kv; vectors_ngrams := m;
     buckets_word := buckets_word kv; min_n := min_n kv; max_n := max_n kv;
     bucket := bucket kv; compatible_hash := compatible_hash kv |}.

Definition set_compatible_hash (b : bool) (kv : FastTextKeyedVectors)
  : FastTextKeyedVectors :=
  {| vector_size := vector_size kv; vocab := vocab kv;
     index2key := index2key kv; vectors := vectors kv;
     vectors_vocab := vectors_vocab kv; vectors_ngrams := vectors_ngrams kv;
     buckets_word := buckets_word kv; min_n := min_n kv; max_n := max_n kv;
     bucket := bucket kv; compatible_hash := b |}.

(** [hash2index] is an attribute of stores pickled by old versions only; it
    is passed in, and deleted by not being kept. *)
Definition _rollback_optimization (hash2index : list (nat * nat))
  : meth FastTextKeyedVectors unit :=
  lift (logger "warning") ;;
  kv ← get;
  m ← lift (_unpack (vectors_ngrams kv) (bucket kv) hash2index 1);
  modify (set_vectors_ngrams m).

(** [hasattr(wv, 'hash2index')] is [hash2index] being [Some], and
    [has_compatible_hash] is [hasattr(wv, 'compatible_hash')]; the field
    [compatible_hash] of a store that lacks the attribute has no meaning. *)
Definition _try_upgrade (hash2index : option (list (nat * nat)))
    (has_compatible_hash : bool) : meth FastTextKeyedVectors unit :=
  (match hash2index with
   | Some h2i => _rollback_optimization h2i
   | None => mret tt
   end) ;;
  if has_compatible_hash then mret tt
  else lift (logger "warning") ;; modify (set_compatible_hash false).

(** The generator after [n] rows have been drawn. *)
Fixpoint uniform_advance (g : rng) (columns : nat) (n : nat) : rng :=
  match n with
  | O => g
  | S n' => uniform_advance (uniform_row g columns).2 columns n'
  end.

(** Lines 1342-1382. [-1.0 / self.vector_size] raises for a zero vector
    size; the two matrices are drawn from the same generator, one after
    the other. *)
Definition init_ngrams_weights (seed : Z) : meth FastTextKeyedVectors unit :=
  self ← get;
  bw ← lift (_process_fasttext_vocab (vocab self) (min_n self) (max_n self)
               (bucket self) (compatible_hash self));
  modify (set_buckets_word (Some bw)) ;;
  let rand_obj := np_random_seed seed in
  self ← get;
  if (vector_size self =? 0)%nat then lift (Raise ZeroDivisionError)
  else
    let vocab_rows := length (vocab self) in
    m ← lift (uniform rand_obj (Z.of_nat vocab_rows) (vector_size self));
    modify (set_vectors_vocab m) ;;
    let rand_obj := uniform_advance rand_obj (vector_size self) vocab_rows in
    self ← get;
    n ← lift (uniform rand_obj (bucket self) (vector_size self));
    modify (set_vectors_ngrams n).

(** Lines 1413-1441: [fb_vectors[:vocab_words, :]] and
    [fb_vectors[vocab_words:, :]] are the first [vocab_words] rows and the
    rest. *)
Definition init_post_load (fb_vectors : matrix)
  : meth FastTextKeyedVectors unit :=
  self ← get;
  let vocab_words := length (vocab self) in
  if negb (Z.of_nat (shape fb_vectors).1 =? Z.of_nat vocab_words + bucket self)
  then lift (Raise AssertionError)
  else if negb ((shape fb_vectors).2 =? vector_size self)%nat
  then lift (Raise AssertionError)
  else
    modify (set_vectors_vocab
              {| rows := take vocab_words (rows fb_vectors);
                 columns := columns fb_vectors |}) ;;
    modify (set_vectors_ngrams
              {| rows := drop vocab_words (rows fb_vectors);
                 columns := columns fb_vectors |}) ;;
    modify (set_buckets_word None) ;;
    adjust_vectors.

End keyedvectors.

(** Lines 916-921; [one] is the float32 [1.0], and [new_arr[:len(m)] = m]
    replaces the first [len(m)] entries. *)
Definition _pad_ones {A} (one : A) (m : list A) (new_len : Z) : res (list A) :=
  if negb (Z.of_nat (length m) <=? new_len) then Raise AssertionError
  else
    let new_arr := replicate (Z.to_nat new_len) one in
    Ok (m ++ drop (length m) new_arr).

(** *** [class FastText]: the methods that size the matrices and estimate
    their memory *)

Module model.
Section model.
Context `{NumpyRandom} `{FastTextInner}.

(** The float32 type [REAL] of the lock factors, of which only the value
    [1.0] is needed. *)
Context {real : Type} (one : real).

(** The attributes of a model that the methods below read or write. The
    lock factors are attributes of [wv]; they are kept beside it, and are
    1-D arrays. [syn1] and [syn1neg] are [None] while the attribute is
    missing or [None]. *)
Record FastText := {
  wv : FastTextKeyedVectors;
  vectors_vocab_lockf : list real;
  vectors_ngrams_lockf : list real;
  vector_size : Z;
  layer1_size : Z;
  hs : Z;
  negative : Z;
  word_ngrams : Z;
  bucket : Z;
  seed : Z;
  old_vocab_len : Z;
  syn1 : option matrix;
  syn1neg : option matrix;
  nwords : Z;
  vocab_size : Z;
}.

Definition set_wv (kv : FastTextKeyedVectors) (m : FastText) : FastText :=
  {| wv := kv; vectors_vocab_lockf := vectors_vocab_lockf m;
     vectors_ngrams_lockf := vectors_ngrams_lockf m;
     vector_size := vector_size m; layer1_size := layer1_size m; hs := hs m;
     negative := negative m; word_ngrams := word_ngrams m; bucket := bucket m;
     seed := seed m; old_vocab_len := old_vocab_len m; syn1 := syn1 m;
     syn1neg := syn1neg m; nwords := nwords m; vocab_size := vocab_size m |}.

Definition set_vectors_vocab_lockf (l : list real) (m : FastText) : FastText :=
  {| wv := wv m; vectors_vocab_lockf := l;
     vectors_ngrams_lockf := vectors_ngrams_lockf m;
     vector_size := vector_size m; layer1_size := layer1_size m; hs := hs m;
     negative := negative m; word_ngrams := word_ngrams m; bucket := bucket m;
     seed := seed m; old_vocab_len := old_vocab_len m; syn1 := syn1 m;
     syn1neg := syn1neg m; nwords := nwords m; vocab_size := vocab_size m |}.

Definition set_vectors_ngrams_lockf (l : list real) (m : FastText) : FastText :=
  {| wv := wv m; vectors_vocab_lockf := vectors_vocab_lockf m;
     vectors_ngrams_lockf := l;
     vector_size := vector_size m; layer1_size := layer1_size m; hs := hs m;
     negative := negative m; word_ngrams := word_ngrams m; bucket := bucket m;
     seed := seed m; old_vocab_len := old_vocab_len m; syn1 := syn1 m;
     syn1neg := syn1neg m; nwords := nwords m; vocab_size := vocab_size m |}.

Definition set_syn1 (h : option matrix) (m : FastText) : FastText :=
  {| wv := wv m; vectors_vocab_lockf := vectors_vocab_lockf m;
     vectors_ngrams_lockf := vectors_ngrams_lockf m;
     vector_size := vector_size m; layer1_size := layer1_size m; hs := hs m;
     negative := negative m; word_ngrams := word_ngrams m; bucket := bucket m;
     seed := seed m; old_vocab_len := old_vocab_len m; syn1 := h;
     syn1neg := syn1neg m; nwords := nwords m; vocab_size := vocab_size m |}.

Definition set_syn1neg (h : option matrix) (m : FastText) : FastText :=
  {| wv := wv m; vectors_vocab_lockf := vectors_vocab_lockf m;
     vectors_ngrams_lockf := vectors_ngrams_lockf m;
     vector_size := vector_size m; layer1_size := layer1_size m; hs := hs m;
     negative := negative m; word_ngrams := word_ngrams m; bucket := bucket m;
     seed := seed m; old_vocab_len := old_vocab_len m; syn1 := syn1 m;
     syn1neg := h; nwords := nwords m; vocab_size := vocab_size m |}.

Definition set_layer1_size (n : Z) (m : FastText) : FastText :=
  {| wv := wv m; vectors_vocab_lockf := vectors_vocab_lockf m;
     vectors_ngrams_lockf := vectors_ngrams_lockf m;
     vector_size := vector_size m; layer1_size := n; hs := hs m;
     negative := negative m; word_ngrams := word_ngrams m; bucket := bucket m;
     seed := seed m; old_vocab_len := old_vocab_len m; syn1 := syn1 m;
     syn1neg := syn1neg m; nwords := nwords m; vocab_size := vocab_size m |}.

(** A method of [self.wv], called from a method of the model. *)
Definition on_wv {A} (m : meth FastTextKeyedVectors A) : meth FastText A :=
  λ self, let '(r, kv) := m (wv self) in (r, set_wv kv self).

(** [len(a)] of a matrix. *)
Definition len (a : matrix) : nat := length (rows a).

(** [super(FastText, self).prepare_weights(update=update)], of the base
    class [Word2Vec]: any method of the model. *)
Variable super_prepare_weights : bool → meth FastText unit.

(** Lines 481-498. *)
Definition prepare_weights (update : bool) : meth FastText unit :=
  super_prepare_weights update ;;
  if negb update then
    self ← get;
    on_wv (init_ngrams_weights (seed self)) ;;
    modify (λ self, set_vectors_vocab_lockf
                      (replicate (len (vectors_vocab (wv self))) one) self) ;;
    modify (λ self, set_vectors_ngrams_lockf
                      (replicate (len (vectors_ngrams (wv self))) one) self)
  else
    self ← get;
    on_wv (update_ngrams_weights (seed self) (old_vocab_len self)) ;;
    self ← get;
    l ← lift (_pad_ones one (vectors_vocab_lockf self)
                (Z.of_nat (len (vectors_vocab (wv self)))));
    modify (set_vectors_vocab_lockf l) ;;
    self ← get;
    l ← lift (_pad_ones one (vectors_ngrams_lockf self)
                (Z.of_nat (len (vectors_ngrams (wv self)))));
    modify (set_vectors_ngrams_lockf l).

(** Lines 500-516. [len(self.wv.vectors_vocab.shape)] is the number of
    dimensions of the matrix, which is 2; [hidden_output] is [None] when
    the hidden layer was not loaded. *)
Definition init_post_load (hidden_output : option matrix) : meth FastText unit :=
  self ← get;
  let num_vectors := len (vectors (wv self)) in
  let vocab_size := length (vocab (wv self)) in
  let vector_size := fasttext.vector_size (wv self) in
  if negb (0 <? num_vectors)%nat then lift (Raise AssertionError)
  else if negb (0 <? vocab_size)%nat then lift (Raise AssertionError)
  else
    modify (λ self, set_vectors_ngrams_lockf
                      (replicate (len (vectors_ngrams (wv self))) one) self) ;;
    modify (set_vectors_vocab_lockf (replicate 2 one)) ;;
    self ← get;
    (if hs self =? 0 then mret tt else modify (set_syn1 hidden_output)) ;;
    self ← get;
    (if negative self =? 0 then mret tt else modify (set_syn1neg hidden_output)) ;;
    modify (set_layer1_size (Z.of_nat vector_size)).

(** Lines 1111-1136. *)
Definition _check_model (m : FastText) : res unit :=
  if negb (fasttext.vector_size (wv m) =? (shape (vectors_ngrams (wv m))).2)%nat
  then Raise AssertionError
  else
    (match syn1neg m with
     | Some s =>
         if negb (fasttext.vector_size (wv m) =? (shape s).2)%nat
         then Raise AssertionError else Ok tt
     | None => Ok tt
     end) ;;
    if negb (Z.of_nat (length (vocab (wv m))) =? nwords m)
    then Raise AssertionError
    else if negb (Z.of_nat (length (vocab (wv m))) =? vocab_size m)
    then logger "warning" else Ok tt.

(** [np.dtype(np.float32).itemsize]. *)
Definition itemsize : Z := 4.

(** Lines 618-629: the loop over the words, which carries [num_ngrams]
    and the set [buckets]. *)
Definition count_buckets (self : FastText) : res (Z * list Z) :=
  foldM
    (λ (acc : Z * list Z) word,
       hashes ← ft_ngram_hashes word (min_n (wv self)) (max_n (wv self))
                  (bucket self) (compatible_hash (wv self));
       Ok (acc.1 + Z.of_nat (length hashes), set_update acc.2 hashes))
    (0, []) (vocab (wv self)).*1.

(** Lines 602-645. A report is a dict from names to byte counts; an
    absent or empty [report] is [{}], and an absent or zero [vocab_size]
    is the size of the vocabulary. *)
Definition estimate_memory (self : FastText) (vocab_size : option Z)
    (report : option (list (string * Z))) : res (list (string * Z)) :=
  let words := Z.of_nat (length (vocab (wv self))) in
  let vocab_size :=
    match vocab_size with
    | Some n => if n =? 0 then words else n
    | None => words
    end in
  let vec_size := vector_size self * itemsize in
  let l1_size := layer1_size self * itemsize in
  let report := default [] report in
  let report :=
    dict_set "vocab"%string (words * (if hs self =? 0 then 500 else 700)) report in
  let report := dict_set "syn0_vocab"%string (words * vec_size) report in
  let num_buckets := bucket self in
  let report :=
    if hs self =? 0 then report
    else dict_set "syn1"%string (words * l1_size) report in
  let report :=
    if negative self =? 0 then report
    else dict_set "syn1neg"%string (words * l1_size) report in
  '(report, num_buckets) ←
    (if (0 <? word_ngrams self) && negb (words =? 0) then
       '(num_ngrams, num_buckets) ←
         (if bucket self =? 0 then Ok (0, 0)
          else '(num_ngrams, buckets) ← count_buckets self;
               Ok (num_ngrams, Z.of_nat (length buckets)));
       let report :=
         dict_set "syn0_ngrams"%string (num_buckets * vec_size) report in
       let report :=
         dict_set "buckets_word"%string (48 * words + 8 * num_ngrams) report in
       Ok (report, num_buckets)
     else if 0 <? word_ngrams self then
       logger "warn" ;; Ok (report, num_buckets)
     else Ok (report, num_buckets));
  let report := dict_set "total"%string (foldr Z.add 0 report.*2) report in
  logger "info" ;;
  Ok report.

End model.
End model.

(** *** The rearrangement and the composite, as the specification
    states them *)

Section spec.
Context `{NumpyRandom}.

(** Step 4 of the specification's [unpack]: the pairs [(h, i)] with
    [h < i < originalPackedRowCount] or [i ≥ originalPackedRowCount],
    skipping [h == i]. *)
Definition spec_swaps (orig_rows : nat) (hash2index : list (nat * nat))
  : list (nat * nat) :=
  filter (λ hi, (hi.1 < hi.2 < orig_rows ∨ orig_rows ≤ hi.2) ∧ hi.1 ≠ hi.2)%nat
    hash2index.

(** The pairs the code swaps, in the order it swaps them. *)
Definition selected_swaps (orig_rows : nat) (hash2index : list (nat * nat))
  : list (nat * nat) :=
  internal_swaps orig_rows hash2index ++ external_swaps orig_rows hash2index.

(** The rows a list of swaps touches. *)
Definition touched (swap : list (nat * nat)) : list nat :=
  flat_map (λ hi, [hi.1; hi.2]) swap.

(** The intended result, "row [h] holds the vector originally stored at
    packed row [i]", is reached by swapping each selected pair once on the
    maps below: the swaps touch pairwise distinct rows, and every pair that
    is not swapped is the mirror image of one that is, or sits in its
    place already on a row no swap touches. *)
Definition swap_safe (orig_rows : nat) (hash2index : list (nat * nat)) : Prop :=
  let swap := selected_swaps orig_rows hash2index in
  NoDup (touched swap) ∧
  Forall (λ hi, hi ∈ swap ∨ (hi.2, hi.1) ∈ swap ∨
                (hi.1 = hi.2 ∧ hi.1 ∉ touched swap)) hash2index.

#[global] Instance swap_safe_dec (r : nat) (l : list (nat * nat)) :
  Decision (swap_safe r l).
Proof. unfold swap_safe. apply _. Defined.

(** The composite vector of section 3:
    [(VocabMatrix[i] + Σ BucketMatrix[b]) / (1 + |BucketsOfWord[i]|)], the
    sum taken from left to right. *)
Definition composite_row (own : vec) (bucket_rows : list vec) : vec :=
  vec_div (fold_left vec_add bucket_rows own)
          (1 + Z.of_nat (length bucket_rows)).

(** The average of rows: their sum, accumulated from the zero vector, over
    their number. *)
Definition average_row (d : nat) (bucket_rows : list vec) : vec :=
  vec_div (fold_left vec_add bucket_rows (np_zeros d))
          (Z.of_nat (length bucket_rows)).

End spec.

(** *** Implementations of the interfaces, for concrete inputs *)

(** Rows as terms that record how they were computed: two rows are equal
    only if they were computed alike. [Drawn s k c] is the [k]-th row of
    width [c] drawn after seeding with [s]. *)
Inductive row_term :=
| Given (id : nat)
| Zeros (n : nat)
| Plus (u v : row_term)
| Over (v : row_term) (n : Z)
| Unit (v : row_term)
| Drawn (seed : Z) (k : nat) (columns : nat).

#[global] Instance row_term_eq_dec : EqDecision row_term.
Proof. solve_decision. Defined.

#[local] Instance term_float32 : Float32 := {|
  vec := row_term;
  np_zeros := Zeros;
  vec_add := Plus;
  vec_div := Over;
  vec_unit := Unit;
|}.

#[local] Instance term_random : NumpyRandom := {|
  rng := Z * nat;
  np_random_seed s := (s, O);
  uniform_row g columns := (Drawn g.1 g.2 columns, (g.1, S g.2));
|}.

(** Lines 1650-1670. *)
Definition _MB_MASK : Z := 0xC0.
Definition _MB_START : Z := 0x80.

Definition _byte_to_int (b : Ascii.ascii) : Z := Z.of_N (Ascii.N_of_ascii b).

Definition _is_utf8_continue (b : Ascii.ascii) : bool :=
  Z.land (_byte_to_int b) _MB_MASK =? _MB_START.

(** The characters of a UTF-8 byte string: each byte that is not a
    continuation byte starts a character. The first component collects
    continuation bytes that no character precedes. *)
Fixpoint utf8_split (bytes : list Ascii.ascii) : list Ascii.ascii * list (list Ascii.ascii) :=
  match bytes with
  | [] => ([], [])
  | b :: rest =>
      let '(cont, chars) := utf8_split rest in
      if _is_utf8_continue b then (b :: cont, chars)
      else ([], (b :: cont) :: chars)
  end.

(** Every run of [n] consecutive elements, from left to right. *)
Fixpoint windows {A} (n : nat) (l : list A) : list (list A) :=
  match l with
  | [] => []
  | x :: l' =>
      (if decide (n ≤ length l)%nat then [take n l] else []) ++ windows n l'
  end.

(** Modelled from the spec: the ngram extraction of the compiled module
    [fasttext_inner], which is not among the sources. Section 4.1: bracket
    the word with [<] and [>], encode it to bytes, and extract every
    substring of [minN..maxN] characters that falls on character
    boundaries, by ascending length and then by start position. *)
Definition spec_ngrams (word : string) (min_n max_n : Z) : list string :=
  let bracketed := String.list_ascii_of_string ("<" +:+ word +:+ ">") in
  let chars := (utf8_split bracketed).2 in
  flat_map
    (λ n, map (λ w, String.string_of_list_ascii (concat w)) (windows n chars))
    (seq (Z.to_nat min_n) (Z.to_nat (max_n - min_n + 1))).

(** Modelled from the spec: the Compatible hash of section 4.1, 32-bit
    FNV-1a over the bytes of the ngram ([fasttext_inner.ft_hash_bytes] is
    not among the sources). *)
Definition spec_fnv1a (codes : list Z) : Z :=
  fold_left (λ h b, (Z.lxor h b * 16777619) mod 2 ^ 32) codes 2166136261.

Definition spec_hash_bytes (ngram : string) : Z :=
  spec_fnv1a (map _byte_to_int (String.list_ascii_of_string ngram)).

(** The code point of a UTF-8 character. *)
Definition utf8_code_point (char : list Ascii.ascii) : Z :=
  match map _byte_to_int char with
  | [] => 0
  | b :: cont =>
      let lead :=
        if b <? 0x80 then b
        else if b <? 0xE0 then Z.land b 0x1F
        else if b <? 0xF0 then Z.land b 0x0F
        else Z.land b 0x07 in
      fold_left (λ cp c, Z.lor (Z.shiftl cp 6) (Z.land c 0x3F)) cont lead
  end.

(** Modelled from the spec: the Legacy hash of section 4.1, of which the
    specification says only that it works on the decoded characters of the
    ngram instead of its bytes ([fasttext_inner.ft_hash_broken] is not
    among the sources). The same recurrence is folded over the code points. *)
Definition spec_hash_broken (ngram : string) : Z :=
  spec_fnv1a
    (map utf8_code_point (utf8_split (String.list_ascii_of_string ngram)).2).

#[local] Instance spec_inner : FastTextInner := {|
  compute_ngrams := spec_ngrams;
  compute_ngrams_bytes := spec_ngrams;
  ft_hash_broken := spec_hash_broken;
  ft_hash_bytes := spec_hash_bytes;
|}.

(** A base class whose vocabulary lookup reads the composite matrix at the
    word's index. *)
#[local] Instance term_base : KeyedVectors := {|
  super_get_vector kv word use_norm :=
    match dict_get word (vocab kv) with
    | Some v =>
        r ← getitem (rows (vectors kv)) (Z.of_nat (index v));
        Ok (if use_norm then Unit r else r)
    | None => Raise KeyError
    end;
|}.

(** A matrix of given rows, numbered from [first]. *)
Definition given_rows (first n columns : nat) : matrix :=
  {| rows := map Given (seq first n); columns := columns |}.

(** Two stores over the vocabulary [a], [cat]: one with five buckets, one
    without buckets whose composite matrix differs from [vectors_vocab]. *)
Definition example_vocab : list (string * Vocab) :=
  [("a"%string, {| index := 0; count := 3 |});
   ("cat"%string, {| index := 1; count := 2 |})].

Definition store5 : FastTextKeyedVectors :=
  {| vector_size := 1; vocab := example_vocab;
     index2key := ["a"; "cat"]%string;
     vectors := given_rows 100 2 1; vectors_vocab := given_rows 0 2 1;
     vectors_ngrams := given_rows 10 5 1; buckets_word := None;
     min_n := 3; max_n := 3; bucket := 5; compatible_hash := true |}.

Definition store0 : FastTextKeyedVectors :=
  {| vector_size := 1; vocab := example_vocab;
     index2key := ["a"; "cat"]%string;
     vectors := given_rows 100 2 1; vectors_vocab := given_rows 0 2 1;
     vectors_ngrams := given_rows 10 0 1; buckets_word := None;
     min_n := 3; max_n := 3; bucket := 0; compatible_hash := true |}.

(** A model around the store with five buckets, before the matrix of the
    vocabulary has grown from one row to two: integers stand for the lock
    factors, and the first word is locked with factor 7. *)
Definition example_model : model.FastText (real := Z) :=
  {| model.wv := set_vectors_vocab (given_rows 0 1 1) store5;
     model.vectors_vocab_lockf := [7];
     model.vectors_ngrams_lockf := [1; 1; 1; 1; 1];
     model.vector_size := 1; model.layer1_size := 1;
     model.hs := 0; model.negative := 5; model.word_ngrams := 1;
     model.bucket := 5; model.seed := 1; model.old_vocab_len := 1;
     model.syn1 := None; model.syn1neg := None;
     model.nwords := 2; model.vocab_size := 2 |}.

End fasttext.

(** * Verification *)

(** ** The monads *)

Section monad_facts.

Lemma bind_Ok {A B} (f : A → res B) (a : A) : (Ok a ≫= f) = f a.
Proof. reflexivity. Qed.

Lemma bind_Raise {A B} (f : A → res B) (e : exn) : (Raise e ≫= f) = Raise e.
Proof. reflexivity. Qed.

Lemma bind_Ok_inv {A B} (f : A → res B) (m : res A) (b : B) :
  (m ≫= f) = Ok b → ∃ a, m = Ok a ∧ f a = Ok b.
Proof. destruct m as [a|e]; [eauto | discriminate]. Qed.

Lemma meth_bind_Ok {S A B} (f : A → meth S B) (m : meth S A) s a s' :
  m s = (Ok a, s') → (m ≫= f) s = f a s'.
Proof. intros Hm. unfold mbind, meth_bind. by rewrite Hm. Qed.

Lemma meth_bind_Raise {S A B} (f : A → meth S B) (m : meth S A) s e s' :
  m s = (Raise e, s') → (m ≫= f) s = (Raise e, s').
Proof. intros Hm. unfold mbind, meth_bind. by rewrite Hm. Qed.

Lemma mapM_Ok_Forall2 {A B} (f : A → res B) (l : list A) (k : list B) :
  mapM f l = Ok k ↔ Forall2 (λ x y, f x = Ok y) l k.
Proof.
  revert k. induction l as [|x l IH]; intros k.
  - change (mapM f []) with (Ok (@nil B)).
    split; [intros [= <-]; constructor | by inversion 1].
  - change (mapM f (x :: l)) with (y ← f x; k ← mapM f l; Ok (y :: k)).
    split.
    + intros Hk. apply bind_Ok_inv in Hk as (y & Hy & Hk).
      apply bind_Ok_inv in Hk as (k' & Hk' & [= <-]).
      constructor; [done | by apply IH].
    + inversion 1 as [|? y ? k' Hy Hk']; subst.
      rewrite Hy. apply IH in Hk'. by rewrite Hk'.
Qed.

Lemma mapM_Raise_head {A B} (f : A → res B) (x : A) (l : list A) e :
  f x = Raise e → mapM f (x :: l) = Raise e.
Proof.
  intros Hx. change (mapM f (x :: l)) with (y ← f x; k ← mapM f l; Ok (y :: k)).
  by rewrite Hx.
Qed.

Lemma py_mod_pos (x n : Z) : 0 < n → ∃ r, py_mod x n = Ok r ∧ 0 ≤ r < n.
Proof.
  intros Hn. unfold py_mod. destruct (Z.eqb_spec n 0) as [->|_]; [lia|].
  eexists; split; [done|]. by apply Z.mod_pos_bound.
Qed.

Lemma getitem_in_range {A} (l : list A) (z : Z) :
  0 ≤ z < Z.of_nat (length l) →
  ∃ x, l !! Z.to_nat z = Some x ∧ getitem l z = Ok x.
Proof.
  intros Hz. unfold getitem.
  assert ((z <? 0) = false) as E1 by lia.
  assert ((Z.of_nat (length l) <=? z) = false) as E2 by lia.
  destruct (lookup_lt_is_Some_2 l (Z.to_nat z)) as [x Hx]; [lia|].
  exists x. cbv zeta. by rewrite !E1, E2, Hx.
Qed.

Lemma getitem_nat {A} (l : list A) (i : nat) (x : A) :
  l !! i = Some x → getitem l (Z.of_nat i) = Ok x.
Proof.
  intros Hx. pose proof (lookup_lt_Some _ _ _ Hx) as Hlt.
  destruct (getitem_in_range l (Z.of_nat i)) as (y & Hy & ->); [lia|].
  rewrite Nat2Z.id in Hy. congruence.
Qed.

End monad_facts.

(** Run the next statement of a method, given a proof of what it returns. *)
Tactic Notation "meth_step" tactic3(t) :=
  erewrite meth_bind_Ok; [|solve [t]].

(** ** Dicts *)

Section dict_facts.
Context {K V : Type} `{EqDecision K}.

Lemma dict_set_fresh (k : K) (v : V) (d : list (K * V)) :
  k ∉ d.*1 → dict_set k v d = d ++ [(k, v)].
Proof.
  induction d as [|[k' v'] d IH]; simpl; [done|].
  rewrite not_elem_of_cons. intros [Hne Hk].
  case_decide; [done|]. by rewrite IH.
Qed.

(** Filling a dict with items whose keys are new and pairwise distinct
    appends them in order. *)
Lemma dict_update_fresh (d items : list (K * V)) :
  NoDup (d ++ items).*1 → dict_update d items = d ++ items.
Proof.
  unfold dict_update. revert d.
  induction items as [|[k v] items IH]; intros d Hnd; simpl.
  - by rewrite app_nil_r.
  - rewrite dict_set_fresh.
    + rewrite IH; rewrite <- app_assoc; done.
    + rewrite fmap_app in Hnd. apply NoDup_app in Hnd as (_ & Hd & _).
      intros Hk. apply (Hd k Hk). simpl. left.
Qed.

Lemma dict_get_Some_elem (k : K) (v : V) (d : list (K * V)) :
  dict_get k d = Some v → (k, v) ∈ d.
Proof.
  induction d as [|[k' v'] d IH]; simpl; [done|].
  case_decide; [intros [= ->]; subst; left | right; auto].
Qed.

Lemma dict_get_elem (k : K) (v : V) (d : list (K * V)) :
  NoDup d.*1 → (k, v) ∈ d → dict_get k d = Some v.
Proof.
  induction d as [|[k' v'] d IH]; simpl; [by inversion 2|].
  rewrite NoDup_cons. intros [Hk' Hnd] Hin.
  apply elem_of_cons in Hin as [[= -> ->]|Hin].
  - by rewrite decide_True.
  - rewrite decide_False; [by apply IH|].
    intros ->. apply Hk'. by apply (list_elem_of_fmap_2 fst) in Hin.
Qed.

End dict_facts.

(** ** The ngram hasher and the lookups of the store *)

Module FastTextSpec.
Import fasttext.

Section hasher.
Context `{FastTextInner}.

Lemma mapM_py_mod_zero {A} (hash : A → Z) (l : list A) :
  mapM (λ n, py_mod (hash n) 0) l =
  match l with [] => Ok [] | _ :: _ => Raise ZeroDivisionError end.
Proof. destruct l as [|x l]; [done|]. by apply mapM_Raise_head. Qed.

Lemma mapM_py_mod_nonzero {A} (hash : A → Z) (b : Z) (l : list A) :
  b ≠ 0 → mapM (λ n, py_mod (hash n) b) l = Ok (map (λ n, hash n mod b) l).
Proof.
  intros Hb. apply mapM_Ok_Forall2. induction l as [|x l IH]; simpl.
  - constructor.
  - constructor; [|done]. unfold py_mod.
    by destruct (Z.eqb_spec b 0).
Qed.

(** With a bucket count other than zero the hasher returns one bucket
    index per ngram. *)
Lemma ft_ngram_hashes_nonzero (word : string) (minn maxn b : Z) (c : bool) :
  b ≠ 0 →
  ft_ngram_hashes word minn maxn b c =
  Ok (map (λ n, (if c then ft_hash_bytes n else ft_hash_broken n) mod b)
          (ngrams_of word minn maxn c)).
Proof.
  intros Hb. unfold ft_ngram_hashes, ngrams_of.
  destruct c; by apply mapM_py_mod_nonzero.
Qed.

Lemma ft_ngram_hashes_range (word : string) (minn maxn b : Z) (c : bool) hs :
  0 < b → ft_ngram_hashes word minn maxn b c = Ok hs →
  Forall (λ h, 0 ≤ h < b) hs.
Proof.
  intros Hb. rewrite ft_ngram_hashes_nonzero by lia. intros [= <-].
  induction (ngrams_of word minn maxn c) as [|n l IH]; simpl; constructor;
    [by apply Z.mod_pos_bound | done].
Qed.

Lemma dict_of_items_empty_lists {A} (l : list (nat * list A)) (d : list (nat * list A)) :
  Forall (λ il, il.2 = []) l → Forall (λ il, il.2 = []) d →
  Forall (λ il, il.2 = []) (dict_update d l).
Proof.
  unfold dict_update. revert d. induction l as [|[i x] l IH]; intros d Hl Hd; [done|].
  simpl. inversion_clear Hl as [|?? Hx Hl']. simpl in Hx. subst x.
  apply IH; [done|]. clear -Hd.
  induction d as [|[j y] d IH]; simpl.
  - by repeat constructor.
  - inversion_clear Hd as [|?? Hy Hd']. case_decide; constructor; auto.
Qed.


End hasher.


Section store.
Context `{NumpyRandom} `{FastTextInner} `{!KeyedVectors}.

Lemma dict_mem_None {V} (d : list (string * V)) (w : string) :
  dict_get w d = None → dict_mem w d = false.
Proof.
  intros Hw. unfold dict_mem. rewrite Hw.
  apply bool_decide_eq_false. by intros [? [=]].
Qed.

(** The accumulation loop of [get_vector] adds the selected rows from left
    to right. *)
Lemma add_ngram_rows_fold (m : matrix) (acc : vec) (hs : list Z) (brows : list vec) :
  Forall2 (λ nh row, getitem (rows m) nh = Ok row) hs brows →
  add_ngram_rows m acc hs = Ok (fold_left vec_add brows acc).
Proof.
  intros Hall. revert acc.
  induction Hall as [|nh row hs brows Hrow _ IH]; intros acc; [done|].
  unfold add_ngram_rows in *. simpl. rewrite Hrow. simpl. apply IH.
Qed.

(** Bucket indices below the row count select rows. *)
Lemma bucket_rows_exist (l : list vec) (b : Z) (hs : list Z) :
  length l = Z.to_nat b → Forall (λ h, 0 ≤ h < b) hs →
  ∃ brows, Forall2 (λ nh row, l !! Z.to_nat nh = Some row ∧ getitem l nh = Ok row)
                   hs brows.
Proof.
  intros Hlen. induction 1 as [|h hs Hh _ [brows IH]].
  - exists []. constructor.
  - destruct (getitem_in_range l h) as (row & Hrow & Hget); [lia|].
    exists (row :: brows). by constructor.
Qed.

(** C9: the membership test answers [True] for every word and every
    store, also for a word absent from the vocabulary of a store without
    buckets, whose lookup raises [KeyError]. *)
Theorem contains_always_true (self : FastTextKeyedVectors) (word : string) :
  __contains__ self word = true ∧
  (dict_get word (vocab self) = None → bucket self = 0 →
   ∀ use_norm, get_vector self word use_norm = Raise KeyError ∧
               __contains__ self word = true).
Proof.
  split; [done|]. intros Hw Hb use_norm. split; [|done].
  unfold get_vector. by rewrite (dict_mem_None _ _ Hw), Hb.
Qed.

(** C5: for a word absent from the vocabulary, [get_vector] raises
    [KeyError] when the bucket count is zero; with a positive bucket count
    and one row per bucket it returns the zero vector when the word has no
    ngram hashes, and otherwise the average of the bucket rows its hashes
    select (divided by its norm when [use_norm] is set). *)
Theorem get_vector_oov (self : FastTextKeyedVectors) (word : string)
    (use_norm : bool) :
  dict_get word (vocab self) = None →
  (bucket self = 0 → get_vector self word use_norm = Raise KeyError) ∧
  (0 < bucket self →
   length (rows (vectors_ngrams self)) = Z.to_nat (bucket self) →
   ∃ ngram_hashes bucket_rows,
     ft_ngram_hashes word (min_n self) (max_n self) (bucket self)
       (compatible_hash self) = Ok ngram_hashes ∧
     Forall2 (λ nh row, rows (vectors_ngrams self) !! Z.to_nat nh = Some row)
       ngram_hashes bucket_rows ∧
     get_vector self word use_norm =
       Ok (match ngram_hashes with
           | [] => np_zeros (columns (vectors_ngrams self))
           | _ :: _ =>
               let mean := average_row (columns (vectors_ngrams self))
                             bucket_rows in
               if use_norm then vec_unit mean else mean
           end)).
Proof.
  intros Hw. split.
  - intros Hb. unfold get_vector. by rewrite (dict_mem_None _ _ Hw), Hb.
  - intros Hb Hlen.
    destruct (ft_ngram_hashes word (min_n self) (max_n self) (bucket self)
                (compatible_hash self)) as [hs|e] eqn:Hhs.
    2: { rewrite ft_ngram_hashes_nonzero in Hhs by lia. discriminate. }
    pose proof (ft_ngram_hashes_range _ _ _ _ _ _ Hb Hhs) as Hrange.
    destruct (bucket_rows_exist _ _ _ Hlen Hrange) as [brows Hrows].
    exists hs, brows. split; [done|]. split.
    { eapply Forall2_impl; [exact Hrows|]. by intros ?? [? _]. }
    unfold get_vector. rewrite (dict_mem_None _ _ Hw).
    destruct (Z.eqb_spec (bucket self) 0) as [?|_]; [lia|].
    rewrite Hhs. simpl.
    destruct hs as [|h hs]; [done|].
    change (length (h :: hs) =? 0)%nat with false. cbv iota.
    rewrite (add_ngram_rows_fold _ _ _ brows).
    2: { eapply Forall2_impl; [exact Hrows|]. by intros ?? [_ ?]. }
    simpl. unfold average_row.
    rewrite <- (Forall2_length _ _ _ Hrows).
    by destruct use_norm.
Qed.

(** *** [update_ngrams_weights] *)

Lemma length_uniform_rows (g : rng) (c n : nat) :
  length (uniform_rows g c n) = n.
Proof.
  revert g. induction n as [|n IH]; intros g; simpl; [done|].
  destruct (uniform_row g c) as [r g']. simpl. by rewrite IH.
Qed.

(** [_pad_random] keeps the rows of [m] and appends [new_rows] rows. *)
Lemma _pad_random_Ok (m : matrix) (new_rows : Z) (g : rng) :
  columns m ≠ 0%nat → 0 ≤ new_rows →
  ∃ suffix, _pad_random m new_rows g =
              Ok {| rows := rows m ++ suffix; columns := columns m |} ∧
            length suffix = Z.to_nat new_rows.
Proof.
  intros Hc Hn. unfold _pad_random, shape, uniform, vstack.
  destruct (Nat.eqb_spec (columns m) 0) as [?|_]; [done|].
  destruct (Z.ltb_spec new_rows 0) as [?|_]; [lia|].
  eexists. split; [reflexivity|]. apply length_uniform_rows.
Qed.

Lemma _pad_random_inv (m m' : matrix) (new_rows : Z) (g : rng) :
  _pad_random m new_rows g = Ok m' →
  columns m ≠ 0%nat ∧ 0 ≤ new_rows ∧ columns m' = columns m ∧
  ∃ suffix, rows m' = rows m ++ suffix ∧ length suffix = Z.to_nat new_rows.
Proof.
  unfold _pad_random, shape, uniform, vstack.
  destruct (Nat.eqb_spec (columns m) 0) as [?|?]; [done|].
  destruct (Z.ltb_spec new_rows 0) as [?|?]; [done|].
  intros [= <-]. simpl. repeat split; [done..|].
  eexists. split; [reflexivity|]. apply length_uniform_rows.
Qed.

(** [_process_fasttext_vocab] never raises: it hashes only when the
    bucket count is not zero. *)
Lemma _process_fasttext_vocab_total (iterable : list (string * Vocab))
    (minn maxn b : Z) (c : bool) :
  ∃ word_indices, _process_fasttext_vocab iterable minn maxn b c = Ok word_indices.
Proof.
  unfold _process_fasttext_vocab. destruct (Z.eqb_spec b 0) as [?|Hb]; [eauto|].
  generalize (@nil (nat * list Z)).
  induction iterable as [|wv l IH]; intros acc; simpl; [eauto|].
  rewrite ft_ngram_hashes_nonzero by done. simpl. apply IH.
Qed.



(** *** [adjust_vectors] *)

Lemma set_vectors_id (s : FastTextKeyedVectors) (m : matrix) :
  m = vectors s → set_vectors m s = s.
Proof. intros ->. by destruct s. Qed.

Lemma set_vectors_twice (s : FastTextKeyedVectors) (m m' : matrix) :
  set_vectors m (set_vectors m' s) = set_vectors m s.
Proof. done. Qed.

Lemma set_vectors_row_Ok (s : FastTextKeyedVectors) (i : nat) (v x : vec) :
  rows (vectors s) !! i = Some v →
  set_vectors_row i x s =
  (Ok tt, set_vectors {| rows := <[i := x]> (rows (vectors s));
                         columns := columns (vectors s) |} s).
Proof.
  intros Hv. unfold set_vectors_row, setitem, mbind, meth_bind, get, lift, modify.
  apply lookup_lt_Some in Hv. by case_decide.
Qed.

(** Lines 1457-1458: the inner loop adds the bucket rows to row [i]. *)
Lemma add_bucket_rows_loop (N : matrix) (i : nat) (hs : list Z) (brows : list vec) :
  Forall2 (λ nh row, getitem (rows N) nh = Ok row) hs brows →
  ∀ (s : FastTextKeyedVectors) (v : vec),
    vectors_ngrams s = N → rows (vectors s) !! i = Some v →
    for_each hs
      (λ nh, self ← get;
             v ← lift (getitem (rows (vectors self)) (Z.of_nat i));
             row ← lift (getitem (rows (vectors_ngrams self)) nh);
             set_vectors_row i (vec_add v row)) s =
    (Ok tt, set_vectors {| rows := <[i := fold_left vec_add brows v]> (rows (vectors s));
                           columns := columns (vectors s) |} s).
Proof.
  induction 1 as [|nh row hs brows Hrow _ IH]; intros s v HN Hv.
  - simpl. unfold mret, meth_ret. f_equal. symmetry. apply set_vectors_id.
    rewrite list_insert_id by done. by destruct (vectors s).
  - cbn [for_each fold_left].
    erewrite meth_bind_Ok; last first.
    { unfold mbind, meth_bind, get, lift.
      rewrite (getitem_nat _ _ _ Hv), HN, Hrow.
      by apply set_vectors_row_Ok with (v := v). }
    rewrite (IH _ (vec_add v row)); simpl; [|done|].
    + by rewrite list_insert_insert_eq.
    + apply list_lookup_insert_eq. by apply lookup_lt_Some in Hv.
Qed.

(** One iteration of the outer loop replaces row [i] by its composite. *)
Lemma adjust_row_Ok (s : FastTextKeyedVectors) (i : nat) (w : string) (own : vec) :
  0 < bucket s →
  length (rows (vectors_ngrams s)) = Z.to_nat (bucket s) →
  rows (vectors s) !! i = Some own →
  ∃ hs brows,
    ft_ngram_hashes w (min_n s) (max_n s) (bucket s) (compatible_hash s) = Ok hs ∧
    Forall2 (λ nh row, rows (vectors_ngrams s) !! Z.to_nat nh = Some row) hs brows ∧
    adjust_row (i, w) s =
    (Ok tt, set_vectors {| rows := <[i := composite_row own brows]> (rows (vectors s));
                           columns := columns (vectors s) |} s).
Proof.
  intros Hb Hlen Hown.
  destruct (ft_ngram_hashes w (min_n s) (max_n s) (bucket s) (compatible_hash s))
    as [hs|e] eqn:Hhs.
  2: { rewrite ft_ngram_hashes_nonzero in Hhs by lia. discriminate. }
  pose proof (ft_ngram_hashes_range _ _ _ _ _ _ Hb Hhs) as Hrange.
  destruct (bucket_rows_exist _ _ _ Hlen Hrange) as [brows Hrows].
  exists hs, brows. split; [done|]. split.
  { eapply Forall2_impl; [exact Hrows|]. by intros ?? [? _]. }
  unfold adjust_row. cbn [fst snd].
  meth_step reflexivity.
  meth_step (unfold lift; by rewrite Hhs).
  erewrite meth_bind_Ok; last first.
  { apply (add_bucket_rows_loop (vectors_ngrams s) i hs brows) with (v := own);
      [|done..].
    eapply Forall2_impl; [exact Hrows|]. by intros ?? [_ ?]. }
  set (s1 := set_vectors _ s).
  assert (rows (vectors s1) !! i = Some (fold_left vec_add brows own)) as Hs1.
  { subst s1. simpl. apply list_lookup_insert_eq. by apply lookup_lt_Some in Hown. }
  meth_step reflexivity.
  meth_step (unfold lift; by rewrite (getitem_nat _ _ _ Hs1)).
  rewrite (set_vectors_row_Ok _ _ _ _ Hs1). subst s1. simpl.
  rewrite list_insert_insert_eq. unfold composite_row.
  rewrite (Forall2_length _ _ _ Hrows), set_vectors_twice.
  by rewrite (Z.add_comm _ 1).
Qed.

(** Lines 1455-1459: the loop over the words numbered from [k]. *)
Lemma adjust_rows_loop (l : list string) :
  ∀ (k : nat) (s : FastTextKeyedVectors),
    0 < bucket s →
    length (rows (vectors_ngrams s)) = Z.to_nat (bucket s) →
    (k + length l ≤ length (rows (vectors s)))%nat →
    ∃ R',
      for_each (zip (seq k (length l)) l) adjust_row s =
      (Ok tt, set_vectors {| rows := R'; columns := columns (vectors s) |} s) ∧
      length R' = length (rows (vectors s)) ∧
      (∀ j, (j < k)%nat → R' !! j = rows (vectors s) !! j) ∧
      (∀ j w own, l !! j = Some w → rows (vectors s) !! (k + j)%nat = Some own →
         ∃ hs brows,
           ft_ngram_hashes w (min_n s) (max_n s) (bucket s) (compatible_hash s)
             = Ok hs ∧
           Forall2 (λ nh row, rows (vectors_ngrams s) !! Z.to_nat nh = Some row)
             hs brows ∧
           R' !! (k + j)%nat = Some (composite_row own brows)).
Proof.
  induction l as [|w l IH]; intros k s Hb Hlen Hk.
  - exists (rows (vectors s)). split.
    { simpl. unfold mret, meth_ret. f_equal. symmetry. apply set_vectors_id.
      by destruct (vectors s). }
    by repeat split.
  - simpl in Hk.
    destruct (lookup_lt_is_Some_2 (rows (vectors s)) k) as [own Hown]; [lia|].
    destruct (adjust_row_Ok s k w own Hb Hlen Hown) as (hs & brows & Hhs & Hrows & Hrow).
    set (s1 := set_vectors _ s) in Hrow.
    destruct (IH (S k) s1) as (R' & Hloop & HlenR & Hbefore & Hafter).
    { done. } { done. }
    { subst s1. simpl. rewrite length_insert. lia. }
    exists R'. split.
    { cbn [length seq zip zip_with for_each].
      meth_step exact Hrow. by rewrite Hloop. }
    split. { rewrite HlenR. subst s1. simpl. by rewrite length_insert. }
    split.
    { intros j Hj. rewrite Hbefore by lia. subst s1. simpl.
      apply list_lookup_insert_ne. lia. }
    intros j w' own' Hw' Hown'. destruct j as [|j].
    + rewrite Nat.add_0_r in *. simpl in Hw'. simplify_eq.
      exists hs, brows. split; [done|]. split; [done|].
      rewrite Hbefore by lia. subst s1. simpl.
      apply list_lookup_insert_eq. by apply lookup_lt_Some in Hown.
    + simpl in Hw'. replace (k + S j)%nat with (S k + j)%nat in * by lia.
      apply (Hafter j w' own' Hw'). subst s1. simpl.
      rewrite list_lookup_insert_ne by lia. done.
Qed.


End store.

(** ** Undoing the packed layout *)


Section unpack.
Context `{NumpyRandom}.

Lemma internal_swaps_elem (r : nat) (l : list (nat * nat)) hi :
  hi ∈ internal_swaps r l ↔ (hi.1 < hi.2 < r)%nat ∧ hi ∈ l.
Proof. unfold internal_swaps. by rewrite list_elem_of_filter. Qed.

Lemma external_swaps_elem (r : nat) (l : list (nat * nat)) hi :
  hi ∈ external_swaps r l ↔ (r ≤ hi.1)%nat ∧ hi ∈ l.
Proof. unfold external_swaps. by rewrite list_elem_of_filter. Qed.

Lemma selected_swaps_elem (r : nat) (l : list (nat * nat)) hi :
  hi ∈ selected_swaps r l ↔ ((hi.1 < hi.2 < r)%nat ∨ (r ≤ hi.1)%nat) ∧ hi ∈ l.
Proof.
  unfold selected_swaps.
  rewrite elem_of_app, internal_swaps_elem, external_swaps_elem. tauto.
Qed.

Lemma filter_keys_NoDup (P : nat * nat → Prop) `{∀ x, Decision (P x)}
    (l : list (nat * nat)) :
  NoDup l.*1 → NoDup (filter P l).*1.
Proof.
  intros Hnd. eapply sublist_NoDup; [exact Hnd|].
  apply fmap_sublist, sublist_filter.
Qed.

Lemma selected_swaps_keys_NoDup (r : nat) (l : list (nat * nat)) :
  NoDup l.*1 → NoDup (selected_swaps r l).*1.
Proof.
  intros Hnd. unfold selected_swaps. rewrite fmap_app. apply NoDup_app.
  split; [by apply filter_keys_NoDup|]. split; [|by apply filter_keys_NoDup].
  intros h Hin Hex.
  apply list_elem_of_fmap in Hin as ([h1 i1] & -> & Hin).
  apply list_elem_of_fmap in Hex as ([h2 i2] & Heq & Hex).
  apply internal_swaps_elem in Hin as [Hin _].
  apply external_swaps_elem in Hex as [Hex _]. simpl in *. lia.
Qed.

(** With distinct hashes, the dict [swap] lists the internal pairs and
    then the external ones, each pair of the map at most once. *)
Lemma swap_dict_items (r : nat) (l : list (nat * nat)) :
  NoDup l.*1 →
  dict_update (dict_of_items (internal_swaps r l)) (external_swaps r l) =
  selected_swaps r l.
Proof.
  intros Hnd. unfold dict_of_items.
  rewrite (dict_update_fresh []); simpl.
  - apply dict_update_fresh. by apply selected_swaps_keys_NoDup.
  - by apply filter_keys_NoDup.
Qed.


Lemma touched_elem (swap : list (nat * nat)) (k : nat) :
  k ∈ touched swap ↔ ∃ hi, hi ∈ swap ∧ (k = hi.1 ∨ k = hi.2).
Proof.
  unfold touched. induction swap as [|[h i] swap IH]; simpl.
  - split; [by inversion 1 | intros (? & Hin & _); by inversion Hin].
  - rewrite !elem_of_cons, IH. split.
    + intros [->|[->|(hi & Hin & Hk)]].
      * exists (h, i). split; [left | by left].
      * exists (h, i). split; [left | by right].
      * exists hi. split; [by right | done].
    + intros (hi & Hin & Hk). apply elem_of_cons in Hin as [->|Hin].
      * simpl in Hk. tauto.
      * right; right. by exists hi.
Qed.

Lemma swap_rows_Ok (h i : nat) (m : list vec) :
  (h < length m)%nat → (i < length m)%nat →
  ∃ rh ri, m !! h = Some rh ∧ m !! i = Some ri ∧
           swap_rows h i m = Ok (<[i := rh]> (<[h := ri]> m)).
Proof.
  intros Hh Hi.
  destruct (lookup_lt_is_Some_2 m h Hh) as [rh Hrh].
  destruct (lookup_lt_is_Some_2 m i Hi) as [ri Hri].
  exists rh, ri. unfold swap_rows. by rewrite Hrh, Hri.
Qed.

(** Swaps that touch pairwise distinct rows exchange exactly those rows. *)
Lemma swap_all_disjoint (swap : list (nat * nat)) :
  ∀ m : list vec,
    NoDup (touched swap) →
    Forall (λ hi, (hi.1 < length m)%nat ∧ (hi.2 < length m)%nat) swap →
    ∃ m', swap_all swap m = Ok m' ∧ length m' = length m ∧
          (∀ hi, hi ∈ swap → m' !! hi.1 = m !! hi.2 ∧ m' !! hi.2 = m !! hi.1) ∧
          (∀ k, k ∉ touched swap → m' !! k = m !! k).
Proof.
  induction swap as [|[h i] swap IH]; intros m Hnd Hrange.
  - exists m. split; [done|]. split; [done|]. split; [by inversion 1 | done].
  - change (touched ((h, i) :: swap)) with (h :: i :: touched swap) in *.
    apply NoDup_cons in Hnd as [Hh Hnd]. apply NoDup_cons in Hnd as [Hi Hnd].
    apply not_elem_of_cons in Hh as [Hhi Hh].
    apply Forall_cons in Hrange as [[Hhm Him] Hrange]. simpl in Hhm, Him.
    destruct (swap_rows_Ok h i m Hhm Him) as (rh & ri & Hrh & Hri & Hswap).
    set (m1 := <[i := rh]> (<[h := ri]> m)) in *.
    assert (length m1 = length m) as Hlen1.
    { subst m1. by rewrite !length_insert. }
    destruct (IH m1 Hnd) as (m' & Hall & Hlen & Hpairs & Hrest).
    { by rewrite Hlen1. }
    assert (m1 !! h = m !! i) as H1h.
    { subst m1. rewrite list_lookup_insert_ne by done.
      by rewrite list_lookup_insert_eq, Hri. }
    assert (m1 !! i = m !! h) as H1i.
    { subst m1. rewrite list_lookup_insert_eq, Hrh; [done|].
      by rewrite length_insert. }
    assert (∀ k, k ≠ h → k ≠ i → m1 !! k = m !! k) as H1k.
    { intros k ??. subst m1. by rewrite !list_lookup_insert_ne. }
    exists m'. split; [|split; [congruence|split]].
    + unfold swap_all in *. cbn [foldM fst snd].
      rewrite decide_False by done. by rewrite Hswap.
    + intros hi Hin. apply elem_of_cons in Hin as [->|Hin]; simpl.
      * by rewrite !Hrest, H1h, H1i.
      * destruct (Hpairs hi Hin) as [E1 E2].
        assert (hi.1 ∈ touched swap ∧ hi.2 ∈ touched swap) as [Ht1 Ht2].
        { split; apply touched_elem; exists hi; auto. }
        rewrite E1, E2, !H1k; [done|congruence..].
    + intros k Hk. apply not_elem_of_cons in Hk as [? Hk].
      apply not_elem_of_cons in Hk as [? Hk].
      rewrite Hrest by done. by apply H1k.
Qed.

(** The order of such swaps does not matter. *)
Lemma swap_all_Permutation (swap swap' : list (nat * nat)) (m : list vec) :
  swap' ≡ₚ swap →
  NoDup (touched swap) →
  Forall (λ hi, (hi.1 < length m)%nat ∧ (hi.2 < length m)%nat) swap →
  swap_all swap' m = swap_all swap m.
Proof.
  intros Hperm Hnd Hrange.
  assert (touched swap' ≡ₚ touched swap) as Htouched.
  { unfold touched. by apply Permutation_flat_map. }
  destruct (swap_all_disjoint swap m Hnd Hrange) as (m1 & -> & Hlen1 & Hp1 & Hr1).
  destruct (swap_all_disjoint swap' m) as (m2 & -> & Hlen2 & Hp2 & Hr2).
  { by rewrite Htouched. } { by rewrite Hperm. }
  f_equal. apply list_eq. intros k.
  destruct (decide (k ∈ touched swap)) as [Hk|Hk].
  - apply touched_elem in Hk as (hi & Hin & Hk).
    assert (hi ∈ swap') as Hin' by by rewrite Hperm.
    destruct (Hp1 hi Hin) as [E1 E2], (Hp2 hi Hin') as [E1' E2'].
    destruct Hk as [->| ->]; congruence.
  - rewrite Hr1 by done. apply Hr2. by rewrite Htouched.
Qed.

(** What [_unpack] computes on a matrix that has to grow: the padded
    matrix with the selected pairs swapped, each once, in order. *)
Lemma _unpack_unfold (m : matrix) (num_rows : Z) (hash2index : list (nat * nat))
    (seed : Z) :
  Z.of_nat (length (rows m)) < num_rows →
  NoDup hash2index.*1 →
  _unpack m num_rows hash2index seed =
  (padded ← _pad_random m (num_rows - Z.of_nat (length (rows m)))
              (np_random_seed seed);
   rows' ← swap_all (selected_swaps (length (rows m)) hash2index) (rows padded);
   Ok {| rows := rows'; columns := columns padded |}).
Proof.
  intros Hlt Hnd. unfold _unpack, shape.
  destruct (Z.eqb_spec (Z.of_nat (length (rows m))) num_rows) as [?|_]; [lia|].
  destruct (Z.ltb_spec (Z.of_nat (length (rows m))) num_rows) as [_|?]; [|lia].
  simpl. by rewrite swap_dict_items.
Qed.



(** The copying loop of [_unpack_copy] puts packed row [i] at row [h] for
    every pair of the map. *)
Lemma copy_loop (m : list vec) (hash2index : list (nat * nat)) :
  ∀ n : list vec,
    NoDup hash2index.*1 →
    Forall (λ hi, (hi.1 < length n)%nat ∧ (hi.2 < length m)%nat) hash2index →
    ∃ n', foldM (λ n (sd : nat * nat),
                   match m !! sd.2 with
                   | Some r => setitem n sd.1 r
                   | None => Raise IndexError
                   end) n hash2index = Ok n' ∧
          length n' = length n ∧
          Forall (λ hi, n' !! hi.1 = m !! hi.2) hash2index ∧
          (∀ k, k ∉ hash2index.*1 → n' !! k = n !! k).
Proof.
  induction hash2index as [|[h i] l IH]; intros n Hnd Hrange.
  - exists n. by repeat split.
  - rewrite fmap_cons in Hnd. apply NoDup_cons in Hnd as [Hh Hnd].
    apply Forall_cons in Hrange as [[Hhn Him] Hrange]. simpl in Hhn, Him, Hh.
    destruct (lookup_lt_is_Some_2 m i Him) as [r Hr].
    destruct (IH (<[h := r]> n) Hnd) as (n' & Hloop & Hlen & Hall & Hrest).
    { by rewrite length_insert. }
    exists n'. split; [|split; [|split]].
    + cbn [foldM fst snd]. rewrite Hr. unfold setitem.
      rewrite decide_True by done. done.
    + by rewrite Hlen, length_insert.
    + constructor; [|done]. simpl.
      by rewrite Hrest, list_lookup_insert_eq, Hr.
    + intros k Hk. rewrite fmap_cons in Hk.
      apply not_elem_of_cons in Hk as [Hkh Hk]. simpl in Hkh.
      rewrite Hrest by done. by apply list_lookup_insert_ne.
Qed.

(** [_unpack_copy] meets the postcondition on every map with distinct
    hashes: row [h] of its result is packed row [i]. *)
Lemma _unpack_copy_rows (m : matrix) (num_rows : Z)
    (hash2index : list (nat * nat)) (seed : Z) :
  columns m ≠ 0%nat →
  Z.of_nat (length (rows m)) < num_rows →
  NoDup hash2index.*1 →
  Forall (λ hi, Z.of_nat hi.1 < num_rows ∧ (hi.2 < length (rows m))%nat)
    hash2index →
  ∃ n, _unpack_copy m num_rows hash2index seed = Ok n ∧
       shape n = (Z.to_nat num_rows, columns m) ∧
       Forall (λ hi, rows n !! hi.1 = rows m !! hi.2) hash2index.
Proof.
  intros Hc Hlt Hnd Hrange. unfold _unpack_copy, shape.
  destruct (Z.eqb_spec (Z.of_nat (length (rows m))) num_rows) as [?|_]; [lia|].
  destruct (Z.ltb_spec (Z.of_nat (length (rows m))) num_rows) as [_|?]; [|lia].
  cbn [negb].
  destruct (_pad_random_Ok {| rows := []; columns := columns m |} num_rows
              (np_random_seed seed) Hc) as (suffix & -> & Hsuffix); [lia|].
  simpl.
  destruct (copy_loop (rows m) hash2index suffix Hnd) as (n' & -> & Hlen & Hall & _).
  { eapply Forall_impl; [exact Hrange|]. intros hi [??]. split; [lia|done]. }
  eexists. split; [reflexivity|]. simpl. split; [|done].
  by rewrite Hlen, Hsuffix.
Qed.


End unpack.

(** ** The statements at concrete inputs *)

Section examples.
#[local] Existing Instances term_float32 term_random spec_inner term_base.






(** The lookup of [dog], which is not in the vocabulary. *)
Lemma get_vector_oov_witness :
  get_vector store0 "dog" false = Raise KeyError ∧
  ∃ ngram_hashes bucket_rows,
    ft_ngram_hashes "dog" (min_n store5) (max_n store5) (bucket store5)
      (compatible_hash store5) = Ok ngram_hashes ∧
    Forall2 (λ nh row, rows (vectors_ngrams store5) !! Z.to_nat nh = Some row)
      ngram_hashes bucket_rows ∧
    get_vector store5 "dog" false =
      Ok (match ngram_hashes with
          | [] => np_zeros (columns (vectors_ngrams store5))
          | _ :: _ => average_row (columns (vectors_ngrams store5)) bucket_rows
          end).
Proof.
  split.
  - apply (get_vector_oov store0 "dog" false); reflexivity.
  - apply (get_vector_oov store5 "dog" false).
    + reflexivity.
    + simpl. lia.
    + reflexivity.
Defined.

(** [dog] is "in" the store without buckets although its lookup raises. *)
Lemma contains_always_true_witness :
  __contains__ store0 "dog" = true ∧
  get_vector store0 "dog" false = Raise KeyError.
Proof.
  destruct (contains_always_true store0 "dog") as [Hin Hlookup].
  split; [exact Hin|]. apply Hlookup; reflexivity.
Defined.


End examples.
End FastTextSpec.

(** ** The token survey *)

Module TokenSurveySpec.
Import tokensurvey.

Section counter_facts.

Lemma dict_get_set {K V} `{EqDecision K} (t k : K) (v : V) (d : list (K * V)) :
  dict_get t (dict_set k v d) = if decide (t = k) then Some v else dict_get t d.
Proof.
  induction d as [|[k' v'] d IH]; simpl.
  - by repeat case_decide.
  - repeat case_decide; simplify_eq; simpl;
      rewrite ?decide_True, ?decide_False by done; done.
Qed.

Lemma dict_get_None {K V} `{EqDecision K} (k : K) (d : list (K * V)) :
  dict_get k d = None ↔ k ∉ d.*1.
Proof.
  induction d as [|[k' v'] d IH]; simpl.
  - split; [intros _; by inversion 1 | done].
  - rewrite not_elem_of_cons. case_decide; [split; [done | tauto] | ]. 
    rewrite IH. tauto.
Qed.

Lemma dict_set_keys {K V} `{EqDecision K} (k : K) (v : V) (d : list (K * V)) :
  (dict_set k v d).*1 = if decide (k ∈ d.*1) then d.*1 else d.*1 ++ [k].
Proof.
  induction d as [|[k' v'] d IH].
  - cbn [dict_set fmap list_fmap fst].
    rewrite decide_False; [done | by inversion 1].
  - cbn [dict_set]. destruct (decide (k = k')) as [->|Hk]; rewrite !fmap_cons.
    + rewrite decide_True; [done | left].
    + rewrite IH. cbn [fst]. destruct (decide (k ∈ d.*1)) as [Hin|Hin].
      * rewrite decide_True; [done | by right].
      * rewrite decide_False; [done|]. by rewrite elem_of_cons; intros [?|?].
Qed.

Lemma dict_set_wf {K V} `{EqDecision K} (k : K) (v : V) (d : list (K * V)) :
  dict_wf d → dict_wf (dict_set k v d).
Proof.
  unfold dict_wf. intros Hnd. rewrite dict_set_keys. case_decide; [done|].
  apply NoDup_app. split; [done|]. split; [|apply NoDup_singleton].
  intros x Hx Hk. apply list_elem_of_singleton in Hk. by subst.
Qed.

Lemma count_sum_comm (x y : option Z) : count_sum x y = count_sum y x.
Proof. destruct x, y; simpl; f_equal; lia. Qed.

Lemma count_sum_assoc (x y z : option Z) :
  count_sum (count_sum x y) z = count_sum x (count_sum y z).
Proof. destruct x, y, z; simpl; f_equal; lia. Qed.

Lemma fold_add_count_get (t : token) (other : list (token * Z)) :
  ∀ c, dict_wf other →
       dict_get t (fold_left add_count other c) =
       count_sum (dict_get t c) (dict_get t other).
Proof.
  induction other as [|[k v] other IH]; intros c Hwf; [done|].
  unfold dict_wf in Hwf. rewrite fmap_cons in Hwf.
  apply NoDup_cons in Hwf as [Hk Hwf]. simpl in Hk.
  cbn [fold_left]. rewrite IH by done. unfold add_count at 1. cbn [fst snd].
  rewrite dict_get_set. simpl. case_decide as Ht.
  - subst t. apply dict_get_None in Hk. by rewrite Hk.
  - done.
Qed.

Lemma fold_add_count_wf (other : list (token * Z)) :
  ∀ c, dict_wf c → dict_wf (fold_left add_count other c).
Proof.
  induction other as [|kv other IH]; intros c Hwf; [done|].
  cbn [fold_left]. apply IH. by apply dict_set_wf.
Qed.

Lemma sum_values_cons (kv : token * Z) (d : list (token * Z)) :
  sum_values (kv :: d) = kv.2 + sum_values d.
Proof. done. Qed.

Lemma sum_values_set (k : token) (v : Z) (d : list (token * Z)) :
  sum_values (dict_set k v d) = sum_values d - default 0 (dict_get k d) + v.
Proof.
  induction d as [|[k' v'] d IH]; cbn [dict_set dict_get].
  - rewrite sum_values_cons. simpl. lia.
  - destruct (decide (k = k')) as [->|Hk]; rewrite !sum_values_cons; simpl.
    + lia.
    + rewrite IH. lia.
Qed.

Lemma fold_add_count_sum (other : list (token * Z)) :
  ∀ c, sum_values (fold_left add_count other c) = sum_values c + sum_values other.
Proof.
  induction other as [|[k v] other IH]; intros c.
  - unfold sum_values at 3. simpl. lia.
  - cbn [fold_left]. rewrite IH. unfold add_count. cbn [fst snd].
    rewrite sum_values_set, (sum_values_cons (k, v)). simpl. lia.
Qed.

Lemma counter_update_get (t : token) (c other : list (token * Z)) :
  dict_wf other →
  dict_get t (counter_update c other) =
  count_sum (dict_get t c) (dict_get t other).
Proof.
  intros Hwf. destruct c as [|kv c].
  - unfold counter_update. rewrite dict_update_fresh by done. simpl.
    destruct (dict_get t other); simpl; f_equal; lia.
  - by apply fold_add_count_get.
Qed.

Lemma counter_update_wf (c other : list (token * Z)) :
  dict_wf c → dict_wf other → dict_wf (counter_update c other).
Proof.
  intros Hc Ho. destruct c as [|kv c].
  - unfold counter_update. by rewrite dict_update_fresh.
  - by apply fold_add_count_wf.
Qed.

Lemma counter_update_sum (c other : list (token * Z)) :
  dict_wf other →
  sum_values (counter_update c other) = sum_values c + sum_values other.
Proof.
  intros Ho. destruct c as [|kv c].
  - unfold counter_update. rewrite dict_update_fresh by done.
    unfold sum_values. simpl. lia.
  - apply fold_add_count_sum.
Qed.

End counter_facts.

Section merge.
Context `{PyFloat}.

Lemma merge_wf (a b : TokenSurvey) :
  dict_wf (raw_tally a) → dict_wf (raw_tally b) → dict_wf (raw_tally (merge a b)).
Proof. apply counter_update_wf. Qed.

Lemma merge_get (t : token) (a b : TokenSurvey) :
  dict_wf (raw_tally b) →
  dict_get t (raw_tally (merge a b)) =
  count_sum (dict_get t (raw_tally a)) (dict_get t (raw_tally b)).
Proof. apply counter_update_get. Qed.

Lemma merge_total (a b : TokenSurvey) :
  dict_wf (raw_tally b) →
  total_tokens (merge a b) = sum_values (raw_tally a) + sum_values (raw_tally b).
Proof. apply counter_update_sum. Qed.

Lemma merge_sum (a b : TokenSurvey) :
  dict_wf (raw_tally b) →
  sum_values (raw_tally (merge a b)) =
  sum_values (raw_tally a) + sum_values (raw_tally b).
Proof. apply counter_update_sum. Qed.

(** C7: [combine_survey] is commutative and associative on the
    count-bearing fields: the per-token counts, [corpus_count],
    [total_tokens], [prune_count], [prune_floor] and [prune_total] of
    [merge a b] and [merge b a] agree, and so do those of
    [merge (merge a b) c], [merge a (merge b c)] and [merge b (merge a c)]. *)
Theorem combine_survey_comm_assoc (a b c : TokenSurvey) :
  dict_wf (raw_tally a) → dict_wf (raw_tally b) → dict_wf (raw_tally c) →
  same_counts (merge a b) (merge b a) ∧
  same_counts (merge (merge a b) c) (merge a (merge b c)) ∧
  same_counts (merge a (merge b c)) (merge b (merge a c)).
Proof.
  intros Ha Hb Hc.
  pose proof (merge_wf a b Ha Hb) as Hab.
  pose proof (merge_wf b c Hb Hc) as Hbc.
  pose proof (merge_wf a c Ha Hc) as Hac.
  assert (∀ x y z, count_sum x (count_sum y z) = count_sum y (count_sum x z))
    as Hswap.
  { intros x y z. rewrite <- !count_sum_assoc. f_equal. apply count_sum_comm. }
  unfold same_counts. split; [|split].
  - split; [intros t; rewrite !merge_get by done; apply count_sum_comm|].
    rewrite !merge_total, ?merge_sum by done. simpl. lia.
  - split; [intros t; rewrite !merge_get by done; apply count_sum_assoc|].
    rewrite !merge_total, ?merge_sum by done. simpl. lia.
  - split; [intros t; rewrite !merge_get by done; apply Hswap|].
    rewrite !merge_total, ?merge_sum by done. simpl. lia.
Qed.

End merge.

Section pruning.
Context `{PyFloat}.

Lemma prune_token_tenured (tenured : list token) (key : token) (s : TokenSurvey) :
  prune_token key (set_tenured_tokens tenured s) =
  ((prune_token key s).1, set_tenured_tokens tenured (prune_token key s).2).
Proof. unfold prune_token. simpl. by destruct (dict_pop key (raw_tally s)) as [[??]|]. Qed.

Lemma prune_candidates_tenured (tenured : list token) (target : Z)
    (cands : list (token * Z)) :
  ∀ (h p : Z) (s : TokenSurvey),
    prune_candidates target cands h p (set_tenured_tokens tenured s) =
    ((prune_candidates target cands h p s).1,
     set_tenured_tokens tenured (prune_candidates target cands h p s).2).
Proof.
  induction cands as [|[key count] cands IH]; intros h p s; [done|].
  cbn [prune_candidates]. unfold mbind, meth_bind, get.
  change (__len__ (set_tenured_tokens tenured s)) with (__len__ s).
  destruct (__len__ s <=? target); [done|].
  rewrite prune_token_tenured.
  destruct (prune_token key s) as [[[]|e] s1]; simpl; [apply IH | done].
Qed.

(** The pruning step, by the way the candidate loop ends. *)
Lemma infrequent_pruning_unfold (lv : locals) (s : TokenSurvey) :
  infrequent_pruning lv s =
  match prune_candidates (int_of_float_mul (prune_until s) (prune_at_size s))
          (reverse (most_common (raw_tally s))) 0 0 s with
  | (Ok (true, _, _), s') => (Ok lv, s')
  | (Ok (false, _, _), s') => (Raise AttributeError, s')
  | (Raise e, s') => (Raise e, s')
  end.
Proof.
  unfold infrequent_pruning, mbind, meth_bind, get.
  destruct (prune_candidates _ _ 0 0 s) as [[[[[] ?] ?]|e] s1]; reflexivity.
Qed.

(** C2: the low-frequency pruning step does not look at the tenured
    tokens, which come out of it as they went in: it removes the same
    tokens whatever is tenured. On a survey with [prune_at_size=2] in which
    [b] is tenured, surveying the one text [a b] removes [b] from the
    tally. *)
Theorem pruning_ignores_tenure :
  (∀ (tenured : list token) (lv : locals) (s : TokenSurvey),
     infrequent_pruning lv (set_tenured_tokens tenured s) =
     ((infrequent_pruning lv s).1,
      set_tenured_tokens tenured (infrequent_pruning lv s).2)) ∧
  (∃ s', (tenure_token (Str "b") ;;
          update_with [[Str "a"; Str "b"]] [] 10000 None)
           (new_survey (Some 2) (1 # 2)) = (Ok tt, s') ∧
         Str "b" ∈ tenured_tokens s' ∧
         dict_get (Str "b") (raw_tally s') = None ∧
         raw_tally s' = [(Str "a", 1)] ∧ prune_count s' = 1).
Proof.
  split.
  - intros tenured lv s. rewrite !infrequent_pruning_unfold.
    cbn [raw_tally prune_until prune_at_size set_tenured_tokens].
    rewrite prune_candidates_tenured.
    by destruct (prune_candidates _ _ 0 0 s) as [[[[[] ?] ?]|e] s1].
  - eexists. split; [vm_compute; reflexivity|]. split; [left|]. by vm_compute.
Qed.

(** C8: whenever the loop over the candidates ends without reaching the
    target (the [else] clause of the [for], by which the code recognises
    that the target cannot be reached), the pruning step raises
    [AttributeError], because a logger has no [severe] method, and the
    ceiling is not doubled. Surveying the one text [a] ends in this
    exception with [prune_at_size=1] and the default [prune_until=0.5]
    (target size 0), and with [prune_until=-1.0] (target size -1, which no
    table can reach). *)
Theorem overload_raises :
  (∀ (lv : locals) (s s' : TokenSurvey) (h p : Z),
     prune_candidates (int_of_float_mul (prune_until s) (prune_at_size s))
       (reverse (most_common (raw_tally s))) 0 0 s = (Ok (false, h, p), s') →
     infrequent_pruning lv s = (Raise AttributeError, s')) ∧
  (update_with [[Str "a"]] [] 10000 None (new_survey (Some 1) (1 # 2))).1 =
    Raise AttributeError ∧
  (update_with [[Str "a"]] [] 10000 None (new_survey (Some 1) (-1 # 1))).1 =
    Raise AttributeError.
Proof.
  split.
  - intros lv s s' h p Hloop. by rewrite infrequent_pruning_unfold, Hloop.
  - split; by vm_compute.
Qed.

End pruning.

Section examples.
#[local] Existing Instance Q_float.

(** Three surveys, one of them empty. *)
Lemma combine_survey_comm_assoc_witness :
  let a := survey_of [(Str "x", 2); (Str "y", 1)] 3 in
  let b := survey_of [(Str "y", 4); (Int 7, 1)] 1 in
  let c := survey_of [] 0 in
  same_counts (merge a b) (merge b a) ∧
  same_counts (merge (merge a b) c) (merge a (merge b c)) ∧
  same_counts (merge a (merge b c)) (merge b (merge a c)).
Proof.
  intros a b c. apply (combine_survey_comm_assoc a b c);
    apply (bool_decide_unpack _); vm_compute; exact I.
Defined.

(** The pruning step on the tally [{a: 1}] with target size 0. *)
Lemma overload_raises_witness :
  (infrequent_pruning
     {| l_total_tokens := 1; effective_prune_at_size := 1; item_count := 1 |}
     (set_raw_tally [(Str "a", 1)] (new_survey (Some 1) (1 # 2)))).1 =
  Raise AttributeError.
Proof.
  destruct (overload_raises (H := Q_float)) as [Hraises _].
  erewrite Hraises; [reflexivity|]. vm_compute. reflexivity.
Defined.

End examples.
End TokenSurveySpec.

(** * Further properties of the code *)

(** A method that returns normally has run each of its steps normally. *)
Lemma meth_bind_Ok_inv {S A B} (m : meth S A) (f : A → meth S B) s b s' :
  (m ≫= f) s = (Ok b, s') → ∃ a s1, m s = (Ok a, s1) ∧ f a s1 = (Ok b, s').
Proof.
  unfold mbind, meth_bind. destruct (m s) as [[a|e] s1]; [eauto | done].
Qed.

(** ** Hashing, padding and the bucket lists of the vocabulary *)

Module FastTextExtra.
Import fasttext FastTextSpec.

Section hasher.
Context `{FastTextInner}.

(** X1: with a bucket count other than zero, [ft_ngram_hashes] does not
    raise: it returns one bucket index per ngram of the word, in the order
    of the ngrams, each being the hash of the ngram modulo the bucket
    count, hence a valid row number of a matrix of [b] rows when [b] is
    positive (and a value in [(b, 0]] when [b] is negative, as Python's
    [%] takes the sign of the divisor). *)
Theorem ft_ngram_hashes_buckets (word : string) (minn maxn b : Z) (c : bool) :
  b ≠ 0 →
  ∃ hs,
    ft_ngram_hashes word minn maxn b c = Ok hs ∧
    hs = (λ n, (if c then ft_hash_bytes n else ft_hash_broken n) mod b) <$> ngrams_of word minn maxn c ∧
    length hs = length (ngrams_of word minn maxn c) ∧
    (0 < b → Forall (λ h, 0 ≤ h < b) hs) ∧
    (b < 0 → Forall (λ h, b < h ≤ 0) hs).
Proof.
  intros Hb. eexists. split; [by apply ft_ngram_hashes_nonzero|].
  split; [done|]. split; [by rewrite length_map|].
  split; intros Hsign; apply Forall_forall; intros h Hh;
    apply list_elem_of_fmap in Hh as (n & -> & _).
  - by apply Z.mod_pos_bound.
  - by apply Z.mod_neg_bound.
Qed.

Lemma process_loop (minn maxn b : Z) (c : bool) (iterable : list (string * Vocab)) :
  b ≠ 0 →
  ∀ acc : list (nat * list Z),
    NoDup (acc.*1 ++ ((index ∘ snd) <$> iterable)) →
    foldM
      (λ word_indices (wv : string * Vocab),
         wi ← ft_ngram_hashes wv.1 minn maxn b c;
         Ok (dict_set (index wv.2) wi word_indices))
      acc iterable =
    Ok (acc ++ ((λ wv : string * Vocab,
                   (index wv.2, (λ n, (if c then ft_hash_bytes n else ft_hash_broken n) mod b) <$> ngrams_of wv.1 minn maxn c))
                <$> iterable)).
Proof.
  intros Hb. induction iterable as [|[w v] l IH]; intros acc Hnd.
  - simpl. by rewrite app_nil_r.
  - cbn [foldM fst snd]. rewrite ft_ngram_hashes_nonzero by done.
    cbn [fmap list_fmap] in Hnd. simpl in Hnd.
    rewrite bind_Ok, dict_set_fresh.
    + rewrite bind_Ok, IH; [by rewrite <- app_assoc|].
      rewrite fmap_app, <- app_assoc. done.
    + apply NoDup_app in Hnd as (_ & Hfresh & _). intros Hin.
      apply (Hfresh _ Hin). left.
Qed.

(** X2: [_process_fasttext_vocab] with a bucket count between zero and
    [2^32] and a vocabulary whose entries have distinct indices returns a
    dict that has exactly the indices as keys, in the order of the
    vocabulary, and maps the index of each word to the bucket indices of
    its ngrams: the empty list when the bucket count is zero, the hashes
    modulo the bucket count otherwise. Every stored value lies in
    [[0, b)], so the [uint32] arrays hold it unchanged. *)
Theorem _process_fasttext_vocab_lookup (iterable : list (string * Vocab))
    (minn maxn b : Z) (c : bool) :
  0 ≤ b ≤ 2 ^ 32 →
  NoDup ((index ∘ snd) <$> iterable) →
  ∃ word_indices,
    _process_fasttext_vocab iterable minn maxn b c = Ok word_indices ∧
    word_indices.*1 = (index ∘ snd) <$> iterable ∧
    (∀ w v, (w, v) ∈ iterable →
       dict_get (index v) word_indices =
       Some (if decide (b = 0) then []
             else (λ n, (if c then ft_hash_bytes n else ft_hash_broken n) mod b)
                    <$> ngrams_of w minn maxn c)) ∧
    Forall (λ il, Forall (λ h, 0 ≤ h < b) il.2) word_indices.
Proof.
  intros Hrange Hnd. unfold _process_fasttext_vocab.
  destruct (Z.eqb_spec b 0) as [->|Hb].
  - eexists. split; [reflexivity|].
    assert (((λ wv : string * Vocab, (index wv.2, @nil Z)) <$> iterable).*1
            = (index ∘ snd) <$> iterable) as Hkeys.
    { rewrite <- list_fmap_compose. by apply list_fmap_ext. }
    unfold dict_of_items. change (map ?f iterable) with (f <$> iterable).
    rewrite (dict_update_fresh []) by (simpl; by rewrite Hkeys).
    simpl. split; [done|]. split.
    + intros w v Hin. apply dict_get_elem; [by rewrite Hkeys|].
      by apply (list_elem_of_fmap_2
                  (λ wv : string * Vocab, (index wv.2, @nil Z))) in Hin.
    + apply Forall_forall. intros il Hil.
      apply list_elem_of_fmap in Hil as (wv & -> & _). constructor.
  - rewrite (process_loop minn maxn b c iterable Hb []) by done. simpl.
    set (entry := λ wv : string * Vocab, (index wv.2, _)).
    assert ((entry <$> iterable).*1 = (index ∘ snd) <$> iterable) as Hkeys.
    { rewrite <- list_fmap_compose. by apply list_fmap_ext. }
    eexists. split; [reflexivity|]. split; [done|]. split.
    + intros w v Hin. rewrite decide_False by done.
      apply dict_get_elem; [by rewrite Hkeys|].
      by apply (list_elem_of_fmap_2 entry) in Hin.
    + apply Forall_forall. intros il Hil.
      apply list_elem_of_fmap in Hil as (wv & -> & _). simpl.
      apply Forall_forall. intros h Hh.
      apply list_elem_of_fmap in Hh as (n & -> & _).
      apply Z.mod_pos_bound. lia.
Qed.

End hasher.

(** X3: [_is_utf8_continue] holds exactly of the bytes [0x80] to [0xBF],
    the bytes of the form [10xxxxxx]. *)
Theorem _is_utf8_continue_range (b : Ascii.ascii) :
  _is_utf8_continue b =
  (0x80 <=? _byte_to_int b) && (_byte_to_int b <=? 0xBF).
Proof. by destruct b as [[] [] [] [] [] [] [] []]. Qed.

Lemma _pad_ones_Ok {A} (one : A) (m : list A) (n : Z) :
  Z.of_nat (length m) ≤ n →
  _pad_ones one m n = Ok (m ++ replicate (Z.to_nat n - length m) one).
Proof.
  intros Hn. unfold _pad_ones.
  destruct (Z.leb_spec (Z.of_nat (length m)) n) as [_|?]; [|lia].
  simpl. by rewrite drop_replicate.
Qed.

Lemma _pad_ones_Ok_inv {A} (one : A) (m l : list A) (n : Z) :
  _pad_ones one m n = Ok l →
  Z.of_nat (length m) ≤ n ∧ l = m ++ replicate (Z.to_nat n - length m) one.
Proof.
  unfold _pad_ones.
  destruct (Z.leb_spec (Z.of_nat (length m)) n) as [Hle|?]; [|done].
  simpl. intros [= <-]. by rewrite drop_replicate.
Qed.

(** X4: [_pad_ones] raises [AssertionError] exactly when the array is
    longer than the new length; otherwise it returns the array followed by
    ones up to the new length, so that padding in two steps gives what
    padding in one step gives. *)
Theorem _pad_ones_pads {A} (one : A) (m : list A) (n1 n2 : Z) :
  (n1 < Z.of_nat (length m) → _pad_ones one m n1 = Raise AssertionError) ∧
  (Z.of_nat (length m) ≤ n1 →
   _pad_ones one m n1 =
     Ok (m ++ replicate (Z.to_nat n1 - length m) one) ∧
   (n1 ≤ n2 →
    (m' ← _pad_ones one m n1; _pad_ones one m' n2) = _pad_ones one m n2)).
Proof.
  split.
  - intros Hlt. unfold _pad_ones.
    destruct (Z.leb_spec (Z.of_nat (length m)) n1) as [?|_]; [lia|done].
  - intros Hle. split; [by apply _pad_ones_Ok|]. intros Hn.
    rewrite (_pad_ones_Ok one m n1), (_pad_ones_Ok one m n2), bind_Ok by lia.
    rewrite _pad_ones_Ok by (rewrite length_app, length_replicate; lia).
    rewrite <- app_assoc, <- replicate_add, length_app, length_replicate.
    do 3 f_equal. lia.
Qed.

(** ** The two unpacking functions *)

Section unpack.
Context `{NumpyRandom}.

Lemma swap_rows_length (h i : nat) (m m' : list vec) :
  swap_rows h i m = Ok m' → length m' = length m.
Proof.
  unfold swap_rows. destruct (m !! i), (m !! h); intros [= <-].
  by rewrite !length_insert.
Qed.

Lemma swap_rows_Ok_iff (h i : nat) (m : list vec) :
  (∃ m', swap_rows h i m = Ok m') ↔ (h < length m)%nat ∧ (i < length m)%nat.
Proof.
  split.
  - intros [m' Hm']. unfold swap_rows in Hm'.
    destruct (m !! i) eqn:Hi, (m !! h) eqn:Hh; try discriminate.
    split; eapply lookup_lt_Some; eauto.
  - intros [Hh Hi].
    destruct (swap_rows_Ok h i m Hh Hi) as (? & ? & _ & _ & ->). eauto.
Qed.

Lemma swap_all_length (swap : list (nat * nat)) :
  ∀ m m' : list vec, swap_all swap m = Ok m' → length m' = length m.
Proof.
  unfold swap_all. induction swap as [|[h i] swap IH]; intros m m'.
  - by intros [= <-].
  - cbn [foldM fst snd]. case_decide; [done|]. intros Hm'.
    apply bind_Ok_inv in Hm' as (m1 & Hm1 & Hm').
    rewrite (IH _ _ Hm'). by eapply swap_rows_length.
Qed.

(** The swaps go through exactly when every pair names two different rows
    of the matrix. *)
Lemma swap_all_Ok_iff (swap : list (nat * nat)) :
  ∀ m : list vec,
    (∃ m', swap_all swap m = Ok m') ↔
    Forall (λ hi, hi.1 ≠ hi.2 ∧ (hi.1 < length m)%nat ∧ (hi.2 < length m)%nat)
      swap.
Proof.
  unfold swap_all. induction swap as [|[h i] swap IH]; intros m.
  - split; [constructor | by eexists].
  - cbn [foldM fst snd]. rewrite Forall_cons. simpl. split.
    + intros [m' Hm']. case_decide; [done|].
      apply bind_Ok_inv in Hm' as (m1 & Hm1 & Hm').
      split.
      * split; [done|]. apply swap_rows_Ok_iff. eauto.
      * rewrite <- (swap_rows_length _ _ _ _ Hm1). apply IH. eauto.
    + intros [(Hne & Hh & Hi) Hall]. rewrite decide_False by done.
      destruct (proj2 (swap_rows_Ok_iff h i m)) as [m1 Hm1]; [done|].
      rewrite Hm1, bind_Ok. apply IH.
      by rewrite (swap_rows_length _ _ _ _ Hm1).
Qed.

Lemma copy_loop_length (m : list vec) (hash2index : list (nat * nat)) :
  ∀ n n' : list vec,
    foldM (λ n (sd : nat * nat),
             match m !! sd.2 with
             | Some r => setitem n sd.1 r
             | None => Raise IndexError
             end) n hash2index = Ok n' →
    length n' = length n.
Proof.
  induction hash2index as [|[h i] l IH]; intros n n'.
  - by intros [= <-].
  - cbn [foldM fst snd]. intros Hn'.
    apply bind_Ok_inv in Hn' as (n1 & Hn1 & Hn').
    rewrite (IH _ _ Hn'). destruct (m !! i); [|done].
    unfold setitem in Hn1. case_decide; [|done].
    injection Hn1 as <-. by rewrite length_insert.
Qed.

(** The copying loop goes through exactly when every pair names a row of
    the new matrix and a row of the packed one. *)
Lemma copy_loop_Ok_iff (m : list vec) (hash2index : list (nat * nat)) :
  ∀ n : list vec,
    (∃ n', foldM (λ n (sd : nat * nat),
                    match m !! sd.2 with
                    | Some r => setitem n sd.1 r
                    | None => Raise IndexError
                    end) n hash2index = Ok n') ↔
    Forall (λ hi, (hi.1 < length n)%nat ∧ (hi.2 < length m)%nat) hash2index.
Proof.
  induction hash2index as [|[h i] l IH]; intros n.
  - split; [constructor | by eexists].
  - cbn [foldM fst snd]. rewrite Forall_cons. simpl. split.
    + intros [n' Hn'].
      apply bind_Ok_inv in Hn' as (n1 & Hn1 & Hn').
      destruct (m !! i) as [r|] eqn:Hi; [|done].
      unfold setitem in Hn1. case_decide; [|done]. injection Hn1 as <-.
      split; [split; [done | by eapply lookup_lt_Some]|].
      rewrite <- (length_insert n h r). apply IH. eauto.
    + intros [[Hh Hi] Hall].
      destruct (lookup_lt_is_Some_2 m i Hi) as [r ->].
      unfold setitem. rewrite decide_True by done. rewrite bind_Ok.
      apply IH. by rewrite length_insert.
Qed.

(** A matrix either function returns has [num_rows] rows and the columns
    of its argument. *)
Lemma _unpack_shape (m m' : matrix) (num_rows : Z)
    (hash2index : list (nat * nat)) (seed : Z) :
  _unpack m num_rows hash2index seed = Ok m' →
  Z.of_nat (length (rows m')) = num_rows ∧ columns m' = columns m.
Proof.
  unfold _unpack, shape.
  destruct (Z.eqb_spec (Z.of_nat (length (rows m))) num_rows) as [?|_];
    [by intros [= <-]|].
  destruct (Z.ltb_spec (Z.of_nat (length (rows m))) num_rows) as [Hlt|?];
    [|done].
  cbn [negb]. intros Hm'.
  apply bind_Ok_inv in Hm' as (padded & Hpad & Hm').
  apply bind_Ok_inv in Hm' as (rows' & Hswap & [= <-]).
  apply _pad_random_inv in Hpad as (_ & _ & Hcols & suffix & Hrows & Hlen).
  apply swap_all_length in Hswap. simpl. split; [|done].
  rewrite Hswap, Hrows, length_app, Hlen. lia.
Qed.

Lemma _unpack_copy_shape (m m' : matrix) (num_rows : Z)
    (hash2index : list (nat * nat)) (seed : Z) :
  _unpack_copy m num_rows hash2index seed = Ok m' →
  Z.of_nat (length (rows m')) = num_rows ∧ columns m' = columns m.
Proof.
  unfold _unpack_copy, shape.
  destruct (Z.eqb_spec (Z.of_nat (length (rows m))) num_rows) as [?|_];
    [by intros [= <-]|].
  destruct (Z.ltb_spec (Z.of_nat (length (rows m))) num_rows) as [Hlt|?];
    [|done].
  cbn [negb]. intros Hm'.
  apply bind_Ok_inv in Hm' as (padded & Hpad & Hm').
  apply bind_Ok_inv in Hm' as (rows' & Hcopy & [= <-]).
  apply _pad_random_inv in Hpad as (_ & _ & Hcols & suffix & Hrows & Hlen).
  apply copy_loop_length in Hcopy. simpl. split; [|done].
  rewrite Hcopy, Hrows. simpl. rewrite Hlen. lia.
Qed.

(** X5: a matrix that [_unpack] or [_unpack_copy] returns has the natural
    layout, one row per bucket and the columns of the argument; and on a
    matrix in natural layout both functions return their argument for every
    map and seed. Unpacking is thus idempotent. *)
Theorem _unpack_natural (m m' : matrix) (num_rows : Z)
    (hash2index : list (nat * nat)) (seed : Z) :
  _unpack m num_rows hash2index seed = Ok m' ∨
  _unpack_copy m num_rows hash2index seed = Ok m' →
  Z.of_nat (length (rows m')) = num_rows ∧
  columns m' = columns m ∧
  ∀ hash2index' seed',
    _unpack m' num_rows hash2index' seed' = Ok m' ∧
    _unpack_copy m' num_rows hash2index' seed' = Ok m'.
Proof.
  intros Hm'.
  assert (Z.of_nat (length (rows m')) = num_rows ∧ columns m' = columns m)
    as [Hrows Hcols].
  { destruct Hm' as [Hm'|Hm'];
      [by eapply _unpack_shape | by eapply _unpack_copy_shape]. }
  split; [done|]. split; [done|]. intros l' seed'.
  unfold _unpack, _unpack_copy, shape. rewrite Hrows, Z.eqb_refl. done.
Qed.

(** What [_unpack_copy] computes on a matrix that has to grow. *)
Lemma _unpack_copy_unfold (m : matrix) (num_rows : Z)
    (hash2index : list (nat * nat)) (seed : Z) :
  columns m ≠ 0%nat →
  Z.of_nat (length (rows m)) < num_rows →
  _unpack_copy m num_rows hash2index seed =
  (rows' ← foldM
     (λ n (sd : nat * nat),
        match rows m !! sd.2 with
        | Some r => setitem n sd.1 r
        | None => Raise IndexError
        end)
     (uniform_rows (np_random_seed seed) (columns m) (Z.to_nat num_rows))
     hash2index;
   Ok {| rows := rows'; columns := columns m |}).
Proof.
  intros Hc Hlt. unfold _unpack_copy, _pad_random, uniform, vstack, shape.
  destruct (Z.eqb_spec (Z.of_nat (length (rows m))) num_rows) as [?|_]; [lia|].
  destruct (Z.ltb_spec (Z.of_nat (length (rows m))) num_rows) as [_|?]; [|lia].
  simpl. destruct (Nat.eqb_spec (columns m) 0) as [?|_]; [done|].
  destruct (Z.ltb_spec num_rows 0) as [?|_]; [lia|]. done.
Qed.

(** X6: on a packed matrix with columns, fewer rows than buckets and a map
    with distinct hashes, hashes below the bucket count and indices below
    the packed row count, with a seed that numpy accepts,
    [_unpack_copy] returns a matrix in natural layout whose row [h] is
    packed row [i] for every pair [(h, i)] of the map, and whose other
    rows are the rows drawn from the seeded generator; the result does
    not depend on the iteration order of the map. *)
Theorem _unpack_copy_spec (m : matrix) (num_rows : Z)
    (hash2index : list (nat * nat)) (seed : Z) :
  0 ≤ seed < 2 ^ 32 →
  columns m ≠ 0%nat →
  Z.of_nat (length (rows m)) < num_rows →
  NoDup hash2index.*1 →
  Forall (λ hi, Z.of_nat hi.1 < num_rows ∧ (hi.2 < length (rows m))%nat)
    hash2index →
  ∃ n,
    _unpack_copy m num_rows hash2index seed = Ok n ∧
    shape n = (Z.to_nat num_rows, columns m) ∧
    (∀ h i, (h, i) ∈ hash2index → rows n !! h = rows m !! i) ∧
    (∀ k, k ∉ hash2index.*1 →
       rows n !! k =
       uniform_rows (np_random_seed seed) (columns m) (Z.to_nat num_rows) !! k) ∧
    ∀ hash2index',
      hash2index' ≡ₚ hash2index →
      _unpack_copy m num_rows hash2index' seed = Ok n.
Proof.
  intros _ Hc Hlt Hnd Hrange.
  set (drawn := uniform_rows (np_random_seed seed) (columns m)
                  (Z.to_nat num_rows)).
  assert (length drawn = Z.to_nat num_rows) as Hdrawn
    by apply length_uniform_rows.
  assert (∀ l, l ≡ₚ hash2index →
            ∃ n', _unpack_copy m num_rows l seed =
                    Ok {| rows := n'; columns := columns m |} ∧
                  length n' = length drawn ∧
                  (∀ h i, (h, i) ∈ hash2index → n' !! h = rows m !! i) ∧
                  (∀ k, k ∉ hash2index.*1 → n' !! k = drawn !! k)) as Hany.
  { intros l Hperm.
    destruct (copy_loop (rows m) l drawn) as (n' & Hloop & Hlen & Hall & Hrest).
    { by rewrite Hperm. }
    { rewrite Hperm. eapply Forall_impl; [exact Hrange|].
      intros hi [??]. split; [lia|done]. }
    exists n'. split; [|split; [done|split]].
    - rewrite _unpack_copy_unfold by done. fold drawn. by rewrite Hloop.
    - intros h i Hin. rewrite Forall_forall in Hall.
      apply (Hall (h, i)). by rewrite Hperm.
    - intros k Hk. apply Hrest. by rewrite Hperm. }
  destruct (Hany hash2index) as (n & Hn & Hlen & Hall & Hrest); [done|].
  exists {| rows := n; columns := columns m |}.
  split; [done|]. split; [|split; [done|split; [done|]]].
  { unfold shape. simpl. by rewrite Hlen, Hdrawn. }
  intros l Hperm.
  destruct (Hany l Hperm) as (n2 & -> & Hlen2 & Hall2 & Hrest2).
  do 2 f_equal. apply list_eq. intros k.
  destruct (decide (k ∈ hash2index.*1)) as [Hk|Hk].
  - apply list_elem_of_fmap in Hk as ([h i] & -> & Hin). simpl.
    by rewrite (Hall _ _ Hin), (Hall2 _ _ Hin).
  - by rewrite Hrest, Hrest2.
Qed.

(** X7: on a packed matrix with columns, fewer rows than buckets and a map
    with distinct hashes, with a seed that numpy accepts,
    [_unpack_copy] returns normally exactly when
    every hash is below the bucket count and every index below the packed
    row count, while [_unpack] checks only the pairs whose hash is at
    least the packed row count: it returns normally exactly when their
    hash and index are below the bucket count and differ. So [_unpack]
    accepts every map that [_unpack_copy] accepts, and an out-of-range
    index of a pair that it does not swap goes unnoticed. *)
Theorem _unpack_accepts (m : matrix) (num_rows : Z)
    (hash2index : list (nat * nat)) (seed : Z) :
  0 ≤ seed < 2 ^ 32 →
  columns m ≠ 0%nat →
  Z.of_nat (length (rows m)) < num_rows →
  NoDup hash2index.*1 →
  ((∃ n, _unpack_copy m num_rows hash2index seed = Ok n) ↔
   Forall (λ hi, Z.of_nat hi.1 < num_rows ∧ (hi.2 < length (rows m))%nat)
     hash2index) ∧
  ((∃ m', _unpack m num_rows hash2index seed = Ok m') ↔
   Forall (λ hi, (length (rows m) ≤ hi.1)%nat →
                 hi.1 ≠ hi.2 ∧ Z.of_nat hi.1 < num_rows ∧
                 Z.of_nat hi.2 < num_rows)
     hash2index) ∧
  ((∃ n, _unpack_copy m num_rows hash2index seed = Ok n) →
   ∃ m', _unpack m num_rows hash2index seed = Ok m').
Proof.
  intros _ Hc Hlt Hnd.
  set (r := length (rows m)) in *.
  assert ((∃ n, _unpack_copy m num_rows hash2index seed = Ok n) ↔
          Forall (λ hi, Z.of_nat hi.1 < num_rows ∧ (hi.2 < r)%nat) hash2index)
    as Hcopy.
  { rewrite _unpack_copy_unfold by done.
    set (drawn := uniform_rows _ _ _).
    assert (length drawn = Z.to_nat num_rows) as Hdrawn
      by apply length_uniform_rows.
    rewrite <- (Forall_iff
      (λ hi, (hi.1 < length drawn)%nat ∧ (hi.2 < length (rows m))%nat))
      by (intros hi; fold r; lia).
    rewrite <- copy_loop_Ok_iff. split.
    - intros [n Hn]. apply bind_Ok_inv in Hn as (rows' & -> & _). eauto.
    - intros [rows' ->]. eauto. }
  assert ((∃ m', _unpack m num_rows hash2index seed = Ok m') ↔
          Forall (λ hi, (r ≤ hi.1)%nat →
                        hi.1 ≠ hi.2 ∧ Z.of_nat hi.1 < num_rows ∧
                        Z.of_nat hi.2 < num_rows) hash2index) as Hunpack.
  { rewrite _unpack_unfold by done. fold r.
    destruct (_pad_random_Ok m (num_rows - Z.of_nat r) (np_random_seed seed) Hc)
      as (suffix & -> & Hsuffix); [lia|].
    rewrite bind_Ok. simpl.
    assert (length (rows m ++ suffix) = Z.to_nat num_rows) as Hlen.
    { rewrite length_app, Hsuffix. fold r. lia. }
    transitivity (∃ rows', swap_all (selected_swaps r hash2index)
                             (rows m ++ suffix) = Ok rows').
    { split.
      - intros [m' Hm']. apply bind_Ok_inv in Hm' as (rows' & -> & _). eauto.
      - intros [rows' ->]. eauto. }
    rewrite swap_all_Ok_iff, Hlen, !Forall_forall. split.
    - intros Hall hi Hin Hext.
      destruct (Hall hi) as (? & ? & ?); [|lia].
      apply selected_swaps_elem. auto.
    - intros Hall hi Hin. apply selected_swaps_elem in Hin as [Hsel Hin].
      destruct Hsel as [Hint|Hext]; [lia|].
      destruct (Hall hi Hin Hext) as (? & ? & ?). lia. }
  split; [done|]. split; [done|].
  rewrite Hcopy, Hunpack, !Forall_forall. intros Hall hi Hin Hext.
  destruct (Hall hi Hin). lia.
Qed.

Lemma touched_NoDup (r : nat) (l : list (nat * nat)) :
  NoDup l.*1 → NoDup l.*2 →
  Forall (λ hi, (hi.2 < r ≤ hi.1)%nat) l →
  NoDup (touched l).
Proof.
  induction l as [|[h i] l IH]; [constructor|].
  rewrite !fmap_cons, !NoDup_cons, Forall_cons. simpl.
  intros [Hh Hkeys] [Hi Hvals] [Hhi Hall].
  change (touched ((h, i) :: l)) with (h :: i :: touched l).
  specialize (IH Hkeys Hvals Hall). rewrite Forall_forall in Hall.
  apply NoDup_cons_2; [|apply NoDup_cons_2; [|done]].
  - rewrite not_elem_of_cons. split; [lia|].
    intros Hin. apply touched_elem in Hin as (hi & Hin & [->| ->]).
    + apply Hh. by apply (list_elem_of_fmap_2 fst) in Hin.
    + specialize (Hall hi Hin). lia.
  - intros Hin. apply touched_elem in Hin as (hi & Hin & [->| ->]).
    + specialize (Hall hi Hin). lia.
    + apply Hi. by apply (list_elem_of_fmap_2 snd) in Hin.
Qed.

(** X8: when no hash of the map is below the packed row count, hashes are
    distinct and below the bucket count, indices are distinct and below
    the packed row count, and numpy accepts the seed, [_unpack] does what
    [_unpack_copy] does on the mapped rows: row [h] of its result is
    packed row [i] for every pair [(h, i)], whatever the iteration order
    of the map. *)
Theorem _unpack_external_only (m : matrix) (num_rows : Z)
    (hash2index : list (nat * nat)) (seed : Z) :
  0 ≤ seed < 2 ^ 32 →
  columns m ≠ 0%nat →
  Z.of_nat (length (rows m)) < num_rows →
  NoDup hash2index.*1 → NoDup hash2index.*2 →
  Forall (λ hi, (hi.2 < length (rows m) ≤ hi.1)%nat ∧ Z.of_nat hi.1 < num_rows)
    hash2index →
  ∃ m' n,
    _unpack m num_rows hash2index seed = Ok m' ∧
    _unpack_copy m num_rows hash2index seed = Ok n ∧
    (∀ h i, (h, i) ∈ hash2index →
       rows m' !! h = rows m !! i ∧ rows n !! h = rows m !! i) ∧
    ∀ hash2index',
      hash2index' ≡ₚ hash2index →
      _unpack m num_rows hash2index' seed = Ok m'.
Proof.
  intros _ Hc Hlt Hkeys Hvals Hrange.
  set (r := length (rows m)) in *.
  assert (∀ l, l ≡ₚ hash2index → selected_swaps r l = l) as Hsel.
  { intros l Hperm. unfold selected_swaps, internal_swaps, external_swaps.
    assert (Forall (λ hi, (hi.2 < r ≤ hi.1)%nat) l) as Hl.
    { rewrite Hperm. eapply Forall_impl; [exact Hrange|]. by intros ? [? _]. }
    assert (filter (λ hi, hi.1 < hi.2 < r)%nat l = [] ∧
            filter (λ hi, r ≤ hi.1)%nat l = l) as [-> ->]; [|done].
    clear -Hl. induction l as [|hi l IH]; [done|].
    apply Forall_cons in Hl as [Hhi Hl]. destruct (IH Hl) as [IH1 IH2].
    rewrite !filter_cons.
    destruct (decide (hi.1 < hi.2 < r)%nat) as [?|_]; [lia|].
    destruct (decide (r ≤ hi.1)%nat) as [_|?]; [|lia].
    split; [done | by f_equal]. }
  assert (NoDup (touched hash2index)) as Hdisj.
  { apply (touched_NoDup r); [done..|].
    eapply Forall_impl; [exact Hrange|]. by intros ? [? _]. }
  destruct (_pad_random_Ok m (num_rows - Z.of_nat r) (np_random_seed seed) Hc)
    as (suffix & Hpad & Hsuffix); [lia|].
  assert (Forall (λ hi, (hi.1 < length (rows m ++ suffix))%nat ∧
                        (hi.2 < length (rows m ++ suffix))%nat) hash2index)
    as Hin_range.
  { eapply Forall_impl; [exact Hrange|]. intros hi [??].
    rewrite length_app. fold r. lia. }
  destruct (swap_all_disjoint hash2index (rows m ++ suffix) Hdisj Hin_range)
    as (R' & Hswap & HlenR & Hpairs & _).
  assert (∀ l, l ≡ₚ hash2index →
            _unpack m num_rows l seed = Ok {| rows := R'; columns := columns m |})
    as Hany.
  { intros l Hperm. rewrite _unpack_unfold; [|done|by rewrite Hperm].
    fold r. rewrite Hpad, bind_Ok, (Hsel l Hperm). simpl.
    by rewrite (swap_all_Permutation hash2index l), Hswap. }
  destruct (copy_loop (rows m) hash2index
              (uniform_rows (np_random_seed seed) (columns m) (Z.to_nat num_rows)))
    as (n' & Hloop & _ & Hall & _); [done|..].
  { rewrite length_uniform_rows. eapply Forall_impl; [exact Hrange|].
    intros hi [??]. fold r. lia. }
  exists {| rows := R'; columns := columns m |},
         {| rows := n'; columns := columns m |}.
  split; [by apply Hany|]. split; [|split; [|done]].
  - rewrite _unpack_copy_unfold by done. by rewrite Hloop.
  - intros h i Hin. simpl. split.
    + destruct (Hpairs _ Hin) as [E _]. simpl in E. rewrite E.
      rewrite Forall_forall in Hrange. destruct (Hrange _ Hin) as [[??] _].
      by apply lookup_app_l.
    + rewrite Forall_forall in Hall. apply (Hall _ Hin).
Qed.

End unpack.

(** ** The methods that create and rebuild the matrices of the store *)

Section store.
Context `{NumpyRandom} `{FastTextInner}.

Lemma set_vectors_row_frame (i : nat) (v : vec) (s : FastTextKeyedVectors)
    (r : res unit) (s' : FastTextKeyedVectors) :
  set_vectors_row i v s = (r, s') → ∃ M, s' = set_vectors M s.
Proof.
  unfold set_vectors_row, setitem, mbind, meth_bind, get, lift, modify.
  case_decide; intros [= <- <-]; [by eexists|].
  exists (vectors s). by rewrite set_vectors_id.
Qed.

Lemma for_each_frame {A} (body : A → meth FastTextKeyedVectors unit)
    (l : list A) :
  (∀ x s r s', body x s = (r, s') → ∃ M, s' = set_vectors M s) →
  ∀ s r s', for_each l body s = (r, s') → ∃ M, s' = set_vectors M s.
Proof.
  intros Hbody. induction l as [|x l IH]; intros s r s'.
  - intros [= <- <-]. exists (vectors s). by rewrite set_vectors_id.
  - cbn [for_each]. unfold mbind, meth_bind.
    destruct (body x s) as [[[]|e] s1] eqn:Hx;
      apply Hbody in Hx as [M1 ->].
    + intros Hl. apply IH in Hl as [M ->]. by exists M.
    + intros [= <- <-]. by exists M1.
Qed.

Lemma adjust_row_frame (iw : nat * string) (s : FastTextKeyedVectors)
    (r : res unit) (s' : FastTextKeyedVectors) :
  adjust_row iw s = (r, s') → ∃ M, s' = set_vectors M s.
Proof.
  unfold adjust_row. unfold mbind at 1 2, meth_bind at 1 2, get at 1, lift at 1.
  destruct (ft_ngram_hashes _ _ _ _ _) as [hs|e].
  2: { intros [= <- <-]. exists (vectors s). by rewrite set_vectors_id. }
  unfold mbind at 1, meth_bind at 1.
  destruct (for_each hs _ s) as [[[]|e] s1] eqn:Hloop.
  - apply for_each_frame in Hloop as [M1 ->].
    + unfold mbind, meth_bind, get, lift.
      destruct (getitem _ _) as [v|e]; [|intros [= <- <-]; by exists M1].
      intros Hrow. apply set_vectors_row_frame in Hrow as [M ->]. by exists M.
    + clear. intros nh s r s'. unfold mbind, meth_bind, get, lift.
      destruct (getitem _ _) as [v|e].
      2: { intros [= <- <-]. exists (vectors s). by rewrite set_vectors_id. }
      destruct (getitem _ _) as [row|e].
      2: { intros [= <- <-]. exists (vectors s). by rewrite set_vectors_id. }
      apply set_vectors_row_frame.
  - apply for_each_frame in Hloop as [M1 ->].
    + intros [= <- <-]. by exists M1.
    + clear. intros nh s r s'. unfold mbind, meth_bind, get, lift.
      destruct (getitem _ _) as [v|e].
      2: { intros [= <- <-]. exists (vectors s). by rewrite set_vectors_id. }
      destruct (getitem _ _) as [row|e].
      2: { intros [= <- <-]. exists (vectors s). by rewrite set_vectors_id. }
      apply set_vectors_row_frame.
Qed.

(** Whatever its outcome, [adjust_vectors] touches the composite matrix
    only. *)
Lemma adjust_vectors_frame (s : FastTextKeyedVectors) (r : res unit)
    (s' : FastTextKeyedVectors) :
  adjust_vectors s = (r, s') → ∃ M, s' = set_vectors M s.
Proof.
  unfold adjust_vectors. unfold mbind at 1, meth_bind at 1, get at 1.
  destruct (bucket s =? 0).
  - intros [= <- <-]. exists (vectors s). by rewrite set_vectors_id.
  - unfold mbind, meth_bind, modify. intros Hloop.
    apply (for_each_frame _ _ adjust_row_frame) in Hloop as [M ->].
    by exists M.
Qed.

(** With buckets, [adjust_vectors] does not read the composite matrix. *)
Lemma adjust_vectors_fresh (s : FastTextKeyedVectors) (M : matrix) :
  bucket s ≠ 0 → adjust_vectors (set_vectors M s) = adjust_vectors s.
Proof.
  intros Hb. unfold adjust_vectors, mbind, meth_bind, get, modify. simpl.
  by destruct (Z.eqb_spec (bucket s) 0).
Qed.

(** X9: whatever its outcome, [adjust_vectors] changes no attribute of the
    store but the composite matrix [vectors]; with a bucket count other
    than zero its outcome does not depend on the composite matrix it
    finds; and it is idempotent: run again on the store it leaves, it has
    the same outcome and leaves the store as it is. *)
Theorem adjust_vectors_idempotent (self self' : FastTextKeyedVectors)
    (r : res unit) :
  adjust_vectors self = (r, self') →
  self' = set_vectors (vectors self') self ∧
  (bucket self ≠ 0 →
   ∀ M, adjust_vectors (set_vectors M self) = (r, self')) ∧
  adjust_vectors self' = (r, self').
Proof.
  intros Hadj. destruct (adjust_vectors_frame _ _ _ Hadj) as [M HM].
  split; [by rewrite HM|]. split.
  - intros Hb M'. by rewrite adjust_vectors_fresh.
  - destruct (Z.eqb_spec (bucket self) 0) as [Hb|Hb].
    + unfold adjust_vectors, mbind, meth_bind, get in Hadj.
      rewrite Hb in Hadj. simpl in Hadj. injection Hadj as <- <-.
      unfold adjust_vectors, mbind, meth_bind, get. by rewrite Hb.
    + rewrite HM at 1. by rewrite adjust_vectors_fresh.
Qed.

(** With one bucket row per bucket and a vocabulary row for every word,
    [adjust_vectors] returns normally. *)
Lemma adjust_vectors_Ok (s : FastTextKeyedVectors) :
  0 ≤ bucket s →
  length (rows (vectors_ngrams s)) = Z.to_nat (bucket s) →
  (length (index2key s) ≤ length (rows (vectors_vocab s)))%nat →
  ∃ M, adjust_vectors s = (Ok tt, set_vectors M s) ∧
       (0 < bucket s → shape M = shape (vectors_vocab s)).
Proof.
  intros Hb Hlen Hvocab. destruct (Z.eqb_spec (bucket s) 0) as [Hz|Hnz].
  - exists (vectors s). split; [|lia].
    unfold adjust_vectors, mbind, meth_bind, get.
    by rewrite Hz, set_vectors_id.
  - set (s1 := set_vectors (vectors_vocab s) s).
    destruct (adjust_rows_loop (index2key s) 0 s1)
      as (R' & Hloop & HlenR & _); [simpl; lia|done..|].
    exists {| rows := R'; columns := columns (vectors_vocab s) |}. split.
    + unfold adjust_vectors, mbind, meth_bind, get, modify.
      destruct (Z.eqb_spec (bucket s) 0) as [?|_]; [lia|].
      unfold enumerate. fold s1. by rewrite Hloop.
    + intros _. unfold shape. simpl. by rewrite HlenR.
Qed.

Lemma uniform_rows_app (g : rng) (c n k : nat) :
  uniform_rows g c (n + k) =
  uniform_rows g c n ++ uniform_rows (uniform_advance g c n) c k.
Proof.
  revert g. induction n as [|n IH]; intros g; [done|].
  cbn [Nat.add uniform_rows uniform_advance].
  destruct (uniform_row g c) as [row g']. simpl. by rewrite IH.
Qed.


(** X11: [init_post_load] raises [AssertionError], leaving the store as it
    was, unless the loaded matrix has one row per word plus one per bucket
    and [vector_size] columns. With such a matrix and a bucket count that
    is not negative, its first rows, one per word, become [vectors_vocab]
    and the remaining ones, one per bucket, become [vectors_ngrams],
    nothing being lost; the bucket lists are reset; and when every indexed
    word has a vocabulary row it returns normally, with a composite matrix
    of the shape of [vectors_vocab] when there are buckets. *)
Theorem init_post_load_split (fb_vectors : matrix)
    (self self' : FastTextKeyedVectors) (r : res unit) :
  init_post_load fb_vectors self = (r, self') →
  (¬ (Z.of_nat (length (rows fb_vectors)) =
        Z.of_nat (length (vocab self)) + bucket self ∧
      columns fb_vectors = vector_size self) →
   r = Raise AssertionError ∧ self' = self) ∧
  (Z.of_nat (length (rows fb_vectors)) =
     Z.of_nat (length (vocab self)) + bucket self →
   columns fb_vectors = vector_size self →
   0 ≤ bucket self →
   rows (vectors_vocab self') ++ rows (vectors_ngrams self') = rows fb_vectors ∧
   shape (vectors_vocab self') = (length (vocab self), vector_size self) ∧
   shape (vectors_ngrams self') = (Z.to_nat (bucket self), vector_size self) ∧
   buckets_word self' = None ∧
   ((length (index2key self) ≤ length (vocab self))%nat →
    r = Ok tt ∧
    (0 < bucket self → shape (vectors self') = shape (vectors_vocab self')))).
Proof.
  unfold init_post_load. unfold mbind at 1, meth_bind at 1, get at 1, shape.
  cbn [fst snd].
  destruct (Z.eqb_spec (Z.of_nat (length (rows fb_vectors)))
              (Z.of_nat (length (vocab self)) + bucket self)) as [Hrows|Hrows];
    cbn [negb].
  2: { intros [= <- <-]. split; [done|]. intros. lia. }
  destruct (Nat.eqb_spec (columns fb_vectors) (vector_size self)) as [Hcols|Hcols];
    cbn [negb].
  2: { intros [= <- <-]. split; [done|]. intros. lia. }
  unfold mbind, meth_bind, modify.
  set (s3 := set_buckets_word None _). intros Hadj.
  split; [tauto|]. intros _ _ Hb.
  destruct (adjust_vectors_frame _ _ _ Hadj) as [M ->]. simpl.
  rewrite take_drop, length_take, length_drop.
  split; [done|]. split; [f_equal; [lia|done]|].
  split; [f_equal; [lia|done]|]. split; [done|].
  intros Hindex.
  destruct (adjust_vectors_Ok s3) as (M' & Hok & Hshape).
  { done. } { subst s3. simpl. rewrite length_drop. lia. }
  { subst s3. simpl. rewrite length_take. lia. }
  rewrite Hok in Hadj. injection Hadj as <- <-. split; [done|].
  intros Hpos. specialize (Hshape Hpos). subst s3. unfold shape in Hshape.
  simpl in Hshape. by rewrite length_take in Hshape.
Qed.

(** X12: [_try_upgrade] can change only [vectors_ngrams] and
    [compatible_hash], and leaves the store as it was when it raises. On
    normal return a store that had the packed layout has one bucket row
    per bucket, with the columns it had, and a store that lacked the
    attribute [compatible_hash] has it set to [False]. A store without
    packed layout is never rejected, and its matrix is kept. *)
Theorem _try_upgrade_outcome (hash2index : option (list (nat * nat)))
    (has_compatible_hash : bool) (self self' : FastTextKeyedVectors)
    (r : res unit) :
  _try_upgrade hash2index has_compatible_hash self = (r, self') →
  self' = set_compatible_hash (compatible_hash self')
            (set_vectors_ngrams (vectors_ngrams self') self) ∧
  (r ≠ Ok tt → self' = self) ∧
  (r = Ok tt →
   compatible_hash self' =
     (if has_compatible_hash then compatible_hash self else false) ∧
   (is_Some hash2index →
    Z.of_nat (length (rows (vectors_ngrams self'))) = bucket self' ∧
    columns (vectors_ngrams self') = columns (vectors_ngrams self))) ∧
  (hash2index = None →
   r = Ok tt ∧ vectors_ngrams self' = vectors_ngrams self).
Proof.
  unfold _try_upgrade, _rollback_optimization.
  change (logger "warning") with (Ok tt).
  unfold mbind, meth_bind, get, modify, lift, mret, meth_ret.
  destruct hash2index as [h2i|].
  - destruct (_unpack (vectors_ngrams self) (bucket self) h2i 1) as [m|e] eqn:Hm.
    + apply _unpack_shape in Hm as [Hrows Hcols].
      destruct has_compatible_hash; intros [= <- <-]; simpl;
        (split; [by destruct self|]); (split; [done|]); by split.
    + intros [= <- <-]. split; [by destruct self|]. by repeat split.
  - destruct has_compatible_hash; intros [= <- <-]; simpl;
      (split; [by destruct self|]); repeat split; try done;
      by intros [? [=]].
Qed.

End store.

(** ** The model: lock factors, the checks after loading, and the memory
    estimate *)

Section model_facts.
Context `{NumpyRandom} `{FastTextInner} {real : Type} (one : real).

Lemma on_wv_Ok_inv {A} (m : meth FastTextKeyedVectors A)
    (s s' : model.FastText (real := real)) (a : A) :
  model.on_wv m s = (Ok a, s') →
  ∃ kv, m (model.wv s) = (Ok a, kv) ∧ s' = model.set_wv kv s.
Proof.
  unfold model.on_wv. destruct (m (model.wv s)) as [r kv].
  intros [= -> <-]. eauto.
Qed.

(** X21: when [prepare_weights] returns normally, whatever the method of
    the base class does, each of the two arrays of lock factors has one
    entry per row of its matrix. Without [update] all entries are ones;
    with [update] the arrays that the base class method left are kept and
    extended by ones. *)
Theorem prepare_weights_lockf
    (super_prepare_weights : bool → meth (model.FastText (real := real)) unit)
    (update : bool) (self self' : model.FastText) :
  model.prepare_weights one super_prepare_weights update self = (Ok tt, self') →
  length (model.vectors_vocab_lockf self') =
    model.len (vectors_vocab (model.wv self')) ∧
  length (model.vectors_ngrams_lockf self') =
    model.len (vectors_ngrams (model.wv self')) ∧
  ∃ s1,
    super_prepare_weights update self = (Ok tt, s1) ∧
    if update then
      model.vectors_vocab_lockf self' =
        model.vectors_vocab_lockf s1 ++
        replicate (model.len (vectors_vocab (model.wv self')) -
                   length (model.vectors_vocab_lockf s1)) one ∧
      model.vectors_ngrams_lockf self' =
        model.vectors_ngrams_lockf s1 ++
        replicate (model.len (vectors_ngrams (model.wv self')) -
                   length (model.vectors_ngrams_lockf s1)) one
    else
      model.vectors_vocab_lockf self' =
        replicate (model.len (vectors_vocab (model.wv self'))) one ∧
      model.vectors_ngrams_lockf self' =
        replicate (model.len (vectors_ngrams (model.wv self'))) one.
Proof.
  unfold model.prepare_weights. intros Hrun.
  apply meth_bind_Ok_inv in Hrun as ([] & s1 & Hsuper & Hrun).
  destruct update; cbn [negb] in Hrun.
  - apply meth_bind_Ok_inv in Hrun as (? & ? & [= <- <-] & Hrun).
    apply meth_bind_Ok_inv in Hrun as ([] & s2 & Hupd & Hrun).
    apply on_wv_Ok_inv in Hupd as (kv & _ & ->).
    apply meth_bind_Ok_inv in Hrun as (? & ? & [= <- <-] & Hrun).
    apply meth_bind_Ok_inv in Hrun as (l1 & ? & Hpad1 & Hrun).
    injection Hpad1 as Hpad1 <-.
    apply _pad_ones_Ok_inv in Hpad1 as [Hle1 ->].
    apply meth_bind_Ok_inv in Hrun as ([] & ? & [= <-] & Hrun).
    apply meth_bind_Ok_inv in Hrun as (? & ? & [= <- <-] & Hrun).
    apply meth_bind_Ok_inv in Hrun as (l2 & ? & Hpad2 & Hrun).
    injection Hpad2 as Hpad2 <-.
    apply _pad_ones_Ok_inv in Hpad2 as [Hle2 ->].
    injection Hrun as <-. simpl in *.
    rewrite !length_app, !length_replicate, !Nat2Z.id.
    split; [lia|]. split; [lia|]. by exists s1.
  - apply meth_bind_Ok_inv in Hrun as (? & ? & [= <- <-] & Hrun).
    apply meth_bind_Ok_inv in Hrun as ([] & s2 & Hinit & Hrun).
    apply on_wv_Ok_inv in Hinit as (kv & _ & ->).
    injection Hrun as <-. simpl.
    rewrite !length_replicate. split; [done|]. split; [done|]. by exists s1.
Qed.

(** What [init_post_load] of the store leaves on normal return. *)
Lemma init_post_load_Ok_inv (fb_vectors : matrix)
    (kv kv' : FastTextKeyedVectors) :
  init_post_load fb_vectors kv = (Ok tt, kv') →
  columns (vectors_ngrams kv') = vector_size kv' ∧
  vector_size kv' = vector_size kv ∧ vocab kv' = vocab kv ∧
  rows (vectors_ngrams kv') = drop (length (vocab kv)) (rows fb_vectors) ∧
  rows (vectors_vocab kv') = take (length (vocab kv)) (rows fb_vectors).
Proof.
  unfold init_post_load. unfold mbind at 1, meth_bind at 1, get at 1, shape.
  cbn [fst snd].
  destruct (Z.eqb_spec (Z.of_nat (length (rows fb_vectors)))
              (Z.of_nat (length (vocab kv)) + bucket kv)) as [Hrows|Hrows];
    cbn [negb]; [|done].
  destruct (Nat.eqb_spec (columns fb_vectors) (vector_size kv)) as [Hcols|Hcols];
    cbn [negb]; [|done].
  unfold mbind, meth_bind, modify. intros Hadj.
  destruct (adjust_vectors_frame _ _ _ Hadj) as [M ->]. by simpl.
Qed.

(** X22: the last steps of loading a native model, [init_post_load] of
    the store followed by [init_post_load] of the model, when both return
    normally: the array of lock factors of the vocabulary has two
    entries, whatever the number of words, while the one of the buckets
    has an entry per bucket row; [layer1_size] is the vector size; and
    the first assertion of [_check_model] holds, so that [_check_model]
    returns normally exactly when the hidden layer, if it is there, has
    as many columns as the vector size and the vocabulary has [nwords]
    words. *)
Theorem load_post_checks (fb_vectors : matrix) (hidden_output : option matrix)
    (self s1 s2 : model.FastText (real := real)) :
  model.on_wv (init_post_load fb_vectors) self = (Ok tt, s1) →
  model.init_post_load one hidden_output s1 = (Ok tt, s2) →
  length (model.vectors_vocab_lockf s2) = 2%nat ∧
  length (model.vectors_ngrams_lockf s2) =
    model.len (vectors_ngrams (model.wv s2)) ∧
  model.layer1_size s2 = Z.of_nat (vector_size (model.wv s2)) ∧
  columns (vectors_ngrams (model.wv s2)) = vector_size (model.wv s2) ∧
  model.syn1neg s2 =
    (if model.negative self =? 0 then model.syn1neg self else hidden_output) ∧
  (model._check_model s2 = Ok tt ↔
   match model.syn1neg s2 with
   | Some h => columns h = vector_size (model.wv s2)
   | None => True
   end ∧
   Z.of_nat (length (vocab (model.wv s2))) = model.nwords s2).
Proof.
  intros Hwv Hmodel.
  apply on_wv_Ok_inv in Hwv as (kv & Hkv & ->).
  apply init_post_load_Ok_inv in Hkv as (Hcols & _).
  unfold model.init_post_load in Hmodel.
  apply meth_bind_Ok_inv in Hmodel as (? & ? & [= <- <-] & Hmodel).
  cbn [model.wv model.set_wv] in Hmodel.
  destruct (negb _); [done|]. destruct (negb _); [done|].
  unfold mbind, meth_bind, get, modify, mret, meth_ret in Hmodel.
  simpl in Hmodel.
  destruct (model.hs self =? 0) eqn:Hhs, (model.negative self =? 0) eqn:Hneg;
    simpl in Hmodel; rewrite ?Hhs, ?Hneg in Hmodel; simpl in Hmodel;
    injection Hmodel as <-; simpl;
    rewrite ?length_replicate;
    (split; [done|]); (split; [done|]); (split; [done|]);
    (split; [done|]); (split; [done|]);
    unfold model._check_model, shape; simpl;
    rewrite Hcols, Nat.eqb_refl; simpl.
  all: repeat match goal with
       | |- context [match ?x with Some _ => _ | None => _ end] =>
           destruct x as [h|]
       end; simpl.
  all: repeat match goal with
       | |- context [(?a =? ?b)%nat] => destruct (Nat.eqb_spec a b)
       | |- context [?a =? ?b] => destruct (Z.eqb_spec a b)
       end; simpl; try change (logger "warning") with (Ok tt);
       split; (try done); (try tauto); try (intros [? ?]; congruence).
Qed.

(** *** The memory estimate *)

Lemma set_update_NoDup (xs : list Z) :
  ∀ s, NoDup s → NoDup (set_update s xs).
Proof.
  unfold set_update. induction xs as [|x xs IH]; intros s Hs; [done|].
  simpl. apply IH. case_decide; [done|].
  apply NoDup_app. split; [done|]. split; [|apply NoDup_singleton].
  intros y Hy Hx. apply list_elem_of_singleton in Hx. by subst.
Qed.

Lemma set_update_elem (x : Z) (xs : list Z) :
  ∀ s, x ∈ set_update s xs ↔ x ∈ s ∨ x ∈ xs.
Proof.
  unfold set_update. induction xs as [|y xs IH]; intros s; simpl.
  - split; [by left | intros [?|Hin]; [done | by inversion Hin]].
  - rewrite IH, elem_of_cons. case_decide.
    + split; [tauto|]. intros [?|[->|?]]; auto.
    + rewrite elem_of_app, list_elem_of_singleton. tauto.
Qed.

Lemma elem_of_range (n x : Z) : x ∈ range n ↔ 0 ≤ x < n.
Proof.
  unfold range. rewrite list_elem_of_fmap. split.
  - intros (i & -> & Hi). apply elem_of_seq in Hi. lia.
  - intros Hx. exists (Z.to_nat x). split; [lia|]. apply elem_of_seq. lia.
Qed.

(** The loop of [estimate_memory] collects the distinct buckets of the
    vocabulary. *)
Lemma count_buckets_loop (minn maxn b : Z) (c : bool) (words : list string) :
  b ≠ 0 →
  ∀ (n0 : Z) (b0 : list Z), NoDup b0 →
    ∃ n' b',
      foldM
        (λ (acc : Z * list Z) word,
           hashes ← ft_ngram_hashes word minn maxn b c;
           Ok (acc.1 + Z.of_nat (length hashes), set_update acc.2 hashes))
        (n0, b0) words = Ok (n', b') ∧
      NoDup b' ∧
      (∀ h, h ∈ b' ↔
            h ∈ b0 ∨ ∃ word hs, word ∈ words ∧
                                ft_ngram_hashes word minn maxn b c = Ok hs ∧
                                h ∈ hs).
Proof.
  intros Hb. induction words as [|w words IH]; intros n0 b0 Hnd.
  - exists n0, b0. split; [done|]. split; [done|]. intros h. split; [by left|].
    intros [?|(? & ? & Hin & _)]; [done | by inversion Hin].
  - cbn [foldM]. rewrite ft_ngram_hashes_nonzero by done. rewrite bind_Ok.
    cbn [fst snd]. set (hs := map _ _).
    destruct (IH (n0 + Z.of_nat (length hs)) (set_update b0 hs))
      as (n' & b' & Hloop & Hnd' & Helem); [by apply set_update_NoDup|].
    exists n', b'. split; [done|]. split; [done|]. intros h.
    rewrite Helem, set_update_elem. split.
    + intros [[?|Hh]|(word & hs' & Hin & Hhs & Hh)]; [by left|right..].
      * exists w, hs. split; [left|]. split; [|done].
        by apply ft_ngram_hashes_nonzero.
      * exists word, hs'. split; [by right | done].
    + intros [?|(word & hs' & Hin & Hhs & Hh)]; [by left; left|].
      apply elem_of_cons in Hin as [->|Hin].
      * rewrite ft_ngram_hashes_nonzero in Hhs by done.
        injection Hhs as <-. left. by right.
      * right. by exists word, hs'.
Qed.

(** X23: the memory estimate of a model with a vocabulary, subword
    information and a positive bucket count. It does not raise; its
    entry [syn0_ngrams] is the size of one vector times the number of
    distinct buckets that the ngrams of the vocabulary hash to, which is
    at most the bucket count: the estimate covers the buckets in use,
    not the [bucket] rows that the matrix has. *)
Theorem estimate_memory_buckets (self : model.FastText (real := real))
    (vocab_size : option Z) (report : option (list (string * Z))) :
  vocab (model.wv self) ≠ [] →
  0 < model.word_ngrams self →
  0 < model.bucket self →
  ∃ rep buckets,
    model.estimate_memory self vocab_size report = Ok rep ∧
    NoDup buckets ∧
    (∀ h, h ∈ buckets ↔
          ∃ word hs,
            word ∈ (vocab (model.wv self)).*1 ∧
            ft_ngram_hashes word (min_n (model.wv self)) (max_n (model.wv self))
              (model.bucket self) (compatible_hash (model.wv self)) = Ok hs ∧
            h ∈ hs) ∧
    dict_get "syn0_ngrams"%string rep =
      Some (Z.of_nat (length buckets) * (model.vector_size self * 4)) ∧
    Z.of_nat (length buckets) ≤ model.bucket self.
Proof.
  intros Hvocab Hngrams Hbucket.
  destruct (count_buckets_loop (min_n (model.wv self)) (max_n (model.wv self))
              (model.bucket self) (compatible_hash (model.wv self))
              (vocab (model.wv self)).*1 ltac:(lia) 0 [] (NoDup_nil_2))
    as (n & buckets & Hloop & Hnd & Helem).
  assert (Z.of_nat (length buckets) ≤ model.bucket self) as Hbound.
  { assert (length buckets ≤ length (range (model.bucket self)))%nat as Hle.
    { apply submseteq_length, NoDup_submseteq; [done|].
      intros h Hh. apply elem_of_range.
      apply Helem in Hh as [Hh|(word & hs & _ & Hhs & Hh)]; [by inversion Hh|].
      apply ft_ngram_hashes_range in Hhs; [|done].
      rewrite Forall_forall in Hhs. by apply Hhs. }
    unfold range in Hle. rewrite length_fmap, length_seq in Hle. lia. }
  exists (let words := Z.of_nat (length (vocab (model.wv self))) in
          let vec_size := model.vector_size self * 4 in
          let l1_size := model.layer1_size self * 4 in
          let report := default [] report in
          let report :=
            dict_set "vocab"%string
              (words * (if model.hs self =? 0 then 500 else 700)) report in
          let report := dict_set "syn0_vocab"%string (words * vec_size) report in
          let report :=
            if model.hs self =? 0 then report
            else dict_set "syn1"%string (words * l1_size) report in
          let report :=
            if model.negative self =? 0 then report
            else dict_set "syn1neg"%string (words * l1_size) report in
          let report :=
            dict_set "syn0_ngrams"%string
              (Z.of_nat (length buckets) * vec_size) report in
          let report :=
            dict_set "buckets_word"%string (48 * words + 8 * n) report in
          dict_set "total"%string (foldr Z.add 0 report.*2) report), buckets.
  split; [|split; [done|split; [|split; [|done]]]].
  - unfold model.estimate_memory, model.count_buckets, model.itemsize.
    assert ((0 <? model.word_ngrams self) = true) as -> by lia.
    assert ((Z.of_nat (length (vocab (model.wv self))) =? 0) = false) as ->.
    { destruct (vocab (model.wv self)); [done | simpl; lia]. }
    assert ((model.bucket self =? 0) = false) as -> by lia.
    cbn [andb negb]. rewrite Hloop. reflexivity.
  - intros h. rewrite Helem. split; [|by right].
    intros [Hh|?]; [by inversion Hh | done].
  - cbv zeta. rewrite !TokenSurveySpec.dict_get_set.
    rewrite decide_False by done. rewrite decide_False by done.
    by rewrite decide_True.
Qed.

(** X24: the memory estimate of a model with a vocabulary or without
    subword information, started without a report. It does not depend on
    the argument [vocab_size]; its entry [total] is the sum of its other
    entries; and when the report it returns is passed to a second call,
    the old total is summed with the other entries: the second report
    has the same names, and twice the total. *)
Theorem estimate_memory_total (self : model.FastText (real := real))
    (vocab_size vocab_size' : option Z) :
  vocab (model.wv self) ≠ [] ∨ model.word_ngrams self ≤ 0 →
  ∃ rep rep' total,
    model.estimate_memory self vocab_size None = Ok rep ∧
    model.estimate_memory self vocab_size' None = Ok rep ∧
    dict_get "total"%string rep = Some total ∧
    foldr Z.add 0 rep.*2 = 2 * total ∧
    model.estimate_memory self vocab_size (Some rep) = Ok rep' ∧
    rep'.*1 = rep.*1 ∧
    dict_get "total"%string rep' = Some (2 * total).
Proof.
  intros Hvocab. unfold model.estimate_memory, model.itemsize.
  assert (model.bucket self ≠ 0 →
          ∃ n buckets, model.count_buckets self = Ok (n, buckets)) as Hcount.
  { intros Hb.
    destruct (count_buckets_loop (min_n (model.wv self)) (max_n (model.wv self))
                (model.bucket self) (compatible_hash (model.wv self))
                (vocab (model.wv self)).*1 Hb 0 [] (NoDup_nil_2))
      as (n & buckets & Hloop & _). by exists n, buckets. }
  change (logger "info") with (Ok tt).
  set (words := Z.of_nat (length (vocab (model.wv self)))).
  assert ((0 <? model.word_ngrams self) && (words =? 0) = false) as Hwarn.
  { destruct Hvocab as [Hv|Hw].
    - assert ((words =? 0) = false) as ->; [|by rewrite andb_false_r].
      subst words. destruct (vocab (model.wv self)); [done | simpl; lia].
    - by assert ((0 <? model.word_ngrams self) = false) as -> by lia. }
  generalize dependent words. intros words Hwarn.
  generalize (model.vector_size self * 4) (model.layer1_size self * 4).
  intros vec l1.
  destruct (model.hs self =? 0), (model.negative self =? 0),
    (0 <? model.word_ngrams self), (words =? 0) eqn:Hwords;
    try discriminate Hwarn; cbn [andb negb default].
  all: try (destruct (Z.eqb_spec (model.bucket self) 0) as [Hb|Hb];
            [|destruct (Hcount Hb) as (n & buckets & ->)]).
  all: cbv -[Z.add Z.mul]; eexists _, _, _;
    (split; [reflexivity|]); (split; [reflexivity|]);
    (split; [reflexivity|]); (split; [cbv -[Z.add Z.mul]; ring|]);
    (split; [reflexivity|]); (split; [reflexivity|]);
    cbv -[Z.add Z.mul]; f_equal; ring.
Qed.

End model_facts.

Section examples.
#[local] Existing Instances term_float32 term_random spec_inner term_base.

(** The three ngrams of [cat] over five buckets. *)
Lemma ft_ngram_hashes_buckets_witness :
  ∃ hs, ft_ngram_hashes "cat" 3 3 5 true = Ok hs ∧
        length hs = 3%nat ∧ Forall (λ h, 0 ≤ h < 5) hs.
Proof.
  destruct (ft_ngram_hashes_buckets "cat" 3 3 5 true)
    as (hs & Hok & _ & Hlen & Hpos & _); [lia|].
  exists hs. split; [exact Hok|]. split; [exact Hlen|]. apply Hpos. lia.
Defined.

(** The bucket lists of the vocabulary [a], [cat] over five buckets. *)
Lemma _process_fasttext_vocab_lookup_witness :
  ∃ word_indices,
    _process_fasttext_vocab example_vocab 3 3 5 true = Ok word_indices ∧
    word_indices.*1 = [0; 1]%nat ∧
    Forall (λ il, Forall (λ h, 0 ≤ h < 5) il.2) word_indices.
Proof.
  destruct (_process_fasttext_vocab_lookup example_vocab 3 3 5 true)
    as (wi & Hok & Hkeys & _ & Hall).
  - lia.
  - apply (bool_decide_unpack _). vm_compute. exact I.
  - exists wi. split; [exact Hok|]. split; [exact Hkeys | exact Hall].
Defined.

(** Lock factors padded from two entries to three, and from three to
    five. *)
Lemma _pad_ones_pads_witness :
  _pad_ones 1 [7; 7] 3 = Ok [7; 7; 1] ∧
  (m' ← _pad_ones 1 [7; 7] 3; _pad_ones 1 m' 5) = _pad_ones 1 [7; 7] 5.
Proof.
  destruct (_pad_ones_pads 1 [7; 7] 3 5) as [_ Hpad].
  destruct Hpad as [Hone Htwo]; [simpl; lia|].
  split; [exact Hone|]. apply Htwo. lia.
Defined.


(** Three packed rows unpacked into five buckets; the result is returned
    as it is by a second call. *)
Lemma _unpack_natural_witness :
  let m' := {| rows := [Given 2; Drawn 1 1 1; Given 0; Drawn 1 0 1; Given 1];
               columns := 1%nat |} in
  _unpack (given_rows 0 3 1) 5 [(0, 2); (4, 1)]%nat 1 = Ok m' ∧
  Z.of_nat (length (rows m')) = 5 ∧
  _unpack m' 5 [(1, 0)]%nat 7 = Ok m'.
Proof.
  intros m'.
  assert (_unpack (given_rows 0 3 1) 5 [(0, 2); (4, 1)]%nat 1 = Ok m') as Hm'
    by reflexivity.
  destruct (_unpack_natural (given_rows 0 3 1) m' 5 [(0, 2); (4, 1)]%nat 1)
    as (Hrows & _ & Hfix).
  - left. exact Hm'.
  - split; [exact Hm'|]. split; [exact Hrows|]. apply Hfix.
Defined.

(** Two packed rows copied into three buckets by the map [{2: 0, 0: 1}]. *)
Lemma _unpack_copy_spec_witness :
  ∃ n, _unpack_copy (given_rows 0 2 1) 3 [(2, 0); (0, 1)]%nat 1 = Ok n ∧
       shape n = (3%nat, 1%nat) ∧
       ∀ h i, (h, i) ∈ [(2, 0); (0, 1)]%nat →
              rows n !! h = rows (given_rows 0 2 1) !! i.
Proof.
  destruct (_unpack_copy_spec (given_rows 0 2 1) 3 [(2, 0); (0, 1)]%nat 1)
    as (n & Hn & Hshape & Hrows & _).
  - split; [lia | reflexivity].
  - simpl. lia.
  - simpl. lia.
  - apply (bool_decide_unpack _). vm_compute. exact I.
  - repeat constructor; simpl; lia.
  - exists n. split; [exact Hn|]. split; [exact Hshape | exact Hrows].
Defined.

(** The map [{0: 5}] over two packed rows and three buckets: index 5 names
    no packed row, and only [_unpack_copy] raises. *)
Lemma _unpack_accepts_witness :
  (∃ m', _unpack (given_rows 0 2 1) 3 [(0, 5)]%nat 1 = Ok m') ∧
  ¬ (∃ n, _unpack_copy (given_rows 0 2 1) 3 [(0, 5)]%nat 1 = Ok n).
Proof.
  destruct (_unpack_accepts (given_rows 0 2 1) 3 [(0, 5)]%nat 1)
    as (Hcopy & Hunpack & _).
  - split; [lia | reflexivity].
  - simpl. lia.
  - simpl. lia.
  - apply (bool_decide_unpack _). vm_compute. exact I.
  - split.
    + apply Hunpack. repeat constructor; simpl in *; lia.
    + rewrite Hcopy. intros Hall. apply Forall_cons in Hall as [[_ Hi] _].
      simpl in Hi. lia.
Defined.

(** Two packed rows and the map [{4: 0, 2: 1}] over five buckets. *)
Lemma _unpack_external_only_witness :
  ∃ m' n,
    _unpack (given_rows 0 2 1) 5 [(4, 0); (2, 1)]%nat 1 = Ok m' ∧
    _unpack_copy (given_rows 0 2 1) 5 [(4, 0); (2, 1)]%nat 1 = Ok n ∧
    ∀ h i, (h, i) ∈ [(4, 0); (2, 1)]%nat →
      rows m' !! h = rows (given_rows 0 2 1) !! i ∧
      rows n !! h = rows (given_rows 0 2 1) !! i.
Proof.
  destruct (_unpack_external_only (given_rows 0 2 1) 5 [(4, 0); (2, 1)]%nat 1)
    as (m' & n & Hm' & Hn & Hrows & _).
  - split; [lia | reflexivity].
  - simpl. lia.
  - simpl. lia.
  - apply (bool_decide_unpack _). vm_compute. exact I.
  - apply (bool_decide_unpack _). vm_compute. exact I.
  - repeat constructor; simpl; lia.
  - exists m', n. split; [exact Hm'|]. split; [exact Hn | exact Hrows].
Defined.

(** The store with five buckets: a second call, and a call on another
    composite matrix, give what the first call gives. *)
Lemma adjust_vectors_idempotent_witness :
  let out := adjust_vectors store5 in
  out.1 = Ok tt ∧
  adjust_vectors out.2 = out ∧
  adjust_vectors (set_vectors (given_rows 7 1 1) store5) = out.
Proof.
  intros out.
  destruct (adjust_vectors_idempotent store5 out.2 out.1)
    as (_ & Hfresh & Hidem).
  - vm_compute. reflexivity.
  - split; [reflexivity|]. split; [exact Hidem|].
    apply Hfresh. simpl. lia.
Defined.


(** A loaded matrix of seven rows for two words and five buckets, and one
    of six rows. *)
Lemma init_post_load_split_witness :
  let out := init_post_load (given_rows 0 7 1) store5 in
  (out.1 = Ok tt ∧
   rows (vectors_vocab out.2) ++ rows (vectors_ngrams out.2) =
     rows (given_rows 0 7 1) ∧
   shape (vectors_ngrams out.2) = (5%nat, 1%nat)) ∧
  init_post_load (given_rows 0 6 1) store5 = (Raise AssertionError, store5).
Proof.
  intros out. split.
  - destruct (init_post_load_split (given_rows 0 7 1) store5 out.2 out.1)
      as [_ Hgood]; [vm_compute; reflexivity|].
    destruct Hgood as (Hrows & _ & Hngrams & _ & Hok);
      [simpl; lia | reflexivity | simpl; lia|].
    split; [apply Hok; simpl; lia|]. split; [exact Hrows | exact Hngrams].
  - set (bad := init_post_load (given_rows 0 6 1) store5).
    destruct (init_post_load_split (given_rows 0 6 1) store5 bad.2 bad.1)
      as [Hbad _]; [vm_compute; reflexivity|].
    destruct Hbad as [Hr Hs]; [simpl; lia|].
    rewrite <- Hr, <- Hs. reflexivity.
Defined.

(** A store pickled with three packed bucket rows and without the
    attribute [compatible_hash]. *)
Lemma _try_upgrade_outcome_witness :
  let old := set_vectors_ngrams (given_rows 10 3 1) store5 in
  let out := _try_upgrade (Some [(0, 2); (4, 1)]%nat) false old in
  out.1 = Ok tt ∧
  compatible_hash out.2 = false ∧
  Z.of_nat (length (rows (vectors_ngrams out.2))) = 5.
Proof.
  intros old out.
  destruct (_try_upgrade_outcome (Some [(0, 2); (4, 1)]%nat) false old
              out.2 out.1) as (_ & _ & Hok & _).
  - vm_compute. reflexivity.
  - destruct Hok as [Hhash Hrows]; [reflexivity|].
    split; [reflexivity|]. split; [exact Hhash|].
    apply Hrows. by eexists.
Defined.

(** The vocabulary of the example model grows from one word to two: the
    lock factor 7 of the first word is kept, and a one is added. *)
Lemma prepare_weights_lockf_witness :
  let out := model.prepare_weights 1 (λ _, mret tt) true example_model in
  out.1 = Ok tt ∧
  model.vectors_vocab_lockf out.2 = [7; 1] ∧
  length (model.vectors_vocab_lockf out.2) =
    model.len (vectors_vocab (model.wv out.2)) ∧
  length (model.vectors_ngrams_lockf out.2) =
    model.len (vectors_ngrams (model.wv out.2)).
Proof.
  intros out.
  destruct (prepare_weights_lockf 1 (λ _, mret tt) true example_model out.2)
    as (Hvocab & Hngrams & _).
  - vm_compute. reflexivity.
  - split; [reflexivity|]. split; [reflexivity|].
    split; [exact Hvocab | exact Hngrams].
Defined.

(** A native model of two words and five buckets, with its hidden
    layer. *)
Lemma load_post_checks_witness :
  let s1 := (model.on_wv (init_post_load (given_rows 0 7 1)) example_model).2 in
  let s2 := (model.init_post_load 1 (Some (given_rows 20 2 1)) s1).2 in
  length (vocab (model.wv s2)) = 2%nat ∧
  length (model.vectors_vocab_lockf s2) = 2%nat ∧
  length (model.vectors_ngrams_lockf s2) = 5%nat ∧
  model._check_model s2 = Ok tt.
Proof.
  intros s1 s2.
  destruct (load_post_checks 1 (given_rows 0 7 1) (Some (given_rows 20 2 1))
              example_model s1 s2) as (Hvocab & _ & _ & _ & _ & Hcheck).
  - vm_compute. reflexivity.
  - vm_compute. reflexivity.
  - split; [reflexivity|]. split; [exact Hvocab|]. split; [reflexivity|].
    apply Hcheck. split; reflexivity.
Defined.

(** The estimate for the example model: at most five buckets in use. *)
Lemma estimate_memory_buckets_witness :
  ∃ rep used,
    model.estimate_memory example_model None None = Ok rep ∧
    dict_get "syn0_ngrams"%string rep = Some (used * 4) ∧
    0 ≤ used ≤ 5.
Proof.
  destruct (estimate_memory_buckets example_model None None)
    as (rep & buckets & Hrep & _ & _ & Hget & Hle).
  - discriminate.
  - simpl. lia.
  - simpl. lia.
  - exists rep, (Z.of_nat (length buckets)).
    split; [exact Hrep|]. split; [exact Hget|]. simpl in Hle. lia.
Defined.

(** The estimate for the example model, and the estimate started from
    its own report. *)
Lemma estimate_memory_total_witness :
  ∃ rep rep' total,
    model.estimate_memory example_model None None = Ok rep ∧
    model.estimate_memory example_model (Some 9) None = Ok rep ∧
    dict_get "total"%string rep = Some total ∧
    foldr Z.add 0 rep.*2 = 2 * total ∧
    model.estimate_memory example_model None (Some rep) = Ok rep' ∧
    rep'.*1 = rep.*1 ∧
    dict_get "total"%string rep' = Some (2 * total).
Proof.
  apply (estimate_memory_total example_model None (Some 9)).
  left. discriminate.
Defined.
End examples.
End FastTextExtra.

(** ** Further properties of the token survey *)

Module TokenSurveyExtra.
Import tokensurvey TokenSurveySpec.

Section dict_pop_facts.
Context {K V : Type} `{EqDecision K}.

Lemma filter_all {A} (P : A → Prop) `{∀ x, Decision (P x)} (l : list A) :
  Forall P l → filter P l = l.
Proof.
  induction 1 as [|x l Hx _ IH]; [done|].
  by rewrite filter_cons, decide_True, IH.
Qed.

Lemma dict_pop_None (k : K) (d : list (K * V)) :
  dict_pop k d = None ↔ dict_get k d = None.
Proof.
  induction d as [|[k' v] d IH]; simpl; [done|].
  case_decide; [done|].
  destruct (dict_pop k d) as [[x d'']|]; simpl; [|tauto].
  split; [done|]. intros Hget. by apply IH in Hget.
Qed.

Lemma dict_pop_Some (k : K) (d d' : list (K * V)) (v : V) :
  dict_pop k d = Some (v, d') →
  dict_get k d = Some v ∧ length d = S (length d') ∧
  (NoDup d.*1 → d' = filter (λ kv, kv.1 ≠ k) d).
Proof.
  revert d'. induction d as [|[k' v'] d IH]; intros d'; simpl; [done|].
  destruct (decide (k = k')) as [<-|Hne].
  - intros [= <- <-]. split; [done|]. split; [done|].
    rewrite NoDup_cons. intros [Hk _].
    rewrite filter_cons, decide_False by (simpl; tauto).
    symmetry. apply filter_all, Forall_forall. intros kv Hkv Heq.
    apply Hk. rewrite <- Heq. by apply (list_elem_of_fmap_2 fst) in Hkv.
  - destruct (dict_pop k d) as [[x d'']|] eqn:Hpop; simpl; [|done].
    intros [= <- <-]. destruct (IH d'' eq_refl) as (Hget & Hlen & Hfilter).
    split; [done|]. split; [simpl; by rewrite Hlen|].
    rewrite NoDup_cons. intros [_ Hnd].
    rewrite filter_cons, decide_True by (simpl; congruence).
    by rewrite <- Hfilter.
Qed.

Lemma dict_get_filter_ne (t k : K) (d : list (K * V)) :
  dict_get t (filter (λ kv, kv.1 ≠ k) d) =
  if decide (t = k) then None else dict_get t d.
Proof.
  induction d as [|[k' v] d IH]; simpl; [by case_decide|].
  rewrite filter_cons. simpl.
  destruct (decide (k' ≠ k)) as [Hk|Hk]; simpl.
  - rewrite IH. repeat case_decide; simplify_eq; done.
  - apply dec_stable in Hk. subst k'. rewrite IH.
    repeat case_decide; simplify_eq; done.
Qed.

Lemma dict_get_Some_key (k : K) (v : V) (d : list (K * V)) :
  (k, v) ∈ d → is_Some (dict_get k d).
Proof.
  intros Hin. destruct (dict_get k d) eqn:Hget; [by eexists|].
  apply dict_get_None in Hget. destruct Hget.
  by apply (list_elem_of_fmap_2 fst) in Hin.
Qed.

End dict_pop_facts.

Section pruning.
Context `{PyFloat}.

Lemma dict_pop_sum (k : token) (d d' : list (token * Z)) (v : Z) :
  dict_pop k d = Some (v, d') → sum_values d = v + sum_values d'.
Proof.
  revert d'. induction d as [|[k' v'] d IH]; intros d'; simpl; [done|].
  destruct (decide (k = k')) as [<-|Hne].
  - by intros [= <- <-].
  - destruct (dict_pop k d) as [[x d'']|] eqn:Hpop; simpl; [|done].
    intros [= <- <-]. rewrite !sum_values_cons, (IH d'' eq_refl). simpl. lia.
Qed.

(** X13: [prune_token] raises [KeyError], leaving the survey as it was,
    for a token that is not in the tally. For a token that is there it
    removes the token and nothing else from the tally, the other tokens
    keeping their counts and their order, and it adds the count of the
    token to [prune_total], raises [prune_floor] to it and advances
    [prune_count] by one, so that the token occurrences the survey
    accounts for stay the same. *)
Theorem prune_token_removes (tok : token) (s : TokenSurvey) :
  dict_wf (raw_tally s) →
  match dict_get tok (raw_tally s) with
  | None => prune_token tok s = (Raise KeyError, s)
  | Some count =>
      ∃ s', prune_token tok s = (Ok tt, s') ∧
            raw_tally s' = filter (λ kv, kv.1 ≠ tok) (raw_tally s) ∧
            dict_get tok (raw_tally s') = None ∧
            (∀ t, t ≠ tok → dict_get t (raw_tally s') = dict_get t (raw_tally s)) ∧
            __len__ s' = __len__ s - 1 ∧
            prune_count s' = prune_count s + 1 ∧
            prune_total s' = prune_total s + count ∧
            prune_floor s' = Z.max (prune_floor s) count ∧
            same_totals s s'
  end.
Proof.
  intros Hwf. unfold prune_token.
  destruct (dict_pop tok (raw_tally s)) as [[count tally]|] eqn:Hpop.
  - pose proof (dict_pop_sum _ _ _ _ Hpop) as Hsum.
    apply dict_pop_Some in Hpop as (-> & Hlen & Hfilter).
    specialize (Hfilter Hwf). subst tally.
    eexists. split; [reflexivity|]. simpl.
    split; [done|]. split; [by rewrite dict_get_filter_ne, decide_True|].
    split; [intros t Ht; by rewrite dict_get_filter_ne, decide_False|].
    split; [unfold __len__; simpl; lia|].
    repeat split; try done. unfold accounted. simpl. lia.
  - apply dict_pop_None in Hpop. by rewrite Hpop.
Qed.

End pruning.

Section callbacks.
Context `{PyFloat}.

Lemma filter_ext_in {A} (P Q : A → Prop) `{∀ x, Decision (P x)}
    `{∀ x, Decision (Q x)} (l : list A) :
  (∀ x, x ∈ l → P x ↔ Q x) → filter P l = filter Q l.
Proof.
  induction l as [|x l IH]; intros Hext; [done|].
  rewrite !filter_cons, IH by (intros; apply Hext; by right).
  destruct (decide (P x)) as [HP|HP], (decide (Q x)) as [HQ|HQ]; try done;
    exfalso; apply (Hext x) in HP || apply (Hext x) in HQ; try done; left.
Qed.

Lemma filter_wf (P : token * Z → Prop) `{∀ x, Decision (P x)}
    (d : list (token * Z)) :
  dict_wf d → dict_wf (filter P d).
Proof.
  unfold dict_wf. intros Hnd. eapply sublist_NoDup; [exact Hnd|].
  apply fmap_sublist, sublist_filter.
Qed.

(** In a dict a key has one value. *)
Lemma dict_wf_value (d : list (token * Z)) (k : token) (v v' : Z) :
  dict_wf d → (k, v) ∈ d → (k, v') ∈ d → v = v'.
Proof.
  intros Hwf Hv Hv'. apply (dict_get_elem _ _ _ Hwf) in Hv, Hv'. congruence.
Qed.

Lemma prune_token_present (tok : token) (count : Z) (s : TokenSurvey) :
  dict_wf (raw_tally s) → (tok, count) ∈ raw_tally s →
  prune_token tok s =
  (Ok tt,
   {| prune_at_size := prune_at_size s; prune_until := prune_until s;
      tenured_tokens := tenured_tokens s;
      raw_tally := filter (λ kv, kv.1 ≠ tok) (raw_tally s);
      corpus_count := corpus_count s; total_tokens := total_tokens s;
      max_raw_int := max_raw_int s; prune_count := prune_count s + 1;
      prune_floor := Z.max (prune_floor s) count;
      prune_total := prune_total s + count;
      items := items s |}) ∧
  sum_values (raw_tally s) =
    count + sum_values (filter (λ kv, kv.1 ≠ tok) (raw_tally s)) ∧
  length (raw_tally s) = S (length (filter (λ kv, kv.1 ≠ tok) (raw_tally s))).
Proof.
  intros Hwf Hin. apply (dict_get_elem _ _ _ Hwf) in Hin. unfold prune_token.
  destruct (dict_pop tok (raw_tally s)) as [[c tally]|] eqn:Hpop.
  - pose proof (dict_pop_sum _ _ _ _ Hpop) as Hsum.
    apply dict_pop_Some in Hpop as (Hget & Hlen & Hfilter).
    specialize (Hfilter Hwf). subst tally.
    assert (c = count) as -> by congruence. done.
  - apply dict_pop_None in Hpop. congruence.
Qed.

(** *** [Counter.most_common] *)

Lemma insert_by_count_Permutation (x : token * Z) (l : list (token * Z)) :
  insert_by_count x l ≡ₚ x :: l.
Proof.
  induction l as [|y l IH]; simpl; [done|].
  destruct (y.2 <=? x.2); [done|]. rewrite IH. apply Permutation_swap.
Qed.

Lemma most_common_Permutation (c : list (token * Z)) : most_common c ≡ₚ c.
Proof.
  induction c as [|x c IH]; [done|].
  change (most_common (x :: c)) with (insert_by_count x (most_common c)).
  by rewrite insert_by_count_Permutation, IH.
Qed.

Lemma insert_by_count_sorted (x : token * Z) (l : list (token * Z)) :
  StronglySorted (λ a b, b.2 ≤ a.2) l →
  StronglySorted (λ a b, b.2 ≤ a.2) (insert_by_count x l).
Proof.
  induction 1 as [|y l Hl IH Hy]; simpl; [by repeat constructor|].
  destruct (Z.leb_spec y.2 x.2) as [Hle|Hlt].
  - constructor; [by constructor|]. constructor; [done|].
    eapply Forall_impl; [exact Hy|]. intros z Hz. simpl in *. lia.
  - constructor; [done|]. rewrite insert_by_count_Permutation.
    constructor; [lia | done].
Qed.

Lemma most_common_sorted (c : list (token * Z)) :
  StronglySorted (λ a b, b.2 ≤ a.2) (most_common c).
Proof.
  induction c as [|x c IH]; [constructor|].
  change (most_common (x :: c)) with (insert_by_count x (most_common c)).
  by apply insert_by_count_sorted.
Qed.

Lemma StronglySorted_app_le {A} (R : A → A → Prop) (l1 l2 : list A) :
  StronglySorted R (l1 ++ l2) → ∀ x y, x ∈ l1 → y ∈ l2 → R x y.
Proof.
  induction l1 as [|a l1 IH]; simpl; intros Hs x y Hx Hy; [by inversion Hx|].
  apply StronglySorted_inv in Hs as [Hs Ha].
  apply elem_of_cons in Hx as [->|Hx]; [|by apply IH].
  rewrite Forall_forall in Ha. apply Ha. apply elem_of_app. by right.
Qed.

Lemma most_common_wf (c : list (token * Z)) :
  dict_wf c → NoDup (most_common c).*1 ∧ ∀ kv, kv ∈ most_common c ↔ kv ∈ c.
Proof.
  intros Hwf. split.
  - unfold dict_wf in Hwf. by rewrite most_common_Permutation.
  - intros kv. by rewrite most_common_Permutation.
Qed.

(** *** The loop of [trim_rule_callback] *)

Lemma trim_loop (keep : token → Z → bool) (l : list (token * Z)) :
  ∀ s : TokenSurvey,
    dict_wf (raw_tally s) → NoDup l.*1 →
    (∀ kv, kv ∈ l → kv ∈ raw_tally s) →
    ∃ s',
      for_each l (λ tc, if keep tc.1 tc.2 then mret tt else prune_token tc.1) s
        = (Ok tt, s') ∧
      raw_tally s' = filter (λ kv, kv ∈ l → keep kv.1 kv.2) (raw_tally s) ∧
      prune_count s' - prune_count s = __len__ s - __len__ s' ∧
      same_totals s s' ∧
      tenured_tokens s' = tenured_tokens s ∧ max_raw_int s' = max_raw_int s.
Proof.
  induction l as [|[k v] l IH]; intros s Hwf Hnd Hin.
  - exists s. split; [done|]. split.
    { symmetry. apply filter_all, Forall_forall. intros kv _ Hkv.
      by inversion Hkv. }
    unfold same_totals. repeat split; lia.
  - rewrite fmap_cons in Hnd. apply NoDup_cons in Hnd as [Hk Hnd]. simpl in Hk.
    assert ((k, v) ∈ raw_tally s) as Hkv by (apply Hin; left).
    cbn [for_each fst snd]. destruct (keep k v) eqn:Hkeep.
    + destruct (IH s Hwf Hnd) as (s' & Hloop & Htally & Hrest).
      { intros kv Hkv'. apply Hin. by right. }
      exists s'. split; [done|]. split; [|done].
      rewrite Htally. apply filter_ext_in. intros kv _. split.
      * intros Hl Hcons. apply elem_of_cons in Hcons as [->|?]; [|by apply Hl].
        simpl. by rewrite Hkeep.
      * intros Hl Hkv'. apply Hl. by right.
    + destruct (prune_token_present k v s Hwf Hkv) as (Hprune & Hsum & Hlen).
      set (s1 := {| raw_tally := filter _ _ |}) in Hprune.
      destruct (IH s1) as (s' & Hloop & Htally & Hcount & Htotals & Hten & Hmax).
      { by apply filter_wf. } { done. }
      { intros kv Hkv'. apply list_elem_of_filter. split; [|apply Hin; by right].
        intros Heq. apply Hk. rewrite <- Heq.
        by apply (list_elem_of_fmap_2 fst) in Hkv'. }
      exists s'. split; [by erewrite meth_bind_Ok by exact Hprune|].
      split; [|split; [|split; [|done]]].
      * rewrite Htally. subst s1. cbn [raw_tally].
        rewrite list_filter_filter. apply filter_ext_in. intros kv Hkv'. split.
        -- intros [Hl Hne] Hcons.
           apply elem_of_cons in Hcons as [->|?]; [done | by apply Hl].
        -- intros Hl. split; [intros ?; apply Hl; by right|].
           intros Heq. destruct kv as [k' v']. simpl in Heq. subst k'.
           assert (v' = v) as -> by exact (dict_wf_value _ _ _ _ Hwf Hkv' Hkv).
           specialize (Hl ltac:(left)). simpl in Hl. by rewrite Hkeep in Hl.
      * unfold __len__ in *. subst s1. simpl in Hcount. lia.
      * destruct Htotals as (Hacc & Htot & Hcorp & Hsize).
        unfold same_totals, accounted in *. subst s1. simpl in *.
        repeat split; try done. lia.
Qed.

(** X14: on a survey whose tally is a dict, the callback made from a trim
    rule never raises: it removes exactly the tokens the rule does not
    keep, the others staying in their order with their counts, counts
    every removed token in [prune_count], and leaves unchanged what the
    survey accounts for as well as [total_tokens] and [corpus_count]. *)
Theorem trim_rule_callback_filters (keep : token → Z → bool) (s : TokenSurvey) :
  dict_wf (raw_tally s) →
  ∃ s',
    trim_rule_callback keep s = (Ok tt, s') ∧
    raw_tally s' = filter (λ kv, keep kv.1 kv.2) (raw_tally s) ∧
    prune_count s' = prune_count s + (__len__ s - __len__ s') ∧
    same_totals s s'.
Proof.
  intros Hwf. destruct (most_common_wf _ Hwf) as [Hnd Hmem].
  destruct (trim_loop keep (most_common (raw_tally s)) s Hwf Hnd)
    as (s' & Hloop & Htally & Hcount & Htotals & _).
  { intros kv. apply Hmem. }
  exists s'. split; [done|]. split; [|split; [lia | done]].
  rewrite Htally. apply filter_ext_in. intros kv Hkv. split; [|done].
  intros Hl. apply Hl. by apply Hmem.
Qed.

(** *** The loop over the pruning candidates *)

Lemma prune_candidates_loop (target : Z) (cands : list (token * Z)) :
  ∀ (s : TokenSurvey) (h p : Z),
    dict_wf (raw_tally s) → NoDup cands.*1 →
    (∀ kv, kv ∈ cands → kv ∈ raw_tally s) →
    ∃ h' s',
      prune_candidates target cands h p s =
        (Ok (bool_decide (Z.to_nat (__len__ s - target) < length cands)%nat,
             h',
             p + Z.of_nat (length (take (Z.to_nat (__len__ s - target)) cands))),
         s') ∧
      raw_tally s' =
        filter (λ kv, kv ∉ take (Z.to_nat (__len__ s - target)) cands)
          (raw_tally s) ∧
      __len__ s' =
        __len__ s -
        Z.of_nat (length (take (Z.to_nat (__len__ s - target)) cands)) ∧
      prune_count s' - prune_count s = __len__ s - __len__ s' ∧
      same_totals s s' ∧
      tenured_tokens s' = tenured_tokens s ∧ max_raw_int s' = max_raw_int s.
Proof.
  induction cands as [|[key count] cands IH]; intros s h p Hwf Hnd Hin.
  - exists h, s. rewrite take_nil. cbn [prune_candidates length]. split.
    { rewrite bool_decide_eq_false_2 by lia.
      replace (p + Z.of_nat 0) with p by lia. done. }
    split.
    { symmetry. apply filter_all, Forall_forall. intros kv _ Hkv.
      by inversion Hkv. }
    unfold same_totals. repeat split; lia.
  - rewrite fmap_cons in Hnd. apply NoDup_cons in Hnd as [Hk Hnd]. simpl in Hk.
    assert ((key, count) ∈ raw_tally s) as Hkv by (apply Hin; left).
    cbn [prune_candidates]. unfold mbind at 1, meth_bind at 1, get at 1.
    destruct (Z.leb_spec (__len__ s) target) as [Hle|Hgt].
    + exists h, s. replace (Z.to_nat (__len__ s - target)) with 0%nat by lia.
      cbn [take length]. split.
      { rewrite bool_decide_eq_true_2 by lia.
        replace (p + Z.of_nat 0) with p by lia. done. }
      split.
      { symmetry. apply filter_all, Forall_forall. intros kv _ Hkv'.
        by inversion Hkv'. }
      unfold same_totals. repeat split; lia.
    + destruct (prune_token_present key count s Hwf Hkv)
        as (Hprune & Hsum & Hlen).
      set (s1 := {| raw_tally := filter _ _ |}) in Hprune.
      assert (__len__ s1 = __len__ s - 1) as Hlen1.
      { unfold __len__. subst s1. simpl. lia. }
      destruct (IH s1 count (p + 1))
        as (h' & s' & Hloop & Htally & Hlen' & Hcount & Htotals & Hten & Hmax).
      { by apply filter_wf. } { done. }
      { intros kv Hkv'. apply list_elem_of_filter. split; [|apply Hin; by right].
        intros Heq. apply Hk. rewrite <- Heq.
        by apply (list_elem_of_fmap_2 fst) in Hkv'. }
      replace (Z.to_nat (__len__ s - target))
        with (S (Z.to_nat (__len__ s1 - target))) by lia.
      exists h', s'. split; [|split; [|split; [|split; [|split; [|done]]]]].
      * erewrite meth_bind_Ok by exact Hprune. rewrite Hloop.
        cbn [take length]. do 3 f_equal.
        -- do 2 f_equal. apply bool_decide_ext. lia.
        -- lia.
      * rewrite Htally. subst s1. cbn [raw_tally take].
        rewrite list_filter_filter. apply filter_ext_in. intros kv Hkv'.
        rewrite not_elem_of_cons. split.
        -- intros [Hl Hne]. split; [|done]. intros ->. by apply Hne.
        -- intros [Hne Hl]. split; [done|].
           intros Heq. destruct kv as [k' v']. simpl in Heq. subst k'.
           assert (v' = count) as -> by exact (dict_wf_value _ _ _ _ Hwf Hkv' Hkv).
           done.
      * rewrite Hlen'. cbn [take length]. lia.
      * subst s1. simpl in Hcount. lia.
      * destruct Htotals as (Hacc & Htot & Hcorp & Hsize).
        unfold same_totals, accounted in *. subst s1. simpl in *.
        repeat split; try done. lia.
Qed.


End callbacks.

Section surveying.
Context `{PyFloat}.

(** *** [Counter.update] on the tokens of a text *)

Lemma count_elements_cons (c : list (token * Z)) (e : token) (elems : list token) :
  count_elements c (e :: elems) =
  count_elements (dict_set e (default 0 (dict_get e c) + 1) c) elems.
Proof. done. Qed.

Lemma count_elements_app (c : list (token * Z)) (a b : list token) :
  count_elements c (a ++ b) = count_elements (count_elements c a) b.
Proof. apply fold_left_app. Qed.

Lemma count_elements_wf (elems : list token) :
  ∀ c, dict_wf c → dict_wf (count_elements c elems).
Proof.
  induction elems as [|e elems IH]; intros c Hwf; [done|].
  rewrite count_elements_cons. apply IH. by apply dict_set_wf.
Qed.

Lemma count_elements_sum (elems : list token) :
  ∀ c, sum_values (count_elements c elems) =
       sum_values c + Z.of_nat (length elems).
Proof.
  induction elems as [|e elems IH]; intros c; [simpl; lia|].
  rewrite count_elements_cons, IH, sum_values_set. simpl. lia.
Qed.

Lemma dict_set_length {K V} `{EqDecision K} (k : K) (v : V) (d : list (K * V)) :
  (length d ≤ length (dict_set k v d))%nat.
Proof.
  induction d as [|[k' v'] d IH]; simpl; [lia|]. case_decide; simpl; lia.
Qed.

Lemma count_elements_length (elems : list token) :
  ∀ c, (length c ≤ length (count_elements c elems))%nat.
Proof.
  induction elems as [|e elems IH]; intros c; [done|].
  rewrite count_elements_cons. etrans; [|apply IH]. apply dict_set_length.
Qed.

(** The count of a token, zero when it is absent, grows by the number of
    its occurrences. *)
Lemma count_elements_count (t : token) (elems : list token) :
  ∀ c, default 0 (dict_get t (count_elements c elems)) =
       default 0 (dict_get t c) +
       Z.of_nat (length (filter (λ e, e = t) elems)).
Proof.
  induction elems as [|e elems IH]; intros c; [simpl; lia|].
  rewrite count_elements_cons, IH, dict_get_set, filter_cons.
  destruct (decide (e = t)) as [->|Hne].
  - rewrite decide_True by done. simpl. lia.
  - rewrite decide_False by done. lia.
Qed.

Lemma count_elements_keys (t : token) (elems : list token) :
  ∀ c, t ∈ (count_elements c elems).*1 ↔ t ∈ c.*1 ∨ t ∈ elems.
Proof.
  induction elems as [|e elems IH]; intros c.
  - split; [by left | intros [?|Hin]; [done | by inversion Hin]].
  - rewrite count_elements_cons, IH, dict_set_keys, elem_of_cons.
    case_decide; rewrite ?elem_of_app, ?list_elem_of_singleton;
      [|tauto].
    split; [tauto|]. intros [?|[->|?]]; auto.
Qed.

(** *** The largest plain-int token *)

Lemma max_raw_int_spec (keys : list token) :
  -1 ≤ foldr Z.max (-1) (omap is_int keys) ∧
  (∀ z, Int z ∈ keys → z ≤ foldr Z.max (-1) (omap is_int keys)) ∧
  (foldr Z.max (-1) (omap is_int keys) = -1 ∨
   Int (foldr Z.max (-1) (omap is_int keys)) ∈ keys).
Proof.
  induction keys as [|[str|z] keys IH].
  - split; [simpl; lia|]. split; [by inversion 1 | by left].
  - change (omap is_int (Str str :: keys)) with (omap is_int keys).
    destruct IH as (Hge & Hmax & Hin). split; [done|]. split.
    + intros z Hz. apply elem_of_cons in Hz as [[=]|Hz]. by apply Hmax.
    + destruct Hin as [?|?]; [by left | right; by right].
  - change (omap is_int (Int z :: keys)) with (z :: omap is_int keys).
    cbn [foldr]. set (m := foldr Z.max (-1) (omap is_int keys)) in *.
    destruct IH as (Hge & Hmax & Hin). split; [lia|]. split.
    + intros z' Hz. apply elem_of_cons in Hz as [[= ->]|Hz]; [lia|].
      specialize (Hmax _ Hz). lia.
    + destruct (Z.max_spec z m) as [[_ ->]|[_ ->]].
      * destruct Hin as [?|?]; [by left | right; by right].
      * right. left.
Qed.

(** *** Surveying below the ceiling *)

Lemma set_raw_tally_id (s : TokenSurvey) : set_raw_tally (raw_tally s) s = s.
Proof. by destruct s. Qed.

Lemma survey_items_below (progress_per : Z) (corpus : list (list token)) :
  progress_per ≠ 0 →
  ∀ (lv : locals) (s : TokenSurvey),
    Z.of_nat (length (count_elements (raw_tally s) (concat corpus)))
      < effective_prune_at_size lv →
    survey_items [] progress_per lv corpus s =
    (Ok {| l_total_tokens :=
             l_total_tokens lv + Z.of_nat (length (concat corpus));
           effective_prune_at_size := effective_prune_at_size lv;
           item_count := item_count lv + Z.of_nat (length corpus) |},
     set_raw_tally (count_elements (raw_tally s) (concat corpus)) s).
Proof.
  intros Hpp. induction corpus as [|tokens corpus IH]; intros lv s Hsize.
  - simpl. rewrite set_raw_tally_id, !Z.add_0_r. by destruct lv.
  - cbn [concat] in Hsize. rewrite count_elements_app in Hsize.
    cbn [survey_items].
    set (s1 := set_raw_tally (count_elements (raw_tally s) tokens) s).
    set (lv1 := {| l_total_tokens := l_total_tokens lv + Z.of_nat (length tokens);
                   effective_prune_at_size := effective_prune_at_size lv;
                   item_count := item_count lv + 1 |}).
    assert (survey_item [] progress_per lv tokens s = (Ok lv1, s1)) as Hitem.
    { unfold survey_item, mbind, meth_bind, modify, get, lift, py_mod.
      fold s1 lv1. destruct (Z.eqb_spec progress_per 0) as [?|_]; [done|].
      change (logger "info") with (Ok tt).
      assert ((effective_prune_at_size lv1 <=? __len__ s1) = false) as ->.
      { apply Z.leb_gt. unfold __len__. subst s1 lv1. simpl.
        pose proof (count_elements_length (concat corpus)
                      (count_elements (raw_tally s) tokens)). lia. }
      by destruct (_ =? 0). }
    erewrite meth_bind_Ok by exact Hitem.
    rewrite IH by (subst s1 lv1; simpl; lia).
    subst s1 lv1. cbn [concat]. rewrite count_elements_app, length_app.
    simpl. do 3 f_equal; lia.
Qed.

(** X16: [update_with] without callbacks and trim rule, with a progress
    interval other than zero, on a corpus that does not bring the tally up
    to [prune_at_size] and is short enough for one progress message at
    most (the rate in a later message is a quotient by the time since the
    message before). It returns normally; the tally is the old one
    updated with every token of the corpus in turn, so that it stays a
    dict, the count of every token has grown by the number of its
    occurrences in the corpus, and the tokens are those of the old tally
    and of the corpus; [corpus_count] has grown by the number of texts and
    [total_tokens] by the number of token occurrences; [max_raw_int] is
    the largest plain-int token of the tally, or -1 when there is none
    or none above -1; nothing else has changed. *)
Theorem update_with_counts (corpus : list (list token)) (progress_per : Z)
    (s : TokenSurvey) :
  progress_per ≠ 0 →
  Z.of_nat (length corpus) < 2 * Z.abs progress_per →
  dict_wf (raw_tally s) →
  Z.of_nat (length (count_elements (raw_tally s) (concat corpus)))
    < prune_at_size s →
  ∃ s',
    update_with corpus [] progress_per None s = (Ok tt, s') ∧
    raw_tally s' = count_elements (raw_tally s) (concat corpus) ∧
    dict_wf (raw_tally s') ∧
    (∀ t, default 0 (dict_get t (raw_tally s')) =
          default 0 (dict_get t (raw_tally s)) +
          Z.of_nat (length (filter (λ e, e = t) (concat corpus)))) ∧
    (∀ t, t ∈ (raw_tally s').*1 ↔ t ∈ (raw_tally s).*1 ∨ t ∈ concat corpus) ∧
    corpus_count s' = corpus_count s + Z.of_nat (length corpus) ∧
    total_tokens s' = total_tokens s + Z.of_nat (length (concat corpus)) ∧
    (-1 ≤ max_raw_int s' ∧
     (∀ z, Int z ∈ (raw_tally s').*1 → z ≤ max_raw_int s') ∧
     (max_raw_int s' = -1 ∨ Int (max_raw_int s') ∈ (raw_tally s').*1)) ∧
    (prune_at_size s', prune_until s', tenured_tokens s', items s') =
      (prune_at_size s, prune_until s, tenured_tokens s, items s) ∧
    (prune_count s', prune_floor s', prune_total s') =
      (prune_count s, prune_floor s, prune_total s).
Proof.
  intros Hpp _ Hwf Hsize. eexists. split.
  - unfold update_with. unfold mbind at 1, meth_bind at 1, get at 1.
    erewrite meth_bind_Ok by (by apply survey_items_below).
    unfold mbind, meth_bind, get, modify, lift, mret, meth_ret. simpl.
    rewrite Z.ltb_irrefl. reflexivity.
  - simpl. split; [done|]. split; [by apply count_elements_wf|].
    split; [intros t; apply count_elements_count|].
    split; [intros t; apply count_elements_keys|].
    split; [lia|]. split; [lia|]. split; [apply max_raw_int_spec|done].
Qed.

(** X17: with a progress interval of zero, [update_with] on a corpus that
    is not empty raises [ZeroDivisionError] at its first text, whose
    tokens it has counted into the tally by then, while [corpus_count] and
    [total_tokens] are left as they were. *)
Theorem update_with_zero_interval (tokens : list token)
    (rest : list (list token)) (prune_callbacks : list callback)
    (trim_rule : option (token → Z → bool)) (s : TokenSurvey) :
  update_with (tokens :: rest) prune_callbacks 0 trim_rule s =
  (Raise ZeroDivisionError,
   set_raw_tally (count_elements (raw_tally s) tokens) s).
Proof. by destruct trim_rule. Qed.

(** *** What a survey accounts for *)

Lemma same_totals_refl (s : TokenSurvey) : same_totals s s.
Proof. by repeat split. Qed.

Lemma same_totals_trans (s1 s2 s3 : TokenSurvey) :
  same_totals s1 s2 → same_totals s2 s3 → same_totals s1 s3.
Proof.
  unfold same_totals. intros (?&?&?&?) (?&?&?&?). repeat split; congruence.
Qed.

Lemma keeps_bind {A B} (m : meth TokenSurvey A) (f : A → meth TokenSurvey B) :
  keeps_totals m → (∀ a, keeps_totals (f a)) → keeps_totals (m ≫= f).
Proof.
  intros Hm Hf s r s'. unfold mbind, meth_bind.
  destruct (m s) as [[a|e] s1] eqn:Hs1; apply Hm in Hs1.
  - intros Hs'. apply Hf in Hs'. by eapply same_totals_trans.
  - by intros [= <- <-].
Qed.

Lemma keeps_ret {A} (a : A) : keeps_totals (mret a).
Proof. intros s r s' [= <- <-]. apply same_totals_refl. Qed.

Lemma keeps_lift {A} (x : res A) : keeps_totals (lift x).
Proof. intros s r s' [= <- <-]. apply same_totals_refl. Qed.

Lemma keeps_get : keeps_totals get.
Proof. intros s r s' [= <- <-]. apply same_totals_refl. Qed.

Lemma keeps_for_each {A} (l : list A) (body : A → meth TokenSurvey unit) :
  Forall (λ x, keeps_totals (body x)) l → keeps_totals (for_each l body).
Proof.
  induction 1 as [|x l Hx _ IH]; [apply keeps_ret|].
  cbn [for_each]. by apply keeps_bind.
Qed.

Lemma keeps_prune_token (tok : token) : keeps_totals (prune_token tok).
Proof.
  intros s r s'. unfold prune_token.
  destruct (dict_pop tok (raw_tally s)) as [[count tally]|] eqn:Hpop;
    intros [= <- <-]; [|apply same_totals_refl].
  apply dict_pop_sum in Hpop. unfold same_totals, accounted. simpl.
  repeat split. lia.
Qed.

Lemma keeps_trim_rule_callback (keep : token → Z → bool) :
  keeps_totals (trim_rule_callback keep).
Proof.
  unfold trim_rule_callback. apply keeps_bind; [apply keeps_get|].
  intros s. apply keeps_for_each, Forall_forall. intros tc _.
  destruct (keep tc.1 tc.2); [apply keeps_ret | apply keeps_prune_token].
Qed.

Lemma keeps_prune_candidates (target : Z) (cands : list (token * Z)) :
  ∀ h p, keeps_totals (prune_candidates target cands h p).
Proof.
  induction cands as [|[key count] cands IH]; intros h p; [apply keeps_ret|].
  cbn [prune_candidates]. apply keeps_bind; [apply keeps_get|]. intros s.
  destruct (__len__ s <=? target); [apply keeps_ret|].
  apply keeps_bind; [apply keeps_prune_token | intros _; apply IH].
Qed.

Lemma keeps_infrequent_pruning (lv : locals) :
  keeps_totals (infrequent_pruning lv).
Proof.
  unfold infrequent_pruning. apply keeps_bind; [apply keeps_get|]. intros s.
  apply keeps_bind; [apply keeps_prune_candidates|]. intros [[broke ?] ?].
  apply keeps_bind.
  - destruct broke; [apply keeps_ret|].
    apply keeps_bind; [apply keeps_lift | intros _; apply keeps_ret].
  - intros lv'. apply keeps_bind; [apply keeps_lift | intros _; apply keeps_ret].
Qed.

Lemma keeps_callbacks (cbs : list callback) :
  Forall keeps_totals cbs →
  keeps_totals (match cbs with
                | [] => mret tt
                | _ :: _ => for_each cbs (λ cb, cb) ;; lift (logger "info")
                end).
Proof.
  intros Hcbs. destruct cbs as [|cb cbs]; [apply keeps_ret|].
  apply keeps_bind; [by apply keeps_for_each|]. intros _. apply keeps_lift.
Qed.

(** The pruning step hands back the locals it was given. *)
Lemma infrequent_pruning_locals (lv lv' : locals) (s s' : TokenSurvey) :
  infrequent_pruning lv s = (Ok lv', s') → lv' = lv.
Proof.
  rewrite infrequent_pruning_unfold.
  destruct (prune_candidates _ _ 0 0 s) as [[[[[] ?] ?]|e] s1]; congruence.
Qed.

Lemma survey_item_totals (cbs : list callback) (progress_per : Z)
    (lv : locals) (tokens : list token) (s : TokenSurvey) r s' :
  Forall keeps_totals cbs →
  survey_item cbs progress_per lv tokens s = (r, s') →
  same_totals (set_raw_tally (count_elements (raw_tally s) tokens) s) s' ∧
  ∀ lv', r = Ok lv' →
    lv' = {| l_total_tokens := l_total_tokens lv + Z.of_nat (length tokens);
             effective_prune_at_size := effective_prune_at_size lv;
             item_count := item_count lv + 1 |}.
Proof.
  intros Hcbs. unfold survey_item.
  unfold mbind at 1, meth_bind at 1, modify at 1.
  set (s1 := set_raw_tally _ s). set (lv1 := {| l_total_tokens := _ |}).
  intros Hrest. split.
  - revert Hrest. generalize s1 r s'. change (keeps_totals ?m) with (keeps_totals m).
    apply keeps_bind; [apply keeps_get|]. intros s2.
    apply keeps_bind; [apply keeps_lift|]. intros x.
    apply keeps_bind.
    { destruct (x =? 0); [apply keeps_lift | apply keeps_ret]. }
    intros _. destruct (_ <=? _); [|apply keeps_ret].
    apply keeps_bind; [apply keeps_lift|]. intros _.
    apply keeps_bind; [by apply keeps_callbacks|]. intros _.
    apply keeps_infrequent_pruning.
  - intros lv' ->.
    apply meth_bind_Ok_inv in Hrest as (s2 & ? & [= <- <-] & Hrest).
    apply meth_bind_Ok_inv in Hrest as (x & ? & _ & Hrest).
    apply meth_bind_Ok_inv in Hrest as ([] & ? & _ & Hrest).
    destruct (_ <=? _); [|by injection Hrest as <- _].
    apply meth_bind_Ok_inv in Hrest as ([] & ? & _ & Hrest).
    apply meth_bind_Ok_inv in Hrest as ([] & ? & _ & Hrest).
    by apply infrequent_pruning_locals in Hrest.
Qed.

Lemma survey_items_totals (cbs : list callback) (progress_per : Z)
    (corpus : list (list token)) :
  Forall keeps_totals cbs →
  ∀ (lv lv' : locals) (s s' : TokenSurvey),
    survey_items cbs progress_per lv corpus s = (Ok lv', s') →
    accounted s' = accounted s + Z.of_nat (length (concat corpus)) ∧
    total_tokens s' = total_tokens s ∧
    corpus_count s' = corpus_count s ∧
    prune_at_size s' = prune_at_size s ∧
    l_total_tokens lv' = l_total_tokens lv + Z.of_nat (length (concat corpus)) ∧
    item_count lv' = item_count lv + Z.of_nat (length corpus).
Proof.
  intros Hcbs. induction corpus as [|tokens corpus IH]; intros lv lv' s s'.
  - intros [= <- <-]. simpl. repeat split; lia.
  - cbn [survey_items]. intros Hloop.
    apply meth_bind_Ok_inv in Hloop as (lv1 & s1 & Hitem & Hloop).
    apply survey_item_totals in Hitem as [(Hacc & Htot & Hcorp & Hsize) Hlv];
      [|done].
    specialize (Hlv lv1 eq_refl). subst lv1.
    apply IH in Hloop as (Hacc' & Htot' & Hcorp' & Hsize' & Hl & Hi).
    unfold accounted in *. simpl in *.
    rewrite count_elements_sum in Hacc. rewrite length_app.
    repeat split; lia.
Qed.

(** X18: when [update_with] returns normally, with a trim rule or without
    and with callbacks that leave alone what the survey accounts for
    (the counts of its tally plus [prune_total]), [total_tokens],
    [corpus_count] and [prune_at_size], then what the survey accounts for
    and [total_tokens] have both grown by the number of token occurrences
    of the corpus, and [corpus_count] by the number of its texts, whatever
    was pruned on the way. A survey whose [total_tokens] is what it
    accounts for stays so. *)
Theorem update_with_accounts (corpus : list (list token))
    (prune_callbacks : list callback) (progress_per : Z)
    (trim_rule : option (token → Z → bool)) (s s' : TokenSurvey) :
  Forall keeps_totals prune_callbacks →
  update_with corpus prune_callbacks progress_per trim_rule s = (Ok tt, s') →
  accounted s' = accounted s + Z.of_nat (length (concat corpus)) ∧
  total_tokens s' = total_tokens s + Z.of_nat (length (concat corpus)) ∧
  corpus_count s' = corpus_count s + Z.of_nat (length corpus) ∧
  (total_tokens s = accounted s → total_tokens s' = accounted s').
Proof.
  intros Hcbs. unfold update_with.
  set (cbs := match trim_rule with
              | Some keep => prune_callbacks ++ [trim_rule_callback keep]
              | None => prune_callbacks
              end).
  assert (Forall keeps_totals cbs) as Hall.
  { subst cbs. destruct trim_rule as [keep|]; [|done].
    apply Forall_app. split; [done|].
    constructor; [apply keeps_trim_rule_callback | constructor]. }
  intros Hrun.
  apply meth_bind_Ok_inv in Hrun as (s0 & ? & [= <- <-] & Hrun).
  apply meth_bind_Ok_inv in Hrun as (lv & s1 & Hloop & Hrun).
  apply (survey_items_totals _ _ _ Hall) in Hloop
    as (Hacc & Htot & Hcorp & Hsize & Hl & Hi).
  apply meth_bind_Ok_inv in Hrun as (s1' & ? & [= <- <-] & Hrun).
  apply meth_bind_Ok_inv in Hrun as ([] & s2 & Hsevere & Hrun).
  assert (s2 = s1) as ->.
  { destruct (_ <? _); [|by injection Hsevere]. by injection Hsevere. }
  apply meth_bind_Ok_inv in Hrun as ([] & s3 & Hend & Hrun).
  apply (keeps_callbacks _ Hall) in Hend as (Hacc3 & Htot3 & Hcorp3 & Hsize3).
  injection Hrun as <-. unfold accounted in *. simpl in *.
  repeat split; lia.
Qed.

End surveying.

Section reporting.
Context `{PyFloat}.

(** A loop that assigns consecutive positions fills them in order. *)
Lemma fill_loop {X B} (idx : X → Z) (val : X → B) (xs : list X) :
  ∀ (pre : list (option B)) (rest : nat),
    (∀ j x, xs !! j = Some x → idx x = Z.of_nat (length pre + j)) →
    foldM (λ l x, setitem_z l (idx x) (Some (val x)))
      (pre ++ replicate (length xs + rest) None) xs =
    Ok (pre ++ (Some ∘ val <$> xs) ++ replicate rest None).
Proof.
  induction xs as [|x xs IH]; intros pre rest Hidx; [done|].
  cbn [foldM]. pose proof (Hidx 0%nat x eq_refl) as Hx.
  rewrite Nat.add_0_r in Hx.
  assert (setitem_z (pre ++ replicate (length (x :: xs) + rest) None) (idx x)
            (Some (val x)) =
          Ok ((pre ++ [Some (val x)]) ++ replicate (length xs + rest) None))
    as ->.
  { unfold setitem_z. rewrite Hx, length_app, length_replicate.
    assert ((Z.of_nat (length pre) <? 0) = false) as -> by lia.
    assert ((Z.of_nat (length pre) <? 0) = false) as -> by lia.
    assert ((Z.of_nat (length pre + (length (x :: xs) + rest))
               <=? Z.of_nat (length pre)) = false) as ->
      by (apply Z.leb_gt; cbn [length]; lia).
    cbn [orb]. rewrite Nat2Z.id. f_equal.
    rewrite <- (Nat.add_0_r (length pre)) at 1.
    rewrite insert_app_r, <- app_assoc. done. }
  rewrite bind_Ok, IH.
  - rewrite <- !app_assoc. done.
  - intros j x' Hj. rewrite (Hidx (S j) x' Hj), length_app. simpl. f_equal. lia.
Qed.

Lemma range_lookup (n : Z) (j : nat) (x : Z) :
  range n !! j = Some x → x = Z.of_nat j.
Proof.
  unfold range. rewrite list_lookup_fmap. intros Hj.
  apply fmap_Some in Hj as (i & Hi & ->).
  apply lookup_seq in Hi as [-> _]. done.
Qed.

Lemma enumerate_lookup {A} (l : list A) (j : nat) (it : nat * A) :
  enumerate l !! j = Some it → it.1 = j.
Proof.
  unfold enumerate. destruct it as [i x]. rewrite lookup_zip_Some.
  intros [Hi _]. apply lookup_seq in Hi as [-> _]. done.
Qed.

(** The non-int items of a dict, read through its keys. *)
Lemma non_int_items (d0 d : list (token * Z)) :
  (∀ kv, kv ∈ d → dict_get kv.1 d0 = Some kv.2) →
  (λ t, (t, default 0 (dict_get t d0))) <$> filter (λ t, is_int t = None) d.*1 =
  filter (λ kv, is_int kv.1 = None) d.
Proof.
  induction d as [|[k v] d IH]; intros Hget; [done|].
  rewrite fmap_cons, !filter_cons. cbn [fst].
  specialize (IH ltac:(intros kv ?; apply Hget; by right)).
  destruct (decide (is_int k = None)); [|done].
  pose proof (Hget (k, v) ltac:(left)) as Hk. simpl in Hk.
  by rewrite fmap_cons, IH, Hk.
Qed.

(** What [int_centric_items] returns. *)
Lemma int_centric_items_eq (self : TokenSurvey) :
  dict_wf (raw_tally self) →
  -1 ≤ max_raw_int self →
  int_centric_items self =
    ((if __len__ self <? max_raw_int self then logger "warn" else Ok tt) ;;
     Ok ((Some <$>
            ((λ i, (Int i, default 0 (dict_get (Int i) (raw_tally self))))
               <$> range (max_raw_int self + 1))) ++
         (Some <$> filter (λ kv, is_int kv.1 = None) (raw_tally self)))).
Proof.
  intros Hwf Hmax.
  assert (length (range (max_raw_int self + 1)) =
          Z.to_nat (max_raw_int self + 1)) as Hrange
    by (unfold range; by rewrite length_fmap, length_seq).
  unfold int_centric_items.
  set (keys := filter (λ t, is_int t = None) (raw_tally self).*1).
  assert (length (enumerate keys) = length keys) as Henum.
  { unfold enumerate. rewrite length_zip, length_seq. lia. }
  assert (Z.to_nat (max_raw_int self + 1 + Z.of_nat (length keys)) =
          (length (range (max_raw_int self + 1)) +
           (length (enumerate keys) + 0))%nat) as -> by lia.
  destruct (if __len__ self <? max_raw_int self then logger "warn" else Ok tt)
    as [[]|e]; [|done].
  rewrite !bind_Ok.
  rewrite (fill_loop (λ i, i)
             (λ i, (Int i, default 0 (dict_get (Int i) (raw_tally self))))
             (range (max_raw_int self + 1)) [] (length (enumerate keys) + 0))
    by (intros j x Hj; by apply range_lookup in Hj).
  rewrite bind_Ok. cbn [app].
  rewrite (fill_loop (λ it : nat * token, max_raw_int self + 1 + Z.of_nat it.1)
             (λ it, (it.2, default 0 (dict_get it.2 (raw_tally self))))).
  2: { intros j it Hj. apply enumerate_lookup in Hj as ->.
       rewrite length_fmap, Hrange. lia. }
  f_equal. cbn [replicate]. rewrite app_nil_r. f_equal.
  { by rewrite <- list_fmap_compose. }
  rewrite <- (non_int_items (raw_tally self)).
  2: { intros [k v] Hkv. by apply dict_get_elem. }
  fold keys. rewrite <- list_fmap_compose.
  rewrite <- (snd_zip (seq 0 (length keys)) keys) at 2
    by (rewrite length_seq; lia).
  by rewrite <- list_fmap_compose.
Qed.

(** X19: the report of [int_centric_items] on a survey whose tally is a
    dict and whose [max_raw_int] is at least -1. After the warning, if
    there are fewer tokens than [max_raw_int], it returns one entry for
    every int from 0 to [max_raw_int], with the count of the int in the
    tally or zero, followed by the items of the tally that are not ints,
    in their order. No placeholder is left in the list, and an int token
    of the tally that is negative or above [max_raw_int] is not
    reported. *)
Theorem int_centric_items_report (self : TokenSurvey) :
  dict_wf (raw_tally self) →
  -1 ≤ max_raw_int self →
  (int_centric_items self =
     ((if __len__ self <? max_raw_int self then logger "warn" else Ok tt) ;;
      Ok ((Some <$>
             ((λ i, (Int i, default 0 (dict_get (Int i) (raw_tally self))))
                <$> range (max_raw_int self + 1))) ++
          (Some <$> filter (λ kv, is_int kv.1 = None) (raw_tally self))))) ∧
  ∀ report,
    int_centric_items self = Ok report →
    Z.of_nat (length report) =
      max_raw_int self + 1 +
      Z.of_nat (length (filter (λ kv, is_int kv.1 = None) (raw_tally self))) ∧
    (None ∉ report) ∧
    ∀ z count, Some (Int z, count) ∈ report → 0 ≤ z ≤ max_raw_int self.
Proof.
  intros Hwf Hmax. pose proof (int_centric_items_eq self Hwf Hmax) as Hreport.
  split; [done|]. intros report Hrep. rewrite Hreport in Hrep.
  destruct (if __len__ self <? max_raw_int self then logger "warn" else Ok tt)
    as [[]|e]; [|done].
  injection Hrep as <-. split; [|split].
  - rewrite length_app, !length_fmap. unfold range.
    rewrite length_fmap, length_seq. lia.
  - rewrite elem_of_app, !list_elem_of_fmap. by intros [(? & ? & _)|(? & ? & _)].
  - intros z count. rewrite elem_of_app, !list_elem_of_fmap.
    intros [(x & [= <-] & Hx)|(x & [= <-] & Hx)].
    + apply list_elem_of_fmap in Hx as (i & [= ->] & Hi).
      apply list_elem_of_lookup in Hi as [j Hj].
      pose proof (lookup_lt_Some _ _ _ Hj) as Hlt.
      unfold range in Hlt. rewrite length_fmap, length_seq in Hlt.
      apply range_lookup in Hj. lia.
    + by apply list_elem_of_filter in Hx as [? _].
Qed.

(** X25: a survey created from a tally, without a corpus, has
    [max_raw_int] at -1 whatever the tally holds, and a [total_tokens]
    that is what it accounts for. Its report therefore lists the items of
    the tally that are not ints, and no int token at all, until
    [update_with] has run; [update_with] on the empty corpus changes
    nothing but [max_raw_int], which becomes the largest int token. *)
Theorem init_reports_no_ints (tally : list (token * Z)) (corpus_count0 : Z)
    (progress_per : Z) (prune_at_size0 : option Z) (prune_until0 : float)
    (prune_callbacks : list callback) (items0 : string) :
  dict_wf tally →
  ∃ s,
    __init__ None (Some tally) corpus_count0 progress_per prune_at_size0
      prune_until0 prune_callbacks items0 = (Ok tt, s) ∧
    raw_tally s = tally ∧
    max_raw_int s = -1 ∧
    total_tokens s = accounted s ∧
    int_centric_items s =
      Ok (Some <$> filter (λ kv, is_int kv.1 = None) tally) ∧
    ∃ s', update_with [] [] progress_per None s = (Ok tt, s') ∧
          raw_tally s' = tally ∧
          max_raw_int s' = foldr Z.max (-1) (omap is_int tally.*1) ∧
          same_totals s s'.
Proof.
  intros Hwf. eexists. split; [reflexivity|]. simpl.
  split; [done|]. split; [done|]. split; [unfold accounted; simpl; lia|].
  split.
  - rewrite int_centric_items_eq by (simpl; done || lia). simpl.
    unfold __len__. cbn [raw_tally].
    assert ((Z.of_nat (length tally) <? -1) = false) as ->
      by (apply Z.ltb_ge; lia).
    done.
  - eexists. split.
    { unfold update_with, mbind, meth_bind, get, modify, lift, mret, meth_ret.
      simpl. rewrite Z.ltb_irrefl. reflexivity. }
    simpl. split; [done|]. split; [done|].
    unfold same_totals, accounted. simpl. repeat split; lia.
Qed.

(** X20: [combine_survey] on surveys whose tally is a dict. The count of
    every token is the sum of its counts in the two surveys, the tokens
    of the receiving survey keeping their place and the new ones
    following; what the combined survey accounts for is the sum of what
    the two account for; but [total_tokens] is recomputed from the tally,
    so that the occurrences either survey has pruned are no longer in
    it; and [max_raw_int], [prune_at_size] and the tenured tokens of the
    other survey are not taken over. *)
Theorem combine_survey_totals (a b : TokenSurvey) :
  dict_wf (raw_tally a) → dict_wf (raw_tally b) →
  dict_wf (raw_tally (merge a b)) ∧
  (∀ t, dict_get t (raw_tally (merge a b)) =
        count_sum (dict_get t (raw_tally a)) (dict_get t (raw_tally b))) ∧
  accounted (merge a b) = accounted a + accounted b ∧
  total_tokens (merge a b) =
    accounted (merge a b) - (prune_total a + prune_total b) ∧
  (max_raw_int (merge a b), prune_at_size (merge a b),
   tenured_tokens (merge a b)) =
    (max_raw_int a, prune_at_size a, tenured_tokens a).
Proof.
  intros Ha Hb. split; [by apply merge_wf|].
  split; [intros t; by apply merge_get|].
  unfold accounted. rewrite merge_total, merge_sum by done. simpl.
  repeat split; lia.
Qed.

End reporting.
Section examples.
#[local] Existing Instance Q_float.

(** Pruning [y] from the tally [{x: 2, y: 1}], and the absent [z]. *)
Lemma prune_token_removes_witness :
  let s := survey_of [(Str "x", 2); (Str "y", 1)] 3 in
  (∃ s', prune_token (Str "y") s = (Ok tt, s') ∧
         raw_tally s' = [(Str "x", 2)] ∧ prune_total s' = 1) ∧
  prune_token (Str "z") s = (Raise KeyError, s).
Proof.
  intros s.
  assert (dict_wf (raw_tally s)) as Hwf
    by (apply (bool_decide_unpack _); vm_compute; exact I).
  split.
  - pose proof (prune_token_removes (Str "y") s Hwf) as Hp.
    assert (dict_get (Str "y") (raw_tally s) = Some 1) as Hget by reflexivity.
    rewrite Hget in Hp.
    destruct Hp as (s' & Hrun & Htally & _ & _ & _ & _ & Htotal & _).
    exists s'. split; [exact Hrun|].
    split; [rewrite Htally | rewrite Htotal]; reflexivity.
  - pose proof (prune_token_removes (Str "z") s Hwf) as Hp.
    assert (dict_get (Str "z") (raw_tally s) = None) as Hget by reflexivity.
    rewrite Hget in Hp. exact Hp.
Defined.

(** The rule that keeps the tokens seen at least twice. *)
Lemma trim_rule_callback_filters_witness :
  let s := survey_of [(Str "x", 2); (Str "y", 1); (Int 7, 3)] 3 in
  ∃ s', trim_rule_callback (λ _ count, 2 <=? count) s = (Ok tt, s') ∧
        raw_tally s' = [(Str "x", 2); (Int 7, 3)] ∧
        prune_count s' = 1.
Proof.
  intros s.
  destruct (trim_rule_callback_filters (λ _ count, 2 <=? count) s)
    as (s' & Hrun & Htally & Hcount & _).
  - apply (bool_decide_unpack _). vm_compute. exact I.
  - exists s'. split; [exact Hrun|]. split; [by rewrite Htally|].
    rewrite Hcount. unfold __len__. rewrite Htally. reflexivity.
Defined.


(** Two texts surveyed by a fresh survey. *)
Lemma update_with_counts_witness :
  ∃ s', update_with [[Str "a"; Str "b"]; [Str "a"; Int 3]] [] 10000 None
          (new_survey None (1 # 2)) = (Ok tt, s') ∧
        raw_tally s' = [(Str "a", 2); (Str "b", 1); (Int 3, 1)] ∧
        corpus_count s' = 2 ∧ total_tokens s' = 4.
Proof.
  destruct (update_with_counts [[Str "a"; Str "b"]; [Str "a"; Int 3]] 10000
              (new_survey None (1 # 2)))
    as (s' & Hrun & Htally & _ & _ & _ & Hcorpus & Htotal & _).
  - lia.
  - simpl. lia.
  - apply (bool_decide_unpack _). vm_compute. exact I.
  - vm_compute. reflexivity.
  - exists s'. split; [exact Hrun|]. split; [by rewrite Htally|].
    split; [by rewrite Hcorpus | by rewrite Htotal].
Defined.

(** A survey that prunes [b] at its ceiling of two tokens still accounts
    for the two occurrences it has seen. *)
Lemma update_with_accounts_witness :
  let out := update_with [[Str "a"; Str "b"]] [tenure_token (Str "b")] 10000
               None (new_survey (Some 2) (1 # 2)) in
  out.1 = Ok tt ∧ raw_tally out.2 = [(Str "a", 1)] ∧
  accounted out.2 = 2 ∧ total_tokens out.2 = 2.
Proof.
  intros out.
  destruct (update_with_accounts [[Str "a"; Str "b"]]
              [tenure_token (Str "b")] 10000 None
              (new_survey (Some 2) (1 # 2)) out.2) as (Hacc & Htot & _).
  - constructor; [|constructor]. intros s r s' [= <- <-]. by repeat split.
  - vm_compute. reflexivity.
  - split; [reflexivity|]. split; [reflexivity|].
    split; [by rewrite Hacc | by rewrite Htot].
Defined.

(** The report of a survey of the one text [2, a, -1]: the ints 0 to 2,
    then [a]; the token -1 is left out. *)
Lemma int_centric_items_report_witness :
  let s := (update_with [[Int 2; Str "a"; Int (-1)]] [] 10000 None
              (new_survey None (1 # 2))).2 in
  int_centric_items s =
    Ok [Some (Int 0, 0); Some (Int 1, 0); Some (Int 2, 1); Some (Str "a", 1)] ∧
  ∀ report, int_centric_items s = Ok report →
            ∀ count, Some (Int (-1), count) ∉ report.
Proof.
  intros s. destruct (int_centric_items_report s) as [Hrep Hprops].
  - apply (bool_decide_unpack _). vm_compute. exact I.
  - vm_compute. discriminate.
  - split; [by rewrite Hrep|]. intros report Hreport count Hin.
    destruct (Hprops report Hreport) as (_ & _ & Hints).
    specialize (Hints _ _ Hin). lia.
Defined.

(** A survey that has pruned [y] once, combined with another. *)
Lemma combine_survey_totals_witness :
  let a := (prune_token (Str "y") (survey_of [(Str "x", 2); (Str "y", 1)] 3)).2 in
  let b := survey_of [(Str "y", 4)] 1 in
  raw_tally (merge a b) = [(Str "x", 2); (Str "y", 4)] ∧
  accounted (merge a b) = 7 ∧ total_tokens (merge a b) = 6.
Proof.
  intros a b.
  destruct (combine_survey_totals a b) as (_ & _ & Hacc & Htot & _).
  - apply (bool_decide_unpack _). vm_compute. exact I.
  - apply (bool_decide_unpack _). vm_compute. exact I.
  - split; [reflexivity|]. rewrite Htot, Hacc. split; reflexivity.
Defined.

(** A survey created from the tally [{2: 5, a: 1}]. *)
Lemma init_reports_no_ints_witness :
  ∃ s, __init__ (H := Q_float) None (Some [(Int 2, 5); (Str "a", 1)]) 1 10000
         None (1 # 2)%Q [] "tags" = (Ok tt, s) ∧
       int_centric_items s = Ok [Some (Str "a", 1)] ∧
       ∃ s', update_with [] [] 10000 None s = (Ok tt, s') ∧ max_raw_int s' = 2.
Proof.
  destruct (init_reports_no_ints (H := Q_float) [(Int 2, 5); (Str "a", 1)] 1
              10000 None (1 # 2)%Q [] "tags")
    as (s & Hs & _ & _ & _ & Hreport & s' & Hs' & _ & Hmax & _).
  - apply (bool_decide_unpack _). vm_compute. exact I.
  - exists s. split; [exact Hs|]. split; [exact Hreport|].
    exists s'. split; [exact Hs' | exact Hmax].
Defined.
End examples.
End TokenSurveyExtra.
